(** * Local-Citation-Network: map_rtf_internal_citations.py

    A shallow embedding of the bibliography pipeline of
    [src/map_rtf_internal_citations.py] and the properties of its
    specification.

    Conventions of the embedding.
    - A Python [str] is a list of Unicode code points ([pystr := list Z]).
    - A Python [int] is a [Z].
    - An exception is a value of [exn]; fallible code lives in [result].
    - A [dict] is an insertion-ordered association list ([odict]), a [set]
      used for membership is a [gset].
    - Each regular expression of the source is written out as the matcher
      that CPython's backtracking engine computes for it; [finditer],
      [re_search] and [re_sub] drive these matchers over a string the way
      [re] does (leftmost match, then resume after it).
    - The whitespace set of [str.strip] and of [\s] is short and fixed and is
      listed in [isspace].  The decimal-digit, alphanumeric and lower-case
      tables of the Unicode database are large and are not part of the
      repository: their ASCII part is written out, the rest is the
      parameter [UnicodeDB].
    - Numerals are taken to be no longer than the interpreter's limit on
      [int(str)] conversions ([int_max_str_digits] on CPython 3.11 and
      later), so that [int] fails on malformed text only; the theorem on
      the segmenter has the bound among its hypotheses.
    - The graph of networkx and the tables of pandas hold identities,
      reference numbers and years as the program gives them.
    - The pipeline sees OpenAlex as a service ([OpenAlex]): a function of
      the DOI, or of the title and year.  What else a run depends on is
      its host ([Host]): whether [time.sleep] accepts the wait of
      [--sleep], and whether each of the three files gets written.
    - The client below the service ([Http]) is modelled with the network
      as a parameter, the reply to the n-th request of a run, and with a
      log of its waits and requests.  [oa_get_json_exn] is a call for any
      wait; [oa_get_json] and its callers are followed for a wait that
      [time.sleep] accepts; [service_of] is the service that a network
      stands for. *)

From stdpp Require Import gmap sorting list list_numbers strings pretty.
From Stdlib Require Import ZArith Ascii Lia.

Local Open Scope Z_scope.

(** ** Strings *)

Abbreviation pystr := (list Z).

(** The code points of an ASCII literal. *)
Definition py (s : string) : pystr :=
  map (fun a => Z.of_N (N_of_ascii a)) (String.list_ascii_of_string s).

Definition NL : Z := 10.
Definition DQUOTE : Z := 34.
Definition LDQUOTE : Z := 8220.   (* U+201C, left curly quote *)
Definition RDQUOTE : Z := 8221.   (* U+201D, right curly quote *)

(** [str.isspace] of one character, which is also [\s] of [re] on [str]
    patterns: CPython's [_PyUnicode_IsWhitespace]. *)
Definition isspace (c : Z) : bool :=
  ((9 <=? c) && (c <=? 13)) || ((28 <=? c) && (c <=? 32))
  || (c =? 133) || (c =? 160) || (c =? 5760)
  || ((8192 <=? c) && (c <=? 8202))
  || (c =? 8232) || (c =? 8233) || (c =? 8239) || (c =? 8287) || (c =? 12288).

Definition is_ascii (c : Z) : bool := (0 <=? c) && (c <? 128).
Definition ascii_digit (c : Z) : bool := (48 <=? c) && (c <=? 57).
Definition ascii_upper (c : Z) : bool := (65 <=? c) && (c <=? 90).
Definition ascii_lower (c : Z) : bool := (97 <=? c) && (c <=? 122).
Definition ascii_letter (c : Z) : bool := ascii_upper c || ascii_lower c.
Definition ascii_hex (c : Z) : bool :=
  ascii_digit c || ((65 <=? c) && (c <=? 70)) || ((97 <=? c) && (c <=? 102)).
Definition ascii_tolower (c : Z) : Z := if ascii_upper c then c + 32 else c.

(** The part of the Unicode character database the program consults
    beyond ASCII. *)
Class UnicodeDB := {
  (** decimal value of a non-ASCII decimal digit (category Nd) *)
  decimal_hi : Z -> option Z;
  (** [str.isalnum] of a non-ASCII character *)
  alnum_hi : Z -> bool;
  (** [str.lower] of a string that has a non-ASCII character *)
  lower_hi : pystr -> pystr;
  decimal_hi_range : forall c d, decimal_hi c = Some d -> 0 <= d <= 9;
  decimal_hi_alnum : forall c d, decimal_hi c = Some d -> alnum_hi c = true;
  decimal_hi_nospace : forall c d, decimal_hi c = Some d -> isspace c = false;
}.

(** The database that knows ASCII only. *)
Program Definition ascii_db : UnicodeDB := {|
  decimal_hi := fun _ => None;
  alnum_hi := fun _ => false;
  lower_hi := fun s => s;
|}.
Solve All Obligations with (intros; discriminate).

(** ** Exceptions *)

Inductive exn :=
  | ChrRange (code : Z)          (* chr(code): ValueError or OverflowError *)
  | InvalidLiteral (s : pystr)   (* int(s): ValueError *)
  | SelectionEmpty               (* ValueError: selection matched no references *)
  | NoReferences                 (* SystemExit: no numbered references found *)
  | KeyError                     (* d[k] for a key that d does not have *)
  | SleepRefused                 (* time.sleep(secs): ValueError or OverflowError *)
  | WriteFailed.                 (* an exception of write_graphml or of to_csv *)

Inductive result (A : Type) :=
  | Ok (a : A)
  | Raise (e : exn).
Arguments Ok {A} a.
Arguments Raise {A} e.

#[global] Instance result_ret : MRet result := fun A a => Ok a.
#[global] Instance result_bind : MBind result := fun A B f m =>
  match m with Ok a => f a | Raise e => Raise e end.

(** [for x in xs: st = f(st, x)] where [f] may raise *)
Fixpoint foldM {A S : Type} (f : S -> A -> result S) (st : S) (xs : list A) : result S :=
  match xs with
  | [] => Ok st
  | x :: xs' => st' ← f st x; foldM f st' xs'
  end.

(** ** Dictionaries

    A [dict] keeps its keys in insertion order; assigning to a key that
    is present keeps its place. *)

Abbreviation odict K V := (list (K * V)).

Section Dict.
Context {K V : Type} `{EqDecision K}.

(** [d.get(k)] *)
Fixpoint dict_get (k : K) (d : odict K V) : option V :=
  match d with
  | [] => None
  | (k', v) :: d' => if decide (k = k') then Some v else dict_get k d'
  end.

(** [d[k]] *)
Definition dict_item (k : K) (d : odict K V) : result V :=
  match dict_get k d with
  | Some v => Ok v
  | None => Raise KeyError
  end.

(** [d[k] = v] *)
Fixpoint dict_set (k : K) (v : V) (d : odict K V) : odict K V :=
  match d with
  | [] => [(k, v)]
  | (k', v') :: d' =>
    if decide (k = k') then (k, v) :: d' else (k', v') :: dict_set k v d'
  end.

(** [{k: v for k, v in items}] *)
Definition dict_of (items : list (K * V)) : odict K V :=
  fold_left (fun d kv => dict_set kv.1 kv.2 d) items [].

End Dict.

Section Text.
Context {U : UnicodeDB}.

(** [Py_UNICODE_TODECIMAL]: the value of a decimal digit. *)
Definition todecimal (c : Z) : option Z :=
  if c <? 128 then (if ascii_digit c then Some (c - 48) else None)
  else decimal_hi c.

(** [\d] *)
Definition isdecimal (c : Z) : bool :=
  match todecimal c with Some _ => true | None => false end.

(** [\w] *)
Definition isword (c : Z) : bool :=
  if c <? 128 then ascii_letter c || ascii_digit c || (c =? 95)
  else alnum_hi c.

(** [str.lower] *)
Definition lower (s : pystr) : pystr :=
  if forallb is_ascii s then map ascii_tolower s else lower_hi s.

(** [\b]: a word boundary between the character before the position
    ([None] at the start of the string) and the text from the position on. *)
Definition word_boundary (prev : option Z) (s : pystr) : bool :=
  xorb (match prev with Some c => isword c | None => false end)
       (match s with c :: _ => isword c | [] => false end).

Fixpoint dropwhile (p : Z -> bool) (s : pystr) : pystr :=
  match s with
  | [] => []
  | c :: s' => if p c then dropwhile p s' else s
  end.

Fixpoint takewhile (p : Z -> bool) (s : pystr) : pystr :=
  match s with
  | [] => []
  | c :: s' => if p c then c :: takewhile p s' else []
  end.

Definition rstrip_by (p : Z -> bool) (s : pystr) : pystr :=
  rev (dropwhile p (rev s)).

(** [s.strip()] *)
Definition strip (s : pystr) : pystr := rstrip_by isspace (dropwhile isspace s).

(** The rest of [s] after the literal [p], when [s] starts with [p]. *)
Fixpoint strip_prefix (p s : pystr) : option pystr :=
  match p, s with
  | [], _ => Some s
  | a :: p', b :: s' => if a =? b then strip_prefix p' s' else None
  | _ :: _, [] => None
  end.

(** [s.startswith(p)] *)
Fixpoint startswith (p s : pystr) : bool :=
  match p, s with
  | [], _ => true
  | a :: p', b :: s' => (a =? b) && startswith p' s'
  | _ :: _, [] => false
  end.

(** [sub in s] *)
Fixpoint occurs (sub s : pystr) : bool :=
  startswith sub s ||
  match s with
  | [] => false
  | _ :: s' => occurs sub s'
  end.

(** ** [int(str)] and [chr] *)

(** The whitespace [int] skips around a numeral: C [isspace] on ASCII,
    [str.isspace] beyond. *)
Definition int_space (c : Z) : bool :=
  if c <? 127 then ((9 <=? c) && (c <=? 13)) || (c =? 32) else isspace c.

(** The digits of a numeral, single underscores allowed between digits.
    [sep] tells that a digit must come next. *)
Fixpoint int_digits (acc : Z) (sep : bool) (s : pystr) : option Z :=
  match s with
  | [] => if sep then None else Some acc
  | c :: s' =>
    match todecimal c with
    | Some d => int_digits (10 * acc + d) false s'
    | None => if (c =? 95) && negb sep then int_digits acc true s' else None
    end
  end.

Definition int_signed (s : pystr) : option Z :=
  match strip_prefix [43] s, strip_prefix [45] s with
  | Some r, _ => int_digits 0 true r
  | None, Some r => Z.opp <$> int_digits 0 true r
  | None, None => int_digits 0 true s
  end.

(** [int(s)] *)
Definition py_int (s : pystr) : result Z :=
  match int_signed (rstrip_by int_space (dropwhile int_space s)) with
  | Some n => Ok n
  | None => Raise (InvalidLiteral s)
  end.

(** The number of digits of the longest numeral that [int] converts on
    CPython 3.11 and later, unless the limit is configured otherwise: a
    longer numeral makes [int] raise [ValueError].  Earlier versions have
    no limit. *)
Definition int_max_str_digits : nat := 4300.

(** [chr(code)] *)
Definition py_chr (code : Z) : result pystr :=
  if (0 <=? code) && (code <? 1114112) then Ok [code] else Raise (ChrRange code).

(** ** The regular-expression driver *)

Section Regex.
Context {M : Type}.
(** [pat prev s] tries a pattern at one position: [prev] is the character
    before the position, [s] the text from the position to the end.  It
    returns the match and the number of characters it spans (never 0 for
    the patterns of this program). *)
Variable pat : option Z -> pystr -> option (M * nat).

(** [pattern.finditer(s)]: [skip] characters of the last match are still
    to be passed over. *)
Fixpoint finditer_from (skip : nat) (prev : option Z) (s : pystr) : list M :=
  match s with
  | [] => []
  | c :: s' =>
    match skip with
    | S k => finditer_from k (Some c) s'
    | O =>
      match pat prev s with
      | Some (m, n) => m :: finditer_from (Nat.pred n) (Some c) s'
      | None => finditer_from 0 (Some c) s'
      end
    end
  end.

Definition finditer (s : pystr) : list M := finditer_from 0 None s.

(** [pattern.search(s)] *)
Fixpoint search_from (prev : option Z) (s : pystr) : option M :=
  match s with
  | [] => None
  | c :: s' =>
    match pat prev s with
    | Some (m, _) => Some m
    | None => search_from (Some c) s'
    end
  end.

Definition re_search (s : pystr) : option M := search_from None s.

(** [pattern.sub(repl, s)] with a callable [repl] that may raise. *)
Fixpoint sub_from (repl : M -> result pystr)
    (skip : nat) (prev : option Z) (s : pystr) : result pystr :=
  match s with
  | [] => Ok []
  | c :: s' =>
    match skip with
    | S k => sub_from repl k (Some c) s'
    | O =>
      match pat prev s with
      | Some (m, n) =>
        r ← repl m; rest ← sub_from repl (Nat.pred n) (Some c) s'; Ok (r ++ rest)
      | None => rest ← sub_from repl 0 (Some c) s'; Ok (c :: rest)
      end
    end
  end.

Definition re_sub (repl : M -> result pystr) (s : pystr) : result pystr :=
  sub_from repl 0 None s.

(** [pattern.sub(r, s)] with a constant replacement. *)
Fixpoint sub_const_from (r : pystr) (skip : nat) (prev : option Z) (s : pystr) : pystr :=
  match s with
  | [] => []
  | c :: s' =>
    match skip with
    | S k => sub_const_from r k (Some c) s'
    | O =>
      match pat prev s with
      | Some (_, n) => r ++ sub_const_from r (Nat.pred n) (Some c) s'
      | None => c :: sub_const_from r 0 (Some c) s'
      end
    end
  end.

Definition re_sub_const (r : pystr) (s : pystr) : pystr := sub_const_from r 0 None s.

End Regex.

(** ** RTF parsing helpers *)

(** [\\u(-?\d+)\??]: the match is group 1.  The sign is taken only when a
    digit follows it. *)
Definition pat_uni (prev : option Z) (s : pystr) : option (pystr * nat) :=
  match strip_prefix [92; 117] s with
  | Some r =>
    let sign := match strip_prefix [45] r with
                | Some r' => match takewhile isdecimal r' with [] => [] | _ => [45] end
                | None => []
                end in
    let r1 := drop (length sign) r in
    match takewhile isdecimal r1 with
    | [] => None
    | ds =>
      let q := if startswith [63] (dropwhile isdecimal r1) then 1%nat else 0%nat in
      Some (sign ++ ds, (2 + length sign + length ds + q)%nat)
    end
  | None => None
  end.

(** [uni_repl] *)
Definition uni_repl (g1 : pystr) : result pystr :=
  code ← py_int g1;
  let code := if code <? 0 then 65536 + code else code in
  py_chr code.

(** [\\'[0-9a-fA-F]{2}] *)
Definition pat_hex (prev : option Z) (s : pystr) : option (unit * nat) :=
  match strip_prefix [92; 39] s with
  | Some (a :: b :: _) =>
    if ascii_hex a && ascii_hex b then Some (tt, 4%nat) else None
  | _ => None
  end.

(** [\\[a-zA-Z]+\d* ?] *)
Definition pat_ctrl (prev : option Z) (s : pystr) : option (unit * nat) :=
  match strip_prefix [92] s with
  | Some r =>
    match takewhile ascii_letter r with
    | [] => None
    | ls =>
      let r1 := dropwhile ascii_letter r in
      let ds := takewhile isdecimal r1 in
      let sp := if startswith [32] (dropwhile isdecimal r1) then 1%nat else 0%nat in
      Some (tt, (1 + length ls + length ds + sp)%nat)
    end
  | None => None
  end.

(** [[ \t]+] *)
Definition blank (c : Z) : bool := (c =? 32) || (c =? 9).
Definition pat_blanks (prev : option Z) (s : pystr) : option (unit * nat) :=
  match takewhile blank s with
  | [] => None
  | bs => Some (tt, length bs)
  end.

(** [\n\s+] *)
Definition pat_nl_space (prev : option Z) (s : pystr) : option (unit * nat) :=
  match strip_prefix [10] s with
  | Some r =>
    match takewhile isspace r with
    | [] => None
    | ws => Some (tt, S (length ws))
    end
  | None => None
  end.

(** [s.replace(c, "")] for a one-character [c] *)
Definition remove_char (c : Z) (s : pystr) : pystr :=
  filter (fun x => x ≠ c) s.

Definition rtf_to_text (rtf : pystr) : result pystr :=
  s ← re_sub pat_uni uni_repl rtf;
  let s := re_sub_const pat_hex [] s in
  let s := re_sub_const pat_ctrl [] s in
  let s := remove_char 125 (remove_char 123 s) in
  let s := re_sub_const pat_blanks [32] s in
  let s := re_sub_const pat_nl_space [10] s in
  Ok (strip s).

(** [\[\d+\]]: a bracketed number at the head of [s]. *)
Definition bracket_number (s : pystr) : bool :=
  match strip_prefix [91] s with
  | Some r =>
    match takewhile isdecimal r with
    | [] => false
    | _ => startswith [93] (dropwhile isdecimal r)
    end
  | None => false
  end.

(** [$] without [re.M]: the end of the string, or just before a newline
    that ends the string. *)
Definition at_end (s : pystr) : bool :=
  match s with
  | [] => true
  | [c] => c =? 10
  | _ => false
  end.

(** [\n\\\n\[\d+\]|\n\[\d+\]]: a newline, possibly followed by a backslash
    and a newline, and a bracketed number. *)
Definition next_ref (s : pystr) : bool :=
  (startswith [10; 92; 10] s && bracket_number (drop 3 s))
  || (startswith [10] s && bracket_number (drop 1 s)).

(** The lookahead [(?=\n\\\n\[\d+\]|\n\[\d+\]|$)]. *)
Definition ref_boundary (s : pystr) : bool := next_ref s || at_end s.

(** [(.*?)] under [re.S] in front of a lookahead: the shortest prefix
    after which [stop] holds. *)
Fixpoint lazy_until (stop : pystr -> bool) (s : pystr) : option pystr :=
  if stop s then Some []
  else match s with
       | [] => None
       | c :: s' => cons c <$> lazy_until stop s'
       end.

(** [\[(\d+)\](.*?)(?=\n\\\n\[\d+\]|\n\[\d+\]|$)] with [re.S]: the match is
    (group 1, group 2). *)
Definition pat_ref (prev : option Z) (s : pystr) : option ((pystr * pystr) * nat) :=
  match strip_prefix [91] s with
  | Some r =>
    match takewhile isdecimal r with
    | [] => None
    | ds =>
      match strip_prefix [93] (dropwhile isdecimal r) with
      | Some r2 =>
        g2 ← lazy_until ref_boundary r2;
        Some ((ds, g2), (2 + length ds + length g2)%nat)
      | None => None
      end
    end
  | None => None
  end.

Definition split_numbered_refs (text : pystr) : result (list (Z * pystr)) :=
  mapM (fun m : pystr * pystr => n ← py_int m.1; Ok (n, strip m.2))
       (finditer pat_ref text).

(** [DOI_RE = \b(10\.\d{4,9}/[^\s,;]+)] ([re.I] changes nothing: the pattern
    has no cased character).  The run of digits has to end at the slash,
    so it is the whole run and has 4 to 9 digits. *)
Definition doi_char (c : Z) : bool := negb (isspace c || (c =? 44) || (c =? 59)).

Definition pat_doi (prev : option Z) (s : pystr) : option (pystr * nat) :=
  if word_boundary prev s then
    match strip_prefix [49; 48; 46] s with
    | Some r =>
      let ds := takewhile isdecimal r in
      if ((4 <=? length ds) && (length ds <=? 9))%nat then
        match strip_prefix [47] (dropwhile isdecimal r) with
        | Some r2 =>
          match takewhile doi_char r2 with
          | [] => None
          | tl => Some ([49; 48; 46] ++ ds ++ 47 :: tl, (4 + length ds + length tl)%nat)
          end
        | None => None
        end
      else None
    | None => None
    end
  else None.

Definition extract_doi (s : pystr) : option pystr :=
  match re_search pat_doi s with
  | Some g => Some (lower (rstrip_by (fun c => c =? 46) g))
  | None => None
  end.

(** An opening quote [lq], one or more characters other than the closing
    quote [rq], then [rq]: the match is the text between the quotes. *)
Definition pat_quoted (lq rq : Z) (prev : option Z) (s : pystr) : option (pystr * nat) :=
  match s with
  | c :: r =>
    if c =? lq then
      match takewhile (fun x => negb (x =? rq)) r with
      | [] => None
      | body =>
        match dropwhile (fun x => negb (x =? rq)) r with
        | _ :: _ => Some (body, (2 + length body)%nat)
        | [] => None
        end
      end
    else None
  | [] => None
  end.

Definition extract_title (s : pystr) : pystr :=
  match re_search (pat_quoted LDQUOTE RDQUOTE) s with
  | Some g => strip g
  | None =>
    match re_search (pat_quoted DQUOTE DQUOTE) s with
    | Some g => strip g
    | None => strip (take 160 s)
    end
  end.

(** [s.split(sep)[0]] for a non-empty [sep] *)
Fixpoint before_first (sep s : pystr) : pystr :=
  if startswith sep s then []
  else match s with
       | [] => []
       | c :: s' => c :: before_first sep s'
       end.

(** [YEAR_RE = \b(19|20)\d{2}\b]: the match is group 0. *)
Definition pat_year (prev : option Z) (s : pystr) : option (pystr * nat) :=
  if word_boundary prev s then
    match s with
    | a :: b :: c :: d :: r =>
      if (((a =? 49) && (b =? 57)) || ((a =? 50) && (b =? 48)))
         && isdecimal c && isdecimal d && word_boundary (Some d) r
      then Some ([a; b; c; d], 4%nat)
      else None
    | _ => None
    end
  else None.

Definition extract_pub_year (s : pystr) : result (option Z) :=
  let cut := before_first (py "Accessed:") s in
  years ← mapM py_int (finditer pat_year cut);
  Ok (last years).

(** ** Selection parsing *)

(** [s.split(sep)] for a one-character [sep] *)
Fixpoint split_on (sep : Z) (s : pystr) : list pystr :=
  match s with
  | [] => [[]]
  | c :: s' =>
    if c =? sep then [] :: split_on sep s'
    else match split_on sep s' with
         | p :: ps => (c :: p) :: ps
         | [] => [[c]]
         end
  end.

(** [sorted(xs)] of a set of integers *)
Definition sorted (xs : gset Z) : list Z := merge_sort Z.le (elements xs).

(** One comma-separated piece of the selection, already stripped. *)
Definition select_part (available chosen : gset Z) (p : pystr) : result (gset Z) :=
  if bool_decide (45 ∈ p) then
    let a := takewhile (fun c => negb (c =? 45)) p in
    let b := drop 1 (dropwhile (fun c => negb (c =? 45)) p) in
    a_i ← py_int a;
    b_i ← py_int b;
    let lo := Z.min a_i b_i in
    let hi := Z.max a_i b_i in
    Ok (fold_left (fun ch x => if bool_decide (x ∈ available) then {[x]} ∪ ch else ch)
                  (seqZ lo (hi + 1 - lo)) chosen)
  else
    x ← py_int p;
    Ok (if bool_decide (x ∈ available) then {[x]} ∪ chosen else chosen).

Fixpoint select_parts (available chosen : gset Z) (parts : list pystr) : result (gset Z) :=
  match parts with
  | [] => Ok chosen
  | p :: ps => ch ← select_part available chosen p; select_parts available ch ps
  end.

Definition parse_selection (selection : pystr) (available_ref_nos : gset Z) : result (list Z) :=
  let selection := lower (strip selection) in
  if bool_decide (selection = py "all") then Ok (sorted available_ref_nos)
  else
    let parts := filter (fun p => p ≠ []) (strip <$> split_on 44 selection) in
    chosen ← select_parts available_ref_nos ∅ parts;
    if bool_decide (chosen = ∅) then Raise SelectionEmpty
    else Ok (sorted chosen).

End Text.

(** ** OpenAlex helpers *)

Record OAWork := {
  w_id : pystr;
  w_title : pystr;
  w_year : option Z;
  w_doi : pystr;
  w_referenced_works : list pystr;
}.

(** A work object of a response; [None] is a key that is missing or null. *)
Record WorkJson := {
  j_id : option pystr;
  j_display_name : option pystr;
  j_publication_year : option Z;
  j_doi : option pystr;
  j_referenced_works : option (list pystr);
}.

(** The metadata service as the pipeline sees it through [oa_get_json]
    when the call returns (its delay and retries are below this
    interface).  [None] is no response or an empty object; a search
    answers with its [results]. *)
Class OpenAlex := {
  oa_work_by_doi : pystr -> option WorkJson;
  oa_search_by_title_year : pystr -> option Z -> option (list WorkJson);
}.

(** [x] is true in a condition *)
Definition truthy_int (x : option Z) : bool :=
  match x with Some n => negb (n =? 0) | None => false end.
Definition truthy_str (x : pystr) : bool :=
  match x with [] => false | _ => true end.

Section Pipeline.
Context {U : UnicodeDB} {service : OpenAlex}.

(** a literal pattern *)
Definition pat_literal (p : pystr) (prev : option Z) (s : pystr) : option (unit * nat) :=
  if startswith p s then Some (tt, length p) else None.

(** An [id] that is null makes the work unresolved exactly as an empty
    one does, so both are the empty string here. *)
Definition normalize_oa (w : WorkJson) : OAWork :=
  {| w_id := default [] (j_id w);
     w_title := default [] (j_display_name w);
     w_year := j_publication_year w;
     w_doi := match j_doi w with
              | Some d => if truthy_str d
                          then lower (re_sub_const (pat_literal (py "https://doi.org/")) [] d)
                          else []
              | None => []
              end;
     w_referenced_works := default [] (j_referenced_works w) |}.

(** ** The internal-only citation network *)

Record Row := {
  ref_no : Z;
  rtf_order : Z;
  raw : pystr;
  doi : option pystr;
  title : pystr;
  pub_year_guess : option Z;
}.

Record NodeAttrs := {
  n_ref_no : Z;
  n_rtf_order : Z;
  n_pub_year : option Z;      (* [None] is the empty string *)
  n_doi : pystr;
  n_title : pystr;
}.

(** [nx.DiGraph]: the nodes with their attributes ([None]: a node that
    [add_edge] created, without attributes) and the edges. *)
Record DiGraph := {
  g_nodes : odict pystr (option NodeAttrs);
  g_edges : list (pystr * pystr);
}.

Definition empty_graph : DiGraph := {| g_nodes := []; g_edges := [] |}.

Definition add_node (nid : pystr) (a : NodeAttrs) (G : DiGraph) : DiGraph :=
  {| g_nodes := dict_set nid (Some a) (g_nodes G); g_edges := g_edges G |}.

Definition touch_node (nid : pystr) (nodes : odict pystr (option NodeAttrs)) :=
  match dict_get nid nodes with
  | Some _ => nodes
  | None => dict_set nid None nodes
  end.

Definition add_edge (u v : pystr) (G : DiGraph) : DiGraph :=
  {| g_nodes := touch_node v (touch_node u (g_nodes G));
     g_edges := if bool_decide ((u, v) ∈ g_edges G) then g_edges G
                else g_edges G ++ [(u, v)] |}.

(** Extract metadata for one chosen reference. *)
Definition make_row (ref_map : odict Z pystr) (n : Z) : result Row :=
  raw ← dict_item n ref_map;
  year ← extract_pub_year raw;
  Ok {| ref_no := n; rtf_order := n; raw := raw; doi := extract_doi raw;
        title := extract_title raw; pub_year_guess := year |}.

(** What a round of the loop that resolves the rows finds for a row,
    from the answers of the service. *)
Definition resolve_row (r : Row) : option OAWork :=
  let w := match doi r with
           | Some d => if truthy_str d then normalize_oa <$> oa_work_by_doi d else None
           | None => None
           end in
  let w := match w with
           | Some w => Some w
           | None =>
             match oa_search_by_title_year (title r) (pub_year_guess r) with
             | Some (first :: _) => Some (normalize_oa first)
             | _ => None
             end
           end in
  match w with
  | Some w => if truthy_str (w_id w) then Some w else None
  | None => None
  end.

(** What the loop finds: [resolved] and [unresolved]. *)
Definition resolve_all (rows : list Row) : odict Z OAWork * list Z :=
  fold_left (fun st r =>
               match resolve_row r with
               | Some w => (dict_set (ref_no r) w st.1, st.2)
               | None => (st.1, st.2 ++ [ref_no r])
               end) rows ([], []).

(** [f"UNRESOLVED_REF_{ref_no}"] *)
Definition unresolved_id (n : Z) : pystr := py "UNRESOLVED_REF_" ++ py (pretty n).

Definition node_ids (rows : list Row) (resolved : odict Z OAWork) : odict Z pystr :=
  fold_left (fun d r =>
               dict_set (ref_no r)
                        (match dict_get (ref_no r) resolved with
                         | Some w => w_id w
                         | None => unresolved_id (ref_no r)
                         end) d) rows [].

Definition reverse_ids (node_id_by_ref : odict Z pystr) : odict pystr Z :=
  dict_of ((fun kv => (kv.2, kv.1)) <$> node_id_by_ref).

Definition node_attrs (r : Row) (w : option OAWork) : NodeAttrs :=
  let pub_year := match w with
                  | Some w => if truthy_int (w_year w) then w_year w else pub_year_guess r
                  | None => pub_year_guess r
                  end in
  let title := match w with
               | Some w => if truthy_str (w_title w) then w_title w else title r
               | None => title r
               end in
  let doi := match w with
             | Some w => if truthy_str (w_doi w) then w_doi w else default [] (doi r)
             | None => default [] (doi r)
             end in
  {| n_ref_no := ref_no r; n_rtf_order := rtf_order r;
     n_pub_year := if truthy_int pub_year then pub_year else None;
     n_doi := doi; n_title := title |}.

Definition add_nodes (rows : list Row) (resolved : odict Z OAWork)
    (node_id_by_ref : odict Z pystr) (G : DiGraph) : result DiGraph :=
  foldM (fun G r =>
           nid ← dict_item (ref_no r) node_id_by_ref;
           Ok (add_node nid (node_attrs r (dict_get (ref_no r) resolved)) G))
        G rows.

(** Add edges: A -> B if A references B and both are in the chosen set.
    The state is the graph and [edges_rows]. *)
Definition add_edges (resolved : odict Z OAWork) (node_id_by_ref : odict Z pystr)
    (ref_by_node_id : odict pystr Z) (allowed_node_ids : gset pystr)
    (G : DiGraph) : result (DiGraph * list (Z * Z)) :=
  foldM (fun st item =>
           src ← dict_item item.1 node_id_by_ref;
           foldM (fun st tgt =>
                    if bool_decide (tgt ∈ allowed_node_ids) then
                      citing ← dict_item src ref_by_node_id;
                      cited ← dict_item tgt ref_by_node_id;
                      Ok (add_edge src tgt st.1, st.2 ++ [(citing, cited)])
                    else Ok st)
                 st (w_referenced_works item.2))
        (G, []) resolved.

(** Time-order check. *)
Definition years_by_ref (rows : list Row) (resolved : odict Z OAWork) : odict Z (option Z) :=
  fold_left (fun d item =>
               if truthy_int (w_year item.2) then dict_set item.1 (w_year item.2) d else d)
            resolved
            (dict_of ((fun r => (ref_no r, pub_year_guess r)) <$> rows)).

Definition time_order_violations (edges_rows : list (Z * Z))
    (year_by_ref : odict Z (option Z)) : list (Z * Z * Z * Z) :=
  fold_left (fun violations e =>
               let '(a, b) := e in
               match mjoin (dict_get a year_by_ref), mjoin (dict_get b year_by_ref) with
               | Some ya, Some yb =>
                 if negb (ya =? 0) && negb (yb =? 0) && (ya <? yb)
                 then violations ++ [(a, b, ya, yb)] else violations
               | _, _ => violations
               end) edges_rows [].

(** What a run that ends normally has built and reported. *)
Record Output := {
  out_refs : list (Z * pystr);
  out_chosen : list Z;
  out_rows : list Row;
  out_resolved : odict Z OAWork;
  out_unresolved : list Z;
  out_node_id_by_ref : odict Z pystr;
  out_graph : DiGraph;
  out_edges_rows : list (Z * Z);
  out_year_by_ref : odict Z (option Z);
  out_violations : list (Z * Z * Z * Z);
  (** the counts printed: RTF refs found, chosen, resolved, nodes, edges *)
  n_found : nat;
  n_chosen : nat;
  n_resolved : nat;
  n_nodes : nat;
  n_edges : nat;
}.

(** The graph stage of [main], from the rows and the resolved works. *)
Definition build_graph (rows : list Row) (resolved : odict Z OAWork)
    : result (odict Z pystr * DiGraph * list (Z * Z)) :=
  let node_id_by_ref := node_ids rows resolved in
  let ref_by_node_id := reverse_ids node_id_by_ref in
  let allowed_node_ids : gset pystr := list_to_set (ref_by_node_id.*1) in
  G ← add_nodes rows resolved node_id_by_ref empty_graph;
  ge ← add_edges resolved node_id_by_ref ref_by_node_id allowed_node_ids G;
  Ok (node_id_by_ref, ge.1, ge.2).

End Pipeline.

(** ** The node table

    The rows of [nodes_df], one for each node of the graph, and their
    order in the file of nodes. *)

(** A row of the table: the node and the attributes that [d.get] finds. *)
Abbreviation node_row := (pystr * option NodeAttrs)%type.

(** [safe_int] of a [pub_year]: [None] is the empty string, or no
    attribute at all, and [int] fails on both. *)
Definition safe_int (pub_year : option Z) : Z :=
  match pub_year with
  | Some y => y
  | None => 999999
  end.

(** The columns [pub_year_sort] and [rtf_order] of a row; a node without
    attributes has no [rtf_order]. *)
Definition sort_key (row : node_row) : Z * option Z :=
  (safe_int (row.2 ≫= n_pub_year), n_rtf_order <$> row.2).

(** The order of [sort_values] on the two columns: by the first, then
    by the second, a missing value after every number. *)
Definition key_le (a b : Z * option Z) : bool :=
  (a.1 <? b.1)
  || ((a.1 =? b.1)
      && match a.2, b.2 with
         | Some x, Some y => x <=? y
         | None, Some _ => false
         | _, None => true
         end).

(** [sort_values] on two columns keeps the order of rows that compare
    equal: a row goes behind the rows that are not after it. *)
Fixpoint insert_row (x : node_row) (l : list node_row) : list node_row :=
  match l with
  | [] => [x]
  | y :: l' =>
    if key_le (sort_key y) (sort_key x) then y :: insert_row x l'
    else x :: y :: l'
  end.

Definition sort_rows (l : list node_row) : list node_row :=
  fold_left (fun acc x => insert_row x acc) l [].

(** The rows written to the file of nodes.  A table without rows has no
    column [pub_year] to sort by. *)
Definition nodes_csv (G : DiGraph) : result (list node_row) :=
  match g_nodes G with
  | [] => Raise KeyError
  | rows => Ok (sort_rows rows)
  end.

(** ** The host of a run

    What a run asks of its host beyond the network.  [time.sleep] is
    given the wait of [--sleep] before every request: it returns, or it
    raises for a wait that is negative, not a number or too long, the
    same way every time.  A writer returns, or raises an exception of its
    own or of the file system. *)
Class Host := {
  sleep_accepted : bool;
  write_graphml : DiGraph -> bool;
  nodes_to_csv : list node_row -> bool;
  edges_to_csv : list (Z * Z) -> bool;
}.

Section Run.
Context {U : UnicodeDB} {service : OpenAlex} {host : Host}.

(** One call of the client.  [oa_get_json] gives [args.sleep] to
    [time.sleep] before its first request and outside its [try]: the call
    raises when the wait is refused, and otherwise returns the answer of
    the service. *)
Definition client_call {A : Type} (answer : A) : result A :=
  if sleep_accepted then Ok answer else Raise SleepRefused.

(** One round of the loop that resolves the rows. *)
Definition resolve_round (r : Row) : result (option OAWork) :=
  w ← match doi r return result (option OAWork) with
      | Some d =>
        if truthy_str d
        then data ← client_call (oa_work_by_doi d);
             Ok (normalize_oa <$> (data : option WorkJson))
        else Ok None
      | None => Ok None
      end;
  w ← match w return result (option OAWork) with
      | Some w => Ok (Some w)
      | None =>
        sr ← client_call (oa_search_by_title_year (title r) (pub_year_guess r));
        Ok (match sr with
            | Some (first :: _) => Some (normalize_oa first)
            | _ => None
            end)
      end;
  Ok (match w with
      | Some w => if truthy_str (w_id w) then Some w else None
      | None => None
      end).

(** The loop: [resolved] and [unresolved]. *)
Definition resolve_loop (rows : list Row) : result (odict Z OAWork * list Z) :=
  foldM (fun st r =>
           w ← resolve_round r;
           Ok (match w with
               | Some w => (dict_set (ref_no r) w st.1, st.2)
               | None => (st.1, st.2 ++ [ref_no r])
               end)) ([], []) rows.

(** The export stage: the graph, the sorted table of nodes and
    [edges_rows] are written, in this order. *)
Definition export (G : DiGraph) (edges_rows : list (Z * Z)) : result (list node_row) :=
  if write_graphml G then
    table ← nodes_csv G;
    if nodes_to_csv table then
      if edges_to_csv edges_rows then Ok table else Raise WriteFailed
    else Raise WriteFailed
  else Raise WriteFailed.

(** [main], from the text of the RTF file and [--select]. *)
Definition main (rtf select : pystr) : result Output :=
  txt ← rtf_to_text rtf;
  refs ← split_numbered_refs txt;
  if bool_decide (refs = []) then Raise NoReferences
  else
    let ref_map := dict_of refs in
    let available : gset Z := list_to_set (ref_map.*1) in
    chosen_ref_nos ← parse_selection select available;
    rows ← mapM (make_row ref_map) chosen_ref_nos;
    found ← resolve_loop rows;
    let '(resolved, unresolved) := found in
    built ← build_graph rows resolved;
    let '(node_id_by_ref, G, edges_rows) := built in
    _ ← export G edges_rows;
    let year_by_ref := years_by_ref rows resolved in
    let violations := time_order_violations edges_rows year_by_ref in
    Ok {| out_refs := refs; out_chosen := chosen_ref_nos; out_rows := rows;
          out_resolved := resolved; out_unresolved := unresolved;
          out_node_id_by_ref := node_id_by_ref; out_graph := G;
          out_edges_rows := edges_rows; out_year_by_ref := year_by_ref;
          out_violations := violations;
          n_found := length refs; n_chosen := length chosen_ref_nos;
          n_resolved := length resolved;
          n_nodes := length (g_nodes G); n_edges := length (g_edges G) |}.

End Run.

(** A host that accepts the wait and writes every file. *)
Definition sample_host : Host := {|
  sleep_accepted := true;
  write_graphml := fun _ => true;
  nodes_to_csv := fun _ => true;
  edges_to_csv := fun _ => true |}.

(** * Notions of the specification *)

(** The number a run of decimal digits denotes. *)
Definition digits_value {U : UnicodeDB} (acc : Z) (ds : pystr) : Z :=
  fold_left (fun a c => 10 * a + default 0 (todecimal c)) ds acc.


(** The character before position [i] of a text that follows [prev]. *)
Definition prev_at (prev : option Z) (s : pystr) (i : nat) : option Z :=
  match i with
  | O => prev
  | S j => s !! j
  end.

(** A quoted span at position [i] of [s]: the opening quote [lq], the
    non-empty text [body] free of the closing quote [rq], then [rq]. *)
Definition quoted_at (lq rq : Z) (s : pystr) (i : nat) (body : pystr) : Prop :=
  body <> [] /\ (rq ∉ body) /\ exists post, drop i s = lq :: body ++ rq :: post.

Definition first_quoted (lq rq : Z) (s : pystr) (body : pystr) : Prop :=
  exists i, quoted_at lq rq s i body
    /\ forall j b, (j < i)%nat -> ~ quoted_at lq rq s j b.

Definition no_quoted (lq rq : Z) (s : pystr) : Prop :=
  forall i b, ~ quoted_at lq rq s i b.

(** The title as the specification words it: the first quoted span of the
    text, a span being delimited by curly or by straight quotes; without
    one, the first 160 characters, trimmed. *)
Definition pat_any_quoted (prev : option Z) (s : pystr) : option (pystr * nat) :=
  match pat_quoted LDQUOTE RDQUOTE prev s with
  | Some m => Some m
  | None => pat_quoted DQUOTE DQUOTE prev s
  end.

Definition spec_extract_title (s : pystr) : pystr :=
  match re_search pat_any_quoted s with
  | Some g => strip g
  | None => strip (take 160 s)
  end.

(** A reference whose title in straight quotes precedes a phrase in
    curly quotes. *)
Definition title_sample : pystr :=
  [DQUOTE] ++ py "A" ++ [DQUOTE] ++ py " and " ++ [LDQUOTE] ++ py "B" ++ [RDQUOTE].

(** The matches of a pattern at every position of a text, left to right. *)
Fixpoint matches_from {M : Type} (pat : option Z -> pystr -> option (M * nat))
    (prev : option Z) (s : pystr) : list M :=
  match s with
  | [] => []
  | c :: s' =>
    match pat prev s with
    | Some (m, _) => m :: matches_from pat (Some c) s'
    | None => matches_from pat (Some c) s'
    end
  end.

(** No match of the pattern starts inside another match. *)
Definition no_overlap {M : Type} (pat : option Z -> pystr -> option (M * nat)) : Prop :=
  forall prev s m n, pat prev s = Some (m, n) ->
    forall k, (0 < k < n)%nat -> pat (prev_at prev s k) (drop k s) = None.

Section YearNotions.
Context {U : UnicodeDB}.

(** No character, or a character that is not a word character. *)
Definition not_word (c : option Z) : Prop :=
  match c with
  | Some c => isword c = false
  | None => True
  end.

(** A year token at position [i] of [cut], of value [y]: the digits 19 or
    20 and two more decimal digits, with no word character before or
    after. *)
Definition year_token_at (cut : pystr) (i : nat) (y : Z) : Prop :=
  exists a b c d dc dd rest,
    drop i cut = a :: b :: c :: d :: rest
    /\ ((a = 49 /\ b = 57) \/ (a = 50 /\ b = 48))
    /\ todecimal c = Some dc /\ todecimal d = Some dd
    /\ y = 1000 * (a - 48) + 100 * (b - 48) + 10 * dc + dd
    /\ not_word (prev_at None cut i) /\ not_word (head rest).

End YearNotions.

(** A selection as the grammar has it: a list of single numbers and of
    dashed ranges. *)
Inductive sel_token :=
  | One (n : N)
  | Range (a b : N).

Definition render_token (t : sel_token) : pystr :=
  match t with
  | One n => py (pretty n)
  | Range a b => py (pretty a) ++ [45] ++ py (pretty b)
  end.

(** [",".join(ps)] *)
Fixpoint join_commas (ps : list pystr) : pystr :=
  match ps with
  | [] => []
  | [p] => p
  | p :: ps' => p ++ 44 :: join_commas ps'
  end.

Definition render_selection (toks : list sel_token) : pystr :=
  join_commas (render_token <$> toks).

(** The numbers a token names. *)
Definition covers (t : sel_token) (x : Z) : Prop :=
  match t with
  | One n => x = Z.of_N n
  | Range a b => Z.min (Z.of_N a) (Z.of_N b) <= x <= Z.max (Z.of_N a) (Z.of_N b)
  end.

(** The characters of a rendered selection. *)
Definition sel_char (c : Z) : bool := ascii_digit c || (c =? 45) || (c =? 44).

(** The bounds of a token. *)
Definition token_bounds (t : sel_token) : Z * Z :=
  match t with
  | One n => (Z.of_N n, Z.of_N n)
  | Range a b => (Z.min (Z.of_N a) (Z.of_N b), Z.max (Z.of_N a) (Z.of_N b))
  end.

Section SelectionNotions.
Context {U : UnicodeDB}.

(** The non-blank comma-separated pieces of a selection. *)
Definition selection_pieces (selection : pystr) : list pystr :=
  filter (fun p => p <> []) (strip <$> split_on 44 (lower (strip selection))).

(** The bounds a piece denotes: a number alone, or the two numbers around
    its first dash in either order; an exception when it is malformed. *)
Definition piece_bounds (p : pystr) : result (Z * Z) :=
  if bool_decide (45 ∈ p) then
    a ← py_int (takewhile (fun c => negb (c =? 45)) p);
    b ← py_int (drop 1 (dropwhile (fun c => negb (c =? 45)) p));
    Ok (Z.min a b, Z.max a b)
  else
    x ← py_int p; Ok (x, x).

End SelectionNotions.

(** [x] lies within one of the bounds. *)
Definition named (bounds : list (Z * Z)) (x : Z) : Prop :=
  Exists (fun b => b.1 <= x <= b.2) bounds.

(** ** A sample run

    A document of four blocks, two of them numbered 1, and a service that
    knows two of the three works; the first lists, among its references,
    a string that is the placeholder of the third. *)

Definition sample_work (i : string) (y : Z) (refs : list string) : WorkJson :=
  {| j_id := Some (py i); j_display_name := None; j_publication_year := Some y;
     j_doi := None; j_referenced_works := Some (py <$> refs) |}.

Definition sample_service : OpenAlex := {|
  oa_work_by_doi := fun d =>
    if bool_decide (d = py "10.1000/a")
    then Some (sample_work "W1" 2010 ["W2"; "UNRESOLVED_REF_3"; "W99"])
    else if bool_decide (d = py "10.1000/b")
    then Some (sample_work "W2" 2015 ["W1"])
    else None;
  oa_search_by_title_year := fun _ _ => None |}.

Definition sample_rtf : pystr :=
  py "{\rtf1 [1] A. Smith, 2009. doi:10.1000/x" ++ [NL]
  ++ py "[2] B. Jones 2015 doi:10.1000/B." ++ [NL]
  ++ py "[3] Nobody" ++ [NL]
  ++ py "[1] A. Smith, 2010. doi:10.1000/a}".

Definition sample_run : result Output :=
  @main ascii_db sample_service sample_host sample_rtf (py "all").

(** The same service without the placeholder among the references. *)
Definition clean_service : OpenAlex := {|
  oa_work_by_doi := fun d =>
    if bool_decide (d = py "10.1000/a")
    then Some (sample_work "W1" 2010 ["W2"; "W99"])
    else if bool_decide (d = py "10.1000/b")
    then Some (sample_work "W2" 2015 ["W1"])
    else None;
  oa_search_by_title_year := fun _ _ => None |}.

Definition clean_run : result Output :=
  @main ascii_db clean_service sample_host sample_rtf (py "all").

(** A service whose first work has, for its identity, the placeholder of
    the third reference. *)
Definition impostor_service : OpenAlex := {|
  oa_work_by_doi := fun d =>
    if bool_decide (d = py "10.1000/a")
    then Some (sample_work "UNRESOLVED_REF_3" 2010 ["W2"])
    else if bool_decide (d = py "10.1000/b")
    then Some (sample_work "W2" 2015 [])
    else None;
  oa_search_by_title_year := fun _ _ => None |}.

Definition impostor_run : result Output :=
  @main ascii_db impostor_service sample_host sample_rtf (py "all").

(** An identity that has the form of a placeholder. *)
Definition is_placeholder (s : pystr) : bool := startswith (py "UNRESOLVED_REF_") s.

(** ** Numbered blocks *)

(** [f] holds at no position within [pre] of the text [pre ++ rest]. *)
Fixpoint free_of (f : pystr -> bool) (pre rest : pystr) : bool :=
  match pre with
  | [] => true
  | _ :: pre' => negb (f (pre ++ rest)) && free_of f pre' rest
  end.

(** A bracketed-number block: the digits in the brackets and the text
    after them. *)
Record ref_block := { blk_digits : pystr; blk_body : pystr }.

(** What separates two blocks: the newline before the next bracket, with
    or without the backslash-newline artifact in front. *)
Definition is_sep (sep : pystr) : bool :=
  bool_decide (sep = [10]) || bool_decide (sep = [10; 92; 10]).

Section BlockNotions.
Context {U : UnicodeDB}.

(** The text in the brackets: one or more decimal digits. *)
Definition number_text (d : pystr) : bool :=
  forallb isdecimal d && negb (bool_decide (d = [])).

(** [numbered_blocks bs text]: the text is the blocks [bs] one after
    another, as the pattern of the segmenter delimits them.  The text
    begins with the bracketed number of the first block, wherever that
    stands in its line; each block is separated from the next, and no
    bracketed number opens a line within the text of a block. *)
Inductive numbered_blocks : list ref_block -> pystr -> Prop :=
  | blocks_last (d body : pystr) :
      number_text d = true ->
      free_of next_ref body [] = true ->
      numbered_blocks [{| blk_digits := d; blk_body := body |}]
                      ([91] ++ d ++ [93] ++ body)
  | blocks_cons (d body sep : pystr) (bs : list ref_block) (rest : pystr) :
      number_text d = true ->
      is_sep sep = true ->
      free_of next_ref body (sep ++ rest) = true ->
      numbered_blocks bs rest ->
      numbered_blocks ({| blk_digits := d; blk_body := body |} :: bs)
                      ([91] ++ d ++ [93] ++ body ++ sep ++ rest).

(** What the pattern finds in a text made of blocks. *)
Definition group_of (b : ref_block) (g : pystr * pystr) : Prop :=
  g.1 = blk_digits b /\ number_text (blk_digits b) = true
  /\ strip g.2 = strip (blk_body b).

(** The pair the segmenter is to return for a block. *)
Definition block_pair (b : ref_block) : Z * pystr :=
  (digits_value 0 (blk_digits b), strip (blk_body b)).

End BlockNotions.

(** A text of three blocks after a preamble, the third one behind the
    backslash artifact and closed by a newline. *)
Definition sample_blocks : list ref_block :=
  [ {| blk_digits := py "1"; blk_body := py " A. Smith, 2009." |};
    {| blk_digits := py "2"; blk_body := py " B. Jones" |};
    {| blk_digits := py "03"; blk_body := py " C. Lee" ++ [NL] |} ].

Definition sample_text : pystr :=
  [91] ++ py "1" ++ [93] ++ py " A. Smith, 2009." ++ [NL]
  ++ ([91] ++ py "2" ++ [93] ++ py " B. Jones" ++ [NL; 92; NL]
      ++ ([91] ++ py "03" ++ [93] ++ (py " C. Lee" ++ [NL]))).

(** ** Bracketed numbers at line starts

    The block as the specification words it: a bracketed number at the
    start of the text or right after a newline. *)

Section LineNotions.
Context {U : UnicodeDB}.

(** A bracketed number stands at the head of [s], and [s] opens a line:
    it follows the newline [prev] or nothing. *)
Definition opens_line (prev : option Z) (s : pystr) : bool :=
  bracket_number s && match prev with Some c => c =? 10 | None => true end.

(** The number of bracketed numbers that open a line, in a text that
    follows [prev]. *)
Fixpoint line_blocks (prev : option Z) (s : pystr) : nat :=
  match s with
  | [] => 0%nat
  | c :: s' => ((if opens_line prev s then 1 else 0) + line_blocks (Some c) s')%nat
  end.

End LineNotions.

(** A text whose first bracketed number stands within a line, before two
    that open a line. *)
Definition mid_line_text : pystr :=
  py "see [5] for details" ++ [NL] ++ py "[1] A" ++ [NL] ++ py "[2] B".

(** What stops a run: the end of the text or a character outside the class. *)
Definition stops (p : Z -> bool) (rest : pystr) : Prop :=
  match rest with
  | [] => True
  | c :: _ => p c = false
  end.

(** ** The run

    Names for what the stages of [main] compute. *)

Section RunNotions.
Context {U : UnicodeDB} {service : OpenAlex}.

(** What a row is made of. *)
Definition row_of (ref_map : odict Z pystr) (r : Row) : Prop :=
  dict_get (ref_no r) ref_map = Some (raw r)
  /\ rtf_order r = ref_no r
  /\ doi r = extract_doi (raw r)
  /\ title r = extract_title (raw r)
  /\ extract_pub_year (raw r) = Ok (pub_year_guess r).

(** The resolved works, in the order of the rows. *)
Definition resolved_of (rows : list Row) : odict Z OAWork :=
  omap (fun r => (fun w => (ref_no r, w)) <$> resolve_row r) rows.

Definition unresolved_of (rows : list Row) : list Z :=
  ref_no <$> filter (fun r => resolve_row r = None) rows.

End RunNotions.

(** The node identity of a row: the identity of its resolved work, or the
    placeholder of its number. *)
Definition node_id_of (resolved : odict Z OAWork) (r : Row) : pystr :=
  match dict_get (ref_no r) resolved with
  | Some w => w_id w
  | None => unresolved_id (ref_no r)
  end.

(** What the graph stage establishes. *)
Definition graph_facts (rows : list Row) (resolved : odict Z OAWork)
    (G : DiGraph) (edges_rows : list (Z * Z)) : Prop :=
  let ref_by_node_id := reverse_ids (node_ids rows resolved) in
  (forall nid, nid ∈ (g_nodes G).*1 <-> nid ∈ node_id_of resolved <$> rows)
  /\ (forall nid a, (nid, a) ∈ g_nodes G ->
        exists r, r ∈ rows /\ nid = node_id_of resolved r
          /\ a = Some (node_attrs r (dict_get (ref_no r) resolved)))
  /\ (forall a b, (a, b) ∈ g_edges G <->
        exists n w, (n, w) ∈ resolved /\ a = w_id w
          /\ b ∈ w_referenced_works w /\ b ∈ node_id_of resolved <$> rows)
  /\ (forall x y, (x, y) ∈ edges_rows <->
        exists a b, (a, b) ∈ g_edges G
          /\ dict_get a ref_by_node_id = Some x /\ dict_get b ref_by_node_id = Some y).

(** The year on record for a reference number. *)
Definition year_of (year_by_ref : odict Z (option Z)) (n : Z) : option Z :=
  mjoin (dict_get n year_by_ref).

(** The best-known year of a row. *)
Definition best_year (resolved : odict Z OAWork) (r : Row) : option Z :=
  match dict_get (ref_no r) resolved with
  | Some w => if truthy_int (w_year w) then w_year w else pub_year_guess r
  | None => pub_year_guess r
  end.

(** * Further notions: the rest of the code *)

(** ** Text that the conversion leaves as it is *)

(** No two blanks in a row, and no tab. *)
Fixpoint single_spaced (s : pystr) : bool :=
  match s with
  | [] => true
  | c :: s' =>
    negb (c =? 9)
    && negb ((c =? 32) && match s' with d :: _ => blank d | [] => false end)
    && single_spaced s'
  end.

(** No newline is followed by whitespace. *)
Fixpoint lines_flush (s : pystr) : bool :=
  match s with
  | [] => true
  | c :: s' =>
    negb ((c =? 10) && match s' with d :: _ => isspace d | [] => false end)
    && lines_flush s'
  end.

(** Neither end of the text is whitespace. *)
Definition trimmed (s : pystr) : bool :=
  match s with c :: _ => negb (isspace c) | [] => true end
  && match last s with Some c => negb (isspace c) | None => true end.

(** Text without a backslash or a brace, single-spaced, with flush lines
    and trimmed. *)
Definition plain_text (s : pystr) : bool :=
  forallb (fun c => negb ((c =? 92) || (c =? 123) || (c =? 125))) s
  && single_spaced s && lines_flush s && trimmed s.

(** The text after the three escape substitutions of [rtf_to_text]. *)
Definition unescaped {U : UnicodeDB} (rtf s : pystr) : Prop :=
  exists s0, re_sub pat_uni uni_repl rtf = Ok s0
    /\ s = re_sub_const pat_ctrl [] (re_sub_const pat_hex [] s0).

(** ** DOI tokens *)

Section DoiNotions.
Context {U : UnicodeDB}.

(** A DOI token at the head of [s], after the character [prev]: the text
    [10.], four to nine decimal digits, a slash and one or more
    characters other than whitespace, comma and semicolon, as many as
    there are; no word character stands before it. *)
Definition doi_token (prev : option Z) (s g : pystr) : Prop :=
  exists ds tl rest,
    s = py "10." ++ ds ++ [47] ++ tl ++ rest
    /\ Forall (fun c => isdecimal c = true) ds /\ (4 <= length ds <= 9)%nat
    /\ tl <> [] /\ Forall (fun c => doi_char c = true) tl /\ stops doi_char rest
    /\ not_word prev
    /\ g = py "10." ++ ds ++ [47] ++ tl.

Definition doi_token_at (s : pystr) (i : nat) (g : pystr) : Prop :=
  doi_token (prev_at None s i) (drop i s) g.

End DoiNotions.

(** The prefix under which OpenAlex gives a DOI. *)
Definition doi_url : pystr := py "https://doi.org/".

(** A work of which only the DOI is given. *)
Definition work_with_doi (d : pystr) : WorkJson :=
  {| j_id := None; j_display_name := None; j_publication_year := None;
     j_doi := Some d; j_referenced_works := None |}.

(** A piece that is a range without one of its ends: it starts with a
    dash, or its only dash ends it. *)
Definition open_range (p : pystr) : Prop :=
  head p = Some 45 \/ exists a, p = a ++ [45] /\ 45 ∉ a.

(** ** Rows that share a node *)

(** The rows whose node identity is [nid], in the order of the rows. *)
Definition rows_of_node (resolved : odict Z OAWork) (nid : pystr) (rows : list Row) : list Row :=
  filter (fun r => node_id_of resolved r = nid) rows.

(** A service that gives the same work for two DOIs. *)
Definition twin_service : OpenAlex := {|
  oa_work_by_doi := fun d =>
    if bool_decide (d = py "10.1000/a") || bool_decide (d = py "10.1000/x")
    then Some (sample_work "W1" 2010 ["W2"; "W2"])
    else if bool_decide (d = py "10.1000/b")
    then Some (sample_work "W2" 2015 ["W1"])
    else None;
  oa_search_by_title_year := fun _ _ => None |}.

(** Two entries of the same work under the numbers 1 and 4, and a second
    work. *)
Definition twin_rtf : pystr :=
  py "[1] A. Smith, 2010. doi:10.1000/a" ++ [NL]
  ++ py "[2] B. Jones 2015 doi:10.1000/B." ++ [NL]
  ++ py "[4] Smith, A. (2010) doi:10.1000/x".

Definition twin_run : result Output :=
  @main ascii_db twin_service sample_host twin_rtf (py "all").

(** A service whose answer to a DOI is a work without an identity, and
    whose search would find one. *)
Definition anonymous_service : OpenAlex := {|
  oa_work_by_doi := fun d =>
    Some {| j_id := None; j_display_name := Some (py "A"); j_publication_year := Some 2010;
            j_doi := None; j_referenced_works := None |};
  oa_search_by_title_year := fun _ _ => Some [sample_work "W1" 2010 []] |}.

Definition anonymous_run : result Output :=
  @main ascii_db anonymous_service sample_host sample_rtf (py "1,3").

(** ** Requests to OpenAlex

    [oa_get_json] and its two callers, with what they do to the outside
    written down: the waits and the requests, in order.  The answers
    come from the network, which is a parameter.  The loop of
    [oa_get_json] is written twice: [attempts] follows a call whose wait
    [time.sleep] accepts, and so do the callers; [attempts_exn] is the
    loop for any wait, with the exception that [time.sleep] raises for a
    wait it refuses. *)

Module Http.

(** The value of a query parameter. *)
Inductive param :=
  | PStr (s : pystr)
  | PInt (n : Z).

(** What [requests.get] comes back with: a response, with its status
    code and the object that [r.json()] reads from its body, or a
    [RequestException] raised instead.  The body of a response that is
    not JSON makes [r.json()] raise the JSON error of [requests], which
    is a [RequestException] too: such a response is [RequestFailed]. *)
Inductive reply (J : Type) :=
  | Response (status_code : Z) (json : J)
  | RequestFailed.
Arguments Response {J} status_code json.
Arguments RequestFailed {J}.

(** What a call does, in order.  [T] is the type of [sleep_s], a number
    of seconds that is only handed to [time.sleep]; [backoff] takes the
    values 1.0, 2.0, 4.0, ..., whole numbers that floating point holds
    exactly.  The timeout and the headers of a request are constants. *)
Inductive event (T : Type) :=
  | Sleep (secs : T)
  | Backoff (secs : Z)
  | Get (url : pystr) (params : option (odict pystr param)).
Arguments Sleep {T} secs.
Arguments Backoff {T} secs.
Arguments Get {T} url params.

Definition is_get {T : Type} (e : event T) : bool :=
  match e with Get _ _ => true | _ => false end.

(** The requests made so far. *)
Definition requests {T : Type} (log : list (event T)) : nat :=
  length (filter (fun e => is_get e = true) log).

(** The seconds of backoff waited so far. *)
Definition backoff_total {T : Type} (log : list (event T)) : Z :=
  foldr (fun e acc => match e with Backoff s => s + acc | _ => acc end) 0 log.

(** [status_code in (429, 500, 502, 503, 504)] *)
Definition retry_status (c : Z) : bool :=
  (c =? 429) || (c =? 500) || (c =? 502) || (c =? 503) || (c =? 504).

Section Client.
Context {T J : Type}.
(** The network: the answer to the [n]-th request of the run. *)
Variable net : nat -> pystr -> option (odict pystr param) -> reply J.

(** The loop of [oa_get_json], with [retries] rounds to go, for a wait
    that [time.sleep] accepts. *)
Fixpoint attempts (url : pystr) (params : option (odict pystr param)) (sleep_s : T)
    (retries : nat) (backoff : Z) (log : list (event T)) : option J * list (event T) :=
  match retries with
  | O => (None, log)
  | S k =>
    let log := log ++ [Sleep sleep_s] in
    let r := net (requests log) url params in
    let log := log ++ [Get url params] in
    match r with
    | Response status_code json =>
      if status_code =? 200 then (Some json, log)
      else if retry_status status_code
           then attempts url params sleep_s k (backoff * 2) (log ++ [Backoff backoff])
           else (None, log)
    | RequestFailed =>
      attempts url params sleep_s k (backoff * 2) (log ++ [Backoff backoff])
    end
  end.

(** The reply to the [k]-th request of a call that starts after [log]. *)
Definition reply_at (url : pystr) (params : option (odict pystr param))
    (log : list (event T)) (k : nat) : reply J :=
  net (requests log + k) url params.

Definition oa_get_json (url : pystr) (params : option (odict pystr param)) (sleep_s : T)
    (retries : nat) (log : list (event T)) : option J * list (event T) :=
  attempts url params sleep_s retries 1 log.

Definition OPENALEX_BASE : pystr := py "https://api.openalex.org".

Definition SELECT : param := PStr (py "id,display_name,publication_year,doi,referenced_works").

Definition oa_work_by_doi (doi : pystr) (sleep_s : T) (log : list (event T))
    : option J * list (event T) :=
  let url := OPENALEX_BASE ++ py "/works/https://doi.org/" ++ doi in
  oa_get_json url (Some [(py "select", SELECT)]) sleep_s 4 log.

Definition oa_search_by_title_year (title : pystr) (year : option Z) (sleep_s : T)
    (log : list (event T)) : option J * list (event T) :=
  let url := OPENALEX_BASE ++ py "/works" in
  let params := [(py "search", PStr title); (py "per-page", PInt 5); (py "select", SELECT)] in
  let filters :=
    match year with
    | Some y =>
      if negb (y =? 0)
      then [py "from_publication_date:" ++ py (pretty y) ++ py "-01-01";
            py "to_publication_date:" ++ py (pretty y) ++ py "-12-31"]
      else []
    | None => []
    end in
  let params :=
    match filters with
    | [] => params
    | _ => dict_set (py "filter") (PStr (join_commas filters)) params
    end in
  oa_get_json url (Some params) sleep_s 4 log.

End Client.

Section Call.
Context {T J : Type}.
Variable net : nat -> pystr -> option (odict pystr param) -> reply J.
(** [time.sleep(secs)] returns for a wait that it accepts; it raises for
    one that is negative, not a number or too long. *)
Variable time_sleep : T -> bool.

(** The loop of [oa_get_json] for any wait.  [time.sleep(sleep_s)] stands
    outside the [try]: when it raises, the call ends there.  The waits of
    the backoff, 1.0, 2.0, ..., are accepted. *)
Fixpoint attempts_exn (url : pystr) (params : option (odict pystr param)) (sleep_s : T)
    (retries : nat) (backoff : Z) (log : list (event T))
    : result (option J) * list (event T) :=
  match retries with
  | O => (Ok None, log)
  | S k =>
    if time_sleep sleep_s then
      let log := log ++ [Sleep sleep_s] in
      let r := net (requests log) url params in
      let log := log ++ [Get url params] in
      match r with
      | Response status_code json =>
        if status_code =? 200 then (Ok (Some json), log)
        else if retry_status status_code
             then attempts_exn url params sleep_s k (backoff * 2) (log ++ [Backoff backoff])
             else (Ok None, log)
      | RequestFailed =>
        attempts_exn url params sleep_s k (backoff * 2) (log ++ [Backoff backoff])
      end
    else (Raise SleepRefused, log)
  end.

Definition oa_get_json_exn (url : pystr) (params : option (odict pystr param))
    (sleep_s : T) (retries : nat) (log : list (event T))
    : result (option J) * list (event T) :=
  attempts_exn url params sleep_s retries 1 log.

End Call.

(** A JSON object as the program reads it: as a work, and for its
    [results]. *)
Record JsonObject := {
  o_work : WorkJson;
  o_results : option (list WorkJson);
}.

(** What [r.json()] gives; [None] is the empty object, which is false
    in a condition. *)
Definition Json : Type := option JsonObject.

Section Resolve.
Context {U : UnicodeDB} {T : Type}.
Variable net : nat -> pystr -> option (odict pystr param) -> reply Json.

(** One round of the loop of [main] that resolves the rows. *)
Definition resolve (r : Row) (sleep_s : T) (log : list (event T))
    : option OAWork * list (event T) :=
  let '(w, log) :=
    match doi r with
    | Some d =>
      if truthy_str d then
        let '(data, log) := oa_work_by_doi net d sleep_s log in
        (match data with
         | Some (Some o) => Some (normalize_oa (o_work o))
         | _ => None
         end, log)
      else (None, log)
    | None => (None, log)
    end in
  let '(w, log) :=
    match w with
    | Some w => (Some w, log)
    | None =>
      let '(sr, log) := oa_search_by_title_year net (title r) (pub_year_guess r) sleep_s log in
      (match sr with
       | Some (Some o) =>
         match o_results o with
         | Some (first :: _) => Some (normalize_oa first)
         | _ => None
         end
       | _ => None
       end, log)
    end in
  (match w with
   | Some w => if truthy_str (w_id w) then Some w else None
   | None => None
   end, log).

(** The loop: the resolved works, the unresolved numbers and the log. *)
Definition resolve_rows (rows : list Row) (sleep_s : T) (log : list (event T))
    : odict Z OAWork * list Z * list (event T) :=
  fold_left (fun st r =>
               let '(resolved, unresolved, log) := st in
               let '(w, log) := resolve r sleep_s log in
               match w with
               | Some w => (dict_set (ref_no r) w resolved, unresolved, log)
               | None => (resolved, unresolved ++ [ref_no r], log)
               end) rows ([], [], log).

End Resolve.

(** The rounds of a call that were retried: the wait, the request and
    the backoff of each. *)
Definition retried_rounds {T : Type} (url : pystr) (params : option (odict pystr param))
    (sleep_s : T) (first : nat) (n : nat) : list (event T) :=
  flat_map (fun k => [Sleep sleep_s; Get url params; Backoff (2 ^ Z.of_nat k)])
           (seq first n).

(** A reply after which the call goes on to the next round. *)
Definition retried {J : Type} (r : reply J) : bool :=
  match r with
  | Response status_code _ => negb (status_code =? 200) && retry_status status_code
  | RequestFailed => true
  end.

(** The result of a call that ends with the reply [r]. *)
Definition result_of {J : Type} (r : reply J) : option J :=
  match r with
  | Response status_code json => if status_code =? 200 then Some json else None
  | RequestFailed => None
  end.

End Http.

(** The network answers a request the same way whenever it is made. *)
Definition stationary {J : Type}
    (net : nat -> pystr -> option (odict pystr Http.param) -> Http.reply J) : Prop :=
  forall n m url params, net n url params = net m url params.

(** The service as a run sees it through the two callers of
    [oa_get_json]: an answer that is missing or an empty object is no
    answer. *)
Definition service_of {T : Type}
    (net : nat -> pystr -> option (odict pystr Http.param) -> Http.reply Http.Json)
    (sleep_s : T) : OpenAlex := {|
  oa_work_by_doi := fun d =>
    match (Http.oa_work_by_doi net d sleep_s []).1 with
    | Some (Some o) => Some (Http.o_work o)
    | _ => None
    end;
  oa_search_by_title_year := fun title year =>
    match (Http.oa_search_by_title_year net title year sleep_s []).1 with
    | Some (Some o) => Http.o_results o
    | _ => None
    end |}.

(** A network that is down for the first two requests and then answers
    with the object 7. *)
Definition flaky_net (n : nat) (url : pystr) (params : option (odict pystr Http.param))
    : Http.reply Z :=
  match n with
  | O => Http.RequestFailed
  | S O => Http.Response 503 0
  | _ => Http.Response 200 7
  end.

(** ** The rows of the node table *)

(** The year and the number a row is sorted by, for a row with
    attributes. *)
Definition row_year (row : node_row) : Z := safe_int (row.2 ≫= n_pub_year).
Definition row_number (row : node_row) : option Z := n_ref_no <$> row.2.

(** A row is not after another. *)
Definition rows_le (a b : node_row) : Prop := key_le (sort_key a) (sort_key b) = true.

(** A file with a tab, blanks in a row and an indented line. *)
Definition messy_rtf : pystr :=
  py "{\rtf1  [1]  A." ++ [9] ++ py "Smith," ++ [NL] ++ py "   2009. }".

(** A network that answers every request with the same work. *)
Definition constant_net (n : nat) (url : pystr) (params : option (odict pystr Http.param))
    : Http.reply Http.Json :=
  Http.Response 200 (Some {| Http.o_work := sample_work "W1" 2010 [];
                             Http.o_results := None |}).

Definition sample_row : Row :=
  {| ref_no := 1; rtf_order := 1; raw := py "A. Smith, 2010. doi:10.1000/a";
     doi := Some (py "10.1000/a"); title := py "A. Smith, 2010. doi:10.1000/a";
     pub_year_guess := Some 2010 |}.

(** ** Escapes in the middle of plain text *)

(** The pattern matches at the head of [t]. *)
Definition hits {M : Type} (pat : option Z -> pystr -> option (M * nat)) (t : pystr) : bool :=
  match pat None t with
  | Some _ => true
  | None => false
  end.

(** * Properties *)

(** ** Strings and characters *)

Lemma py_app (s t : string) : py (s +:+ t) = py s ++ py t.
Proof.
  unfold py. induction s as [|a s IH]; simpl; [done|].
  f_equal. apply IH.
Qed.

Lemma py_String (a : ascii) (s : string) :
  py (String a s) = Z.of_N (N_of_ascii a) :: py s.
Proof. done. Qed.

Lemma py_inj : Inj (=) (=) py.
Proof.
  intros s. induction s as [|a s IH]; intros [|b t] H; try done.
  rewrite !py_String in H. injection H as Hab Hst.
  f_equal; [|by apply IH].
  apply N2Z.inj in Hab.
  rewrite <- (ascii_N_embedding a), <- (ascii_N_embedding b). by rewrite Hab.
Qed.

Lemma takewhile_dropwhile (p : Z -> bool) (s : pystr) :
  takewhile p s ++ dropwhile p s = s.
Proof. induction s as [|c s IH]; simpl; [done|]. destruct (p c); simpl; by rewrite ?IH. Qed.

Lemma takewhile_Forall (p : Z -> bool) (s : pystr) : Forall (fun c => p c = true) (takewhile p s).
Proof.
  induction s as [|c s IH]; simpl; [constructor|].
  destruct (p c) eqn:E; by constructor.
Qed.

Lemma dropwhile_stops (p : Z -> bool) (s : pystr) : stops p (dropwhile p s).
Proof. induction s as [|c s IH]; simpl; [done|]. destruct (p c) eqn:E; simpl; done. Qed.

Lemma takewhile_app (p : Z -> bool) (l rest : pystr) :
  Forall (fun c => p c = true) l -> stops p rest -> takewhile p (l ++ rest) = l.
Proof.
  induction 1 as [|c l Hc _ IH]; intros Hr; simpl.
  - destruct rest as [|c r]; simpl in *; [done|]. by rewrite Hr.
  - rewrite Hc. f_equal. by apply IH.
Qed.

Lemma dropwhile_app (p : Z -> bool) (l rest : pystr) :
  Forall (fun c => p c = true) l -> stops p rest -> dropwhile p (l ++ rest) = rest.
Proof.
  induction 1 as [|c l Hc _ IH]; intros Hr; simpl.
  - destruct rest as [|c r]; simpl in *; [done|]. by rewrite Hr.
  - rewrite Hc. by apply IH.
Qed.

Lemma dropwhile_id (p : Z -> bool) (s : pystr) : stops p s -> dropwhile p s = s.
Proof. destruct s as [|c s]; simpl; [done|]. by intros ->. Qed.

Lemma rstrip_by_id (p : Z -> bool) (s : pystr) : stops p (rev s) -> rstrip_by p s = s.
Proof. intros H. unfold rstrip_by. rewrite dropwhile_id by done. apply rev_involutive. Qed.

Lemma rstrip_by_snoc_drop (p : Z -> bool) (s : pystr) (c : Z) :
  p c = true -> rstrip_by p (s ++ [c]) = rstrip_by p s.
Proof. intros H. unfold rstrip_by. rewrite rev_app_distr. simpl. by rewrite H. Qed.

Lemma strip_prefix_app (p r : pystr) : strip_prefix p (p ++ r) = Some r.
Proof. induction p as [|a p IH]; simpl; [done|]. by rewrite Z.eqb_refl. Qed.

Lemma strip_prefix_Some (p s r : pystr) : strip_prefix p s = Some r <-> s = p ++ r.
Proof.
  split; [|intros ->; apply strip_prefix_app].
  revert s. induction p as [|a p IH]; intros s; simpl.
  - by intros [= ->].
  - destruct s as [|b s]; [done|].
    destruct (Z.eqb_spec a b) as [->|]; [|done].
    intros H. f_equal. by apply IH.
Qed.

Lemma strip_prefix_cons_ne (a c : Z) (p s : pystr) :
  c <> a -> strip_prefix (a :: p) (c :: s) = None.
Proof. intros H. simpl. destruct (Z.eqb_spec a c); [congruence|done]. Qed.

Lemma startswith_spec (p s : pystr) : startswith p s = true <-> exists r, s = p ++ r.
Proof.
  revert s. induction p as [|a p IH]; intros s; simpl.
  - split; [eauto|done].
  - destruct s as [|b s].
    + split; [done|]. by intros [r ?].
    + rewrite andb_true_iff, IH, Z.eqb_eq. split.
      * intros [-> [r ->]]. eauto.
      * intros [r [= -> ->]]. eauto.
Qed.

Lemma strip_snoc_nl (s : pystr) : strip (s ++ [10]) = strip s.
Proof.
  unfold strip. induction s as [|c s IH]; simpl; [done|].
  destruct (isspace c) eqn:E; [done|].
  change (c :: s ++ [10]) with ((c :: s) ++ [10]).
  by apply rstrip_by_snoc_drop.
Qed.

Section DecimalFacts.
Context {U : UnicodeDB}.

Lemma todecimal_ascii (c : Z) : ascii_digit c = true -> todecimal c = Some (c - 48).
Proof.
  unfold todecimal, ascii_digit. intros H.
  assert ((c <? 128) = true) as -> by lia. by rewrite H.
Qed.

Lemma todecimal_range (c d : Z) : todecimal c = Some d -> 0 <= d <= 9.
Proof.
  unfold todecimal, ascii_digit.
  destruct (c <? 128); [|apply decimal_hi_range].
  destruct (_ && _) eqn:E; [|done]. intros [= <-]. lia.
Qed.

Lemma isdecimal_ascii (c : Z) : ascii_digit c = true -> isdecimal c = true.
Proof. intros H. unfold isdecimal. by rewrite todecimal_ascii. Qed.

Lemma isdecimal_Some (c : Z) : isdecimal c = true <-> exists d, todecimal c = Some d.
Proof.
  unfold isdecimal. destruct (todecimal c); split; eauto; try done.
  by intros [? ?].
Qed.

(** A decimal digit is a word character and is not whitespace. *)
Lemma isdecimal_isword (c : Z) : isdecimal c = true -> isword c = true.
Proof.
  rewrite isdecimal_Some. intros [d Hd]. revert Hd. unfold todecimal, isword.
  destruct (c <? 128); [|apply decimal_hi_alnum].
  destruct (ascii_digit c); [|done]. intros _. by rewrite orb_true_r.
Qed.

Lemma isdecimal_not_space (c : Z) : isdecimal c = true -> isspace c = false.
Proof.
  rewrite isdecimal_Some. intros [d Hd]. revert Hd. unfold todecimal.
  destruct (c <? 128) eqn:E; [|apply decimal_hi_nospace].
  unfold ascii_digit, isspace. destruct (_ && _) eqn:E2; [|done]. intros _. lia.
Qed.

Lemma isdecimal_not_int_space (c : Z) : isdecimal c = true -> int_space c = false.
Proof.
  intros H. unfold int_space. destruct (c <? 127) eqn:E.
  - apply isdecimal_not_space in H. unfold isspace in H. lia.
  - by apply isdecimal_not_space.
Qed.

(** Outside the digits [0] to [9], an ASCII character is no decimal. *)
Lemma isdecimal_ascii_other (c : Z) : c < 128 -> ascii_digit c = false -> isdecimal c = false.
Proof.
  intros H1 H2. unfold isdecimal, todecimal.
  assert ((c <? 128) = true) as -> by lia. by rewrite H2.
Qed.

Lemma int_digits_decimal (ds : pystr) (acc : Z) (sep : bool) :
  Forall (fun c => isdecimal c = true) ds -> ds <> [] ->
  int_digits acc sep ds = Some (digits_value acc ds).
Proof.
  intros H. revert acc sep. induction H as [|c ds Hc Hds IH]; intros acc sep Hne; [done|].
  cbn [int_digits]. apply isdecimal_Some in Hc as [d Hd]. rewrite Hd.
  destruct ds as [|c' ds'].
  - cbn [int_digits digits_value fold_left]. by rewrite Hd.
  - rewrite IH by done. unfold digits_value. cbn [fold_left]. by rewrite Hd.
Qed.

Lemma digits_value_nonneg (ds : pystr) (acc : Z) : 0 <= acc -> 0 <= digits_value acc ds.
Proof.
  revert acc. induction ds as [|c ds IH]; intros acc H; [done|].
  unfold digits_value. cbn [fold_left]. apply IH.
  destruct (todecimal c) as [d|] eqn:E; simpl; [|lia].
  apply todecimal_range in E. lia.
Qed.

(** [int] of the text of a [\d+] group never fails. *)
Lemma py_int_decimal (ds : pystr) :
  Forall (fun c => isdecimal c = true) ds -> ds <> [] ->
  py_int ds = Ok (digits_value 0 ds).
Proof.
  intros H Hne. unfold py_int.
  assert (Forall (fun c => int_space c = false) ds) as Hsp.
  { eapply Forall_impl; [exact H|]. apply isdecimal_not_int_space. }
  rewrite (dropwhile_id int_space ds).
  2:{ destruct ds; [done|]. by inversion Hsp. }
  rewrite rstrip_by_id.
  2:{ destruct (rev ds) as [|c r] eqn:E; [done|]. simpl.
      assert (c ∈ ds) as Hin. { apply list_elem_of_In, in_rev. rewrite E. by left. }
      by apply (proj1 (Forall_forall _ _) Hsp). }
  unfold int_signed. destruct ds as [|c ds]; [done|].
  assert (isdecimal c = true) as Hc by (by inversion H).
  assert (c <> 43 /\ c <> 45) as [??].
  { split; intros ->; by rewrite isdecimal_ascii_other in Hc. }
  rewrite !strip_prefix_cons_ne by done.
  by rewrite int_digits_decimal.
Qed.

Lemma digits_value_snoc (ds : pystr) (c acc : Z) :
  digits_value acc (ds ++ [c]) = 10 * digits_value acc ds + default 0 (todecimal c).
Proof. unfold digits_value. by rewrite fold_left_app. Qed.

Lemma pretty_N_char_code (d : N) :
  (d < 10)%N -> Z.of_N (N_of_ascii (pretty_N_char d)) = 48 + Z.of_N d.
Proof.
  intros H.
  assert (d = 0 \/ d = 1 \/ d = 2 \/ d = 3 \/ d = 4 \/ d = 5 \/ d = 6 \/ d = 7
          \/ d = 8 \/ d = 9)%N as Hd by lia.
  repeat (destruct Hd as [->|Hd]; [done|]). by subst.
Qed.

(** [str(n)] of a natural number: its decimal digits. *)
Lemma pretty_N_go_digits (x : N) (s : string) :
  exists ds, py (pretty_N_go x s) = ds ++ py s
    /\ Forall (fun c => ascii_digit c = true) ds
    /\ digits_value 0 ds = Z.of_N x
    /\ ((0 < x)%N -> ds <> []).
Proof.
  revert s. induction (N.lt_wf_0 x) as [x _ IH]; intros s.
  destruct (decide (x = 0%N)) as [->|Hx].
  { exists []. rewrite pretty_N_go_0. repeat split; [constructor|lia]. }
  rewrite pretty_N_go_step by lia.
  destruct (IH (x `div` 10)%N (N.div_lt x 10 ltac:(lia) ltac:(lia))
               (String (pretty_N_char (x `mod` 10)) s)) as (ds & Heq & Hds & Hval & _).
  assert (x `mod` 10 < 10)%N as Hm by (apply N.mod_lt; lia).
  pose proof (N.div_mod x 10 ltac:(lia)) as E.
  set (a := (x `div` 10)%N) in *. set (b := (x `mod` 10)%N) in *.
  assert (ascii_digit (48 + Z.of_N b) = true) as Hb.
  { unfold ascii_digit. apply andb_true_iff. split; apply Z.leb_le; lia. }
  exists (ds ++ [48 + Z.of_N b]). repeat split.
  - rewrite Heq, py_String, pretty_N_char_code by done. by rewrite <- app_assoc.
  - apply Forall_app; split; [done|]. by constructor.
  - rewrite digits_value_snoc, Hval, todecimal_ascii by done. simpl. lia.
  - intros _. by destruct ds.
Qed.

Lemma pretty_N_digits (x : N) :
  exists ds, py (pretty x) = ds /\ ds <> []
    /\ Forall (fun c => ascii_digit c = true) ds /\ digits_value 0 ds = Z.of_N x.
Proof.
  unfold pretty, pretty_N. case_decide as Hx.
  - subst. exists [48]. repeat split; [done|by repeat constructor].
  - destruct (pretty_N_go_digits x "") as (ds & Heq & Hds & Hval & Hne).
    exists ds. rewrite Heq. simpl. rewrite app_nil_r. repeat split; try done.
    apply Hne. lia.
Qed.

(** [str(z)] of an integer: a minus sign when negative, then the digits. *)
Lemma pretty_Z_digits (z : Z) :
  exists ds, py (pretty z) = (if z <? 0 then [45] else []) ++ ds /\ ds <> []
    /\ Forall (fun c => ascii_digit c = true) ds /\ digits_value 0 ds = Z.abs z.
Proof.
  destruct z as [|p|p].
  - exists [48]. repeat split; [done|by repeat constructor].
  - destruct (pretty_N_digits (Npos p)) as (ds & Heq & ? & ? & ?).
    exists ds. repeat split; try done.
  - destruct (pretty_N_digits (Npos p)) as (ds & Heq & ? & ? & ?).
    exists ds. repeat split; try done.
    change (pretty (Z.neg p)) with ("-" +:+ pretty (Npos p)).
    by rewrite py_app, Heq.
Qed.

Lemma ascii_digits_decimal (ds : pystr) :
  Forall (fun c => ascii_digit c = true) ds -> Forall (fun c => isdecimal c = true) ds.
Proof. intros H. eapply Forall_impl; [exact H|]. intros c. apply isdecimal_ascii. Qed.

(** [int(str(z)) = z] *)
Lemma py_int_pretty (z : Z) : py_int (py (pretty z)) = Ok z.
Proof.
  destruct (pretty_Z_digits z) as (ds & Heq & Hne & Hds & Hval).
  apply ascii_digits_decimal in Hds.
  rewrite Heq. destruct (z <? 0) eqn:Hz; simpl.
  - unfold py_int. simpl.
    assert (rstrip_by int_space (45 :: ds) = 45 :: ds) as ->.
    { apply rstrip_by_id. simpl. destruct (rev ds) as [|c r] eqn:E.
      - by destruct ds using rev_ind; [|rewrite rev_app_distr in E].
      - simpl. apply isdecimal_not_int_space.
        assert (c ∈ ds) as Hin. { apply list_elem_of_In, in_rev. rewrite E. by left. }
        by apply (proj1 (Forall_forall _ _) Hds). }
    unfold int_signed. simpl. rewrite int_digits_decimal, Hval by done. simpl.
    f_equal. lia.
  - rewrite py_int_decimal, Hval by done. f_equal. lia.
Qed.

End DecimalFacts.

(** ** The markup text extractor *)

Section ExtractorFacts.
Context {U : UnicodeDB}.

Lemma py_chr_out_of_range (code : Z) :
  code < 0 \/ 1114112 <= code -> py_chr code = Raise (ChrRange code).
Proof.
  intros H. unfold py_chr.
  destruct (Z.leb_spec 0 code), (Z.ltb_spec code 1114112); simpl; try done; lia.
Qed.

(** The escape pattern at an escape written with [str(code)]. *)
Lemma pat_uni_escape (prev : option Z) (code : Z) (post : pystr) :
  stops isdecimal post ->
  exists n, pat_uni prev (py "\u" ++ py (pretty code) ++ post) = Some (py (pretty code), n).
Proof.
  intros Hpost.
  destruct (pretty_Z_digits code) as (ds & Heq & Hne & Hds & _).
  apply ascii_digits_decimal in Hds.
  unfold pat_uni. change (py "\u") with [92; 117].
  rewrite strip_prefix_app, Heq.
  destruct (code <? 0).
  - rewrite <- app_assoc, (strip_prefix_app [45]), takewhile_app by done.
    destruct ds as [|d ds]; [done|]. simpl length. simpl drop.
    change (d :: ds ++ post) with ((d :: ds) ++ post).
    rewrite takewhile_app by done. eauto.
  - rewrite app_nil_l. destruct ds as [|d ds]; [done|].
    assert (d <> 45) as Hd.
    { intros ->. inversion Hds as [|?? Hc _]. by rewrite isdecimal_ascii_other in Hc. }
    assert (strip_prefix [45] ((d :: ds) ++ post) = None) as ->
      by by apply strip_prefix_cons_ne.
    cbn [length]. rewrite drop_0, takewhile_app by done. eauto.
Qed.

Lemma uni_repl_pretty (code : Z) :
  uni_repl (py (pretty code)) = py_chr (if code <? 0 then 65536 + code else code).
Proof. unfold uni_repl. by rewrite py_int_pretty. Qed.

(** Before the first [\u] nothing is an escape. *)
Lemma pat_uni_no_escape (prev : option Z) (c : Z) (pre rest : pystr) :
  occurs [92; 117] (c :: pre) = false ->
  pat_uni prev ((c :: pre) ++ 92 :: rest) = None.
Proof.
  intros H. cbn [occurs] in H. apply orb_false_iff in H as [H _].
  assert (strip_prefix [92; 117] ((c :: pre) ++ 92 :: rest) = None) as Hs.
  { cbn [app strip_prefix startswith] in *.
    destruct (92 =? c); [|done].
    destruct pre as [|c' pre]; [done|].
    cbn [app strip_prefix startswith] in *.
    destruct (117 =? c'); [|done]. by destruct pre. }
  unfold pat_uni. by rewrite Hs.
Qed.

Lemma sub_uni_raise_after (pre rest : pystr) (e : exn) :
  occurs [92; 117] pre = false ->
  (forall prev, sub_from pat_uni uni_repl 0 prev (92 :: rest) = Raise e) ->
  forall prev, sub_from pat_uni uni_repl 0 prev (pre ++ 92 :: rest) = Raise e.
Proof.
  intros Hpre Hrest. induction pre as [|c pre IH]; intros prev; [apply Hrest|].
  change (sub_from pat_uni uni_repl 0 prev ((c :: pre) ++ 92 :: rest))
    with (match pat_uni prev ((c :: pre) ++ 92 :: rest) with
          | Some (m, n) =>
            r ← uni_repl m;
            rest' ← sub_from pat_uni uni_repl (Nat.pred n) (Some c) (pre ++ 92 :: rest);
            Ok (r ++ rest')
          | None => rest' ← sub_from pat_uni uni_repl 0 (Some c) (pre ++ 92 :: rest);
                    Ok (c :: rest')
          end).
  rewrite pat_uni_no_escape by done.
  rewrite IH; [done|].
  cbn [occurs] in Hpre. by apply orb_false_iff in Hpre as [_ ?].
Qed.

(** C10. The conversion to text is not total: when the first numeric
    escape of the input decodes to a code point out of range, a code of
    1114112 or more or a negative code below -65536, [rtf_to_text] raises
    [chr]'s exception instead of returning text, and the run ends there,
    before any segmentation. *)
Theorem rtf_to_text_escape_out_of_range
    (service : OpenAlex) (host : Host) (code : Z) (pre post select : pystr) :
  1114112 <= code \/ code < -65536 ->
  occurs (py "\u") pre = false ->
  stops isdecimal post ->
  let rtf := pre ++ py "\u" ++ py (pretty code) ++ post in
  let bad := if code <? 0 then 65536 + code else code in
  rtf_to_text rtf = Raise (ChrRange bad) /\ main rtf select = Raise (ChrRange bad).
Proof.
  intros Hcode Hpre Hpost rtf bad.
  assert (rtf_to_text rtf = Raise (ChrRange bad)) as Hraise.
  { unfold rtf_to_text, re_sub, rtf.
    change (py "\u" ++ py (pretty code) ++ post)
      with (92 :: 117 :: py (pretty code) ++ post).
    rewrite sub_uni_raise_after with (e := ChrRange bad); [done|done|].
    intros prev.
    destruct (pat_uni_escape prev code post Hpost) as [n Hn].
    change (py "\u" ++ py (pretty code) ++ post)
      with (92 :: 117 :: py (pretty code) ++ post) in Hn.
    cbn [sub_from]. rewrite Hn, uni_repl_pretty.
    fold bad. rewrite py_chr_out_of_range; [done|].
    unfold bad. destruct (Z.ltb_spec code 0); lia. }
  split; [done|]. unfold main. by rewrite Hraise.
Qed.

End ExtractorFacts.

Lemma rtf_to_text_escape_out_of_range_witness :
  let U := ascii_db in
  let service := {| oa_work_by_doi := fun _ => None;
                    oa_search_by_title_year := fun _ _ => None |} in
  let host := sample_host in
  (rtf_to_text (py "{\rtf1\ansi [1] A. M" ++ py "\u" ++ py (pretty 1114112) ++ py "?ller, 2019.")
     = Raise (ChrRange 1114112)
   /\ main (py "{\rtf1\ansi [1] A. M" ++ py "\u" ++ py (pretty 1114112) ++ py "?ller, 2019.")
           (py "all") = Raise (ChrRange 1114112))
  /\ (rtf_to_text (py "[1] " ++ py "\u" ++ py (pretty (-65537)) ++ py " B.")
      = Raise (ChrRange (-1))
     /\ main (py "[1] " ++ py "\u" ++ py (pretty (-65537)) ++ py " B.") (py "all")
        = Raise (ChrRange (-1))).
Proof.
  intros U service host. split.
  - apply (rtf_to_text_escape_out_of_range service host 1114112
             (py "{\rtf1\ansi [1] A. M") (py "?ller, 2019.") (py "all"));
      [lia | reflexivity | reflexivity].
  - apply (rtf_to_text_escape_out_of_range service host (-65537)
             (py "[1] ") (py " B.") (py "all"));
      [lia | reflexivity | reflexivity].
Defined.

(** ** The regular-expression driver *)

Section RegexFacts.
Context {M : Type} (pat : option Z -> pystr -> option (M * nat)).

Lemma prev_at_cons (prev : option Z) (c : Z) (s : pystr) (i : nat) :
  prev_at prev (c :: s) (S i) = prev_at (Some c) s i.
Proof. by destruct i. Qed.

(** [search] returns the match at the leftmost position that has one. *)
Lemma search_from_Some (prev : option Z) (s : pystr) (m : M) :
  search_from pat prev s = Some m <->
  exists i n, (i < length s)%nat
    /\ pat (prev_at prev s i) (drop i s) = Some (m, n)
    /\ forall j, (j < i)%nat -> pat (prev_at prev s j) (drop j s) = None.
Proof.
  revert prev. induction s as [|c s IH]; intros prev.
  { split; [done|]. intros (i & n & Hi & _). simpl in Hi. lia. }
  cbn [search_from]. destruct (pat prev (c :: s)) as [[m' n']|] eqn:E.
  - split.
    + intros [= ->]. exists 0%nat, n'. split; [simpl; lia|]. split; [done|]. lia.
    + intros (i & n & Hi & Hm & Hfirst). destruct i as [|i].
      * simpl in Hm. congruence.
      * specialize (Hfirst 0%nat ltac:(lia)). simpl in Hfirst. congruence.
  - rewrite IH. split.
    + intros (i & n & Hi & Hm & Hfirst). exists (S i), n.
      split; [simpl; lia|]. rewrite prev_at_cons. split; [done|].
      intros [|j] Hj; [done|]. rewrite prev_at_cons. apply Hfirst. lia.
    + intros (i & n & Hi & Hm & Hfirst). destruct i as [|i].
      * simpl in Hm. congruence.
      * exists i, n. rewrite prev_at_cons in Hm. split; [simpl in Hi; lia|].
        split; [done|]. intros j Hj.
        specialize (Hfirst (S j) ltac:(lia)). by rewrite prev_at_cons in Hfirst.
Qed.

Lemma search_from_None (prev : option Z) (s : pystr) :
  search_from pat prev s = None <->
  forall i, (i < length s)%nat -> pat (prev_at prev s i) (drop i s) = None.
Proof.
  revert prev. induction s as [|c s IH]; intros prev.
  { split; [|done]. intros _ i Hi. simpl in Hi. lia. }
  cbn [search_from]. destruct (pat prev (c :: s)) as [[m' n']|] eqn:E.
  - split; [done|]. intros H. specialize (H 0%nat ltac:(simpl; lia)).
    simpl in H. congruence.
  - rewrite IH. split.
    + intros H [|i] Hi; [done|]. rewrite prev_at_cons. apply H. simpl in Hi. lia.
    + intros H i Hi. specialize (H (S i) ltac:(simpl; lia)).
      by rewrite prev_at_cons in H.
Qed.

End RegexFacts.

(** ** The title *)

Lemma pat_quoted_spec (lq rq : Z) (prev : option Z) (s body : pystr) (n : nat) :
  pat_quoted lq rq prev s = Some (body, n) <->
  body <> [] /\ (rq ∉ body) /\ (exists post, s = lq :: body ++ rq :: post)
  /\ n = (2 + length body)%nat.
Proof.
  unfold pat_quoted. set (p := fun x => negb (x =? rq)). split.
  - destruct s as [|c r]; [done|].
    destruct (Z.eqb_spec c lq) as [->|]; [|done].
    pose proof (takewhile_dropwhile p r) as Hr.
    pose proof (takewhile_Forall p r) as Hall.
    pose proof (dropwhile_stops p r) as Hstop.
    destruct (takewhile p r) as [|b bs] eqn:Et; [done|].
    destruct (dropwhile p r) as [|x post] eqn:Ed; [done|].
    intros [= <- <-]. split; [done|]. split; [|split; [|done]].
    + rewrite Forall_forall in Hall. intros Hin. apply Hall in Hin.
      unfold p in Hin. by rewrite Z.eqb_refl in Hin.
    + simpl in Hstop. unfold p in Hstop. apply negb_false_iff, Z.eqb_eq in Hstop.
      subst x. exists post. by rewrite Hr.
  - intros (Hne & Hin & [post ->] & ->).
    rewrite Z.eqb_refl.
    assert (Forall (fun c => p c = true) body) as Hall.
    { apply Forall_forall. intros x Hx. unfold p. apply negb_true_iff, Z.eqb_neq.
      by intros ->. }
    assert (stops p (rq :: post)) as Hstop.
    { simpl. unfold p. by rewrite Z.eqb_refl. }
    rewrite takewhile_app, dropwhile_app by done.
    by destruct body.
Qed.

Lemma pat_quoted_at (lq rq : Z) (prev : option Z) (s : pystr) (i : nat) (body : pystr) :
  (exists n, pat_quoted lq rq prev (drop i s) = Some (body, n)) <-> quoted_at lq rq s i body.
Proof.
  unfold quoted_at. split.
  - intros [n H]. apply pat_quoted_spec in H. tauto.
  - intros (? & ? & ?). exists (2 + length body)%nat. by apply pat_quoted_spec.
Qed.

Lemma quoted_at_lt (lq rq : Z) (s : pystr) (i : nat) (body : pystr) :
  quoted_at lq rq s i body -> (i < length s)%nat.
Proof.
  intros (_ & _ & post & H). destruct (decide (i < length s)%nat); [done|].
  rewrite drop_ge in H by lia. done.
Qed.

Lemma pat_quoted_None (lq rq : Z) (prev : option Z) (s : pystr) (i : nat) :
  pat_quoted lq rq prev (drop i s) = None <-> forall b, ~ quoted_at lq rq s i b.
Proof.
  split.
  - intros H b Hq. apply (pat_quoted_at lq rq prev) in Hq as [n Hn]. congruence.
  - intros H. destruct (pat_quoted lq rq prev (drop i s)) as [[b n]|] eqn:E; [|done].
    destruct (H b). apply (pat_quoted_at lq rq prev). eauto.
Qed.

(** The search for a quoted span finds the first one of the text. *)
Lemma re_search_quoted_Some (lq rq : Z) (s body : pystr) :
  re_search (pat_quoted lq rq) s = Some body <-> first_quoted lq rq s body.
Proof.
  unfold re_search, first_quoted. rewrite search_from_Some. split.
  - intros (i & n & Hi & Hm & Hfirst). exists i. split.
    + apply (pat_quoted_at lq rq (prev_at None s i)). eauto.
    + intros j b Hj. by apply (pat_quoted_None lq rq (prev_at None s j)), Hfirst.
  - intros (i & Hq & Hfirst).
    pose proof (quoted_at_lt _ _ _ _ _ Hq) as Hi.
    apply (pat_quoted_at lq rq (prev_at None s i)) in Hq as [n Hn].
    exists i, n. split; [done|]. split; [done|].
    intros j Hj. apply pat_quoted_None. intros b. by apply Hfirst.
Qed.

Lemma re_search_quoted_None (lq rq : Z) (s : pystr) :
  re_search (pat_quoted lq rq) s = None <-> no_quoted lq rq s.
Proof.
  unfold re_search, no_quoted. rewrite search_from_None. split.
  - intros H i b Hq. pose proof (quoted_at_lt _ _ _ _ _ Hq) as Hi.
    apply H in Hi. by apply (pat_quoted_None lq rq (prev_at None s i)) in Hq.
  - intros H i _. apply pat_quoted_None. intros b. apply H.
Qed.

(** C4, as amended.  The title is the trimmed text of the first
    curly-quoted span when the text has one; otherwise the trimmed text of
    the first straight-quoted span when it has one; and only when it has
    neither, the first 160 characters, trimmed.  A span is an opening
    quote, at least one character other than the closing quote, and the
    closing quote. *)
Theorem extract_title_spans (s body : pystr) :
  (first_quoted LDQUOTE RDQUOTE s body -> extract_title s = strip body)
  /\ (no_quoted LDQUOTE RDQUOTE s -> first_quoted DQUOTE DQUOTE s body ->
      extract_title s = strip body)
  /\ (no_quoted LDQUOTE RDQUOTE s -> no_quoted DQUOTE DQUOTE s ->
      extract_title s = strip (take 160 s)).
Proof.
  unfold extract_title. repeat split.
  - intros H. apply re_search_quoted_Some in H. by rewrite H.
  - intros H1 H2. apply re_search_quoted_None in H1. apply re_search_quoted_Some in H2.
    by rewrite H1, H2.
  - intros H1 H2. apply re_search_quoted_None in H1, H2. by rewrite H1, H2.
Qed.

(** C4, the claim as stated fails: with a straight-quoted span before a
    curly-quoted one, the code returns the curly-quoted text, which is not
    the first quoted span of the text. *)
Lemma extract_title_not_first_span :
  extract_title title_sample = py "B" /\ spec_extract_title title_sample = py "A".
Proof. split; reflexivity. Qed.

(** ** All matches of a pattern *)

Section MatchesFacts.
Context {M : Type} (pat : option Z -> pystr -> option (M * nat)).

(** When matches cannot overlap, [finditer] returns the matches at all
    positions. *)
Lemma finditer_from_matches (Hno : no_overlap pat) (s : pystr) :
  forall skip prev,
    (forall k, (k < skip)%nat -> pat (prev_at prev s k) (drop k s) = None) ->
    finditer_from pat skip prev s = matches_from pat prev s.
Proof.
  induction s as [|c s IH]; intros skip prev Hskip; [done|].
  cbn [finditer_from matches_from]. destruct skip as [|skip].
  - destruct (pat prev (c :: s)) as [[m n]|] eqn:E.
    + f_equal. apply IH. intros k Hk.
      rewrite <- prev_at_cons with (prev := prev).
      apply (Hno prev (c :: s) m n E (S k)). lia.
    + apply IH. intros k Hk. lia.
  - pose proof (Hskip 0%nat ltac:(lia)) as H0. simpl in H0. rewrite H0.
    apply IH. intros k Hk.
    rewrite <- prev_at_cons with (prev := prev). apply (Hskip (S k)). lia.
Qed.

Lemma finditer_matches (Hno : no_overlap pat) (s : pystr) :
  finditer pat s = matches_from pat None s.
Proof. apply finditer_from_matches; [done|]. intros k Hk. lia. Qed.

Lemma matches_from_Forall (P : M -> Prop) (prev : option Z) (s : pystr) :
  (forall prev s m n, pat prev s = Some (m, n) -> P m) ->
  Forall P (matches_from pat prev s).
Proof.
  intros HP. revert prev. induction s as [|c s IH]; intros prev; [constructor|].
  cbn [matches_from]. destruct (pat prev (c :: s)) as [[m n]|] eqn:E; [|done].
  constructor; [by eapply HP|done].
Qed.

Lemma matches_from_nil (prev : option Z) (s : pystr) :
  matches_from pat prev s = [] <->
  forall i, (i < length s)%nat -> pat (prev_at prev s i) (drop i s) = None.
Proof.
  revert prev. induction s as [|c s IH]; intros prev.
  { split; [|done]. intros _ i Hi. simpl in Hi. lia. }
  cbn [matches_from]. destruct (pat prev (c :: s)) as [[m n]|] eqn:E.
  - split; [done|]. intros H. specialize (H 0%nat ltac:(simpl; lia)).
    simpl in H. congruence.
  - rewrite IH. split.
    + intros H [|i] Hi; [done|]. rewrite prev_at_cons. apply H. simpl in Hi. lia.
    + intros H i Hi. specialize (H (S i) ltac:(simpl; lia)).
      by rewrite prev_at_cons in H.
Qed.

(** The last match is the one at the rightmost position that has one. *)
Lemma matches_from_last (prev : option Z) (s : pystr) (m : M) :
  last (matches_from pat prev s) = Some m <->
  exists i n, (i < length s)%nat
    /\ pat (prev_at prev s i) (drop i s) = Some (m, n)
    /\ forall j, (i < j < length s)%nat -> pat (prev_at prev s j) (drop j s) = None.
Proof.
  revert prev. induction s as [|c s IH]; intros prev.
  { split; [done|]. intros (i & n & Hi & _). simpl in Hi. lia. }
  cbn [matches_from].
  assert (last (matches_from pat (Some c) s) = None <->
          forall j, (0 < j < length (c :: s))%nat ->
                    pat (prev_at prev (c :: s) j) (drop j (c :: s)) = None) as Hnone.
  { rewrite last_None, matches_from_nil. split.
    - intros H [|j] Hj; [lia|]. rewrite prev_at_cons. apply H. simpl in Hj. lia.
    - intros H j Hj. specialize (H (S j) ltac:(simpl; lia)).
      by rewrite prev_at_cons in H. }
  assert ((exists i n, (i < length s)%nat
             /\ pat (prev_at (Some c) s i) (drop i s) = Some (m, n)
             /\ forall j, (i < j < length s)%nat ->
                          pat (prev_at (Some c) s j) (drop j s) = None) <->
          (exists i n, (0 < i < length (c :: s))%nat
             /\ pat (prev_at prev (c :: s) i) (drop i (c :: s)) = Some (m, n)
             /\ forall j, (i < j < length (c :: s))%nat ->
                          pat (prev_at prev (c :: s) j) (drop j (c :: s)) = None)) as Hshift.
  { split.
    - intros (i & n & Hi & Hm & Hlast). exists (S i), n.
      split; [simpl; lia|]. rewrite prev_at_cons. split; [done|].
      intros [|j] Hj; [lia|]. rewrite prev_at_cons. apply Hlast. simpl in Hj. lia.
    - intros (i & n & Hi & Hm & Hlast). destruct i as [|i]; [lia|].
      exists i, n. rewrite prev_at_cons in Hm. split; [simpl in Hi; lia|].
      split; [done|]. intros j Hj.
      specialize (Hlast (S j) ltac:(simpl; lia)). by rewrite prev_at_cons in Hlast. }
  rewrite <- IH in Hshift.
  destruct (pat prev (c :: s)) as [[m' n']|] eqn:E.
  - rewrite last_cons. destruct (last (matches_from pat (Some c) s)) as [m2|] eqn:El.
    + split.
      * intros Hm. apply Hshift in Hm as (i & n & Hi & ? & ?).
        exists i, n. split; [lia|]. done.
      * intros (i & n & Hi & Hm & Hlast). destruct i as [|i].
        -- assert (Some m2 = None) as Habs; [|done].
           apply Hnone. intros j Hj. apply Hlast. lia.
        -- apply Hshift. exists (S i), n. split; [lia|]. done.
    + split.
      * intros [= ->]. exists 0%nat, n'. split; [simpl; lia|]. split; [done|].
        by apply Hnone.
      * intros (i & n & Hi & Hm & Hlast). destruct i as [|i].
        -- simpl in Hm. congruence.
        -- assert (None = Some m) as Habs; [|done].
           apply Hshift. exists (S i), n. split; [lia|]. done.
  - split.
    + intros Hm. apply Hshift in Hm as (i & n & Hi & ? & ?).
      exists i, n. split; [lia|]. done.
    + intros (i & n & Hi & Hm & Hlast). destruct i as [|i].
      * simpl in Hm. congruence.
      * apply Hshift. exists (S i), n. split; [lia|]. done.
Qed.

End MatchesFacts.

(** ** The publication year *)

Lemma before_first_spec (sep s : pystr) :
  exists rest, s = before_first sep s ++ rest
    /\ (rest = [] \/ startswith sep rest = true)
    /\ forall i, (i < length (before_first sep s))%nat -> startswith sep (drop i s) = false.
Proof.
  induction s as [|c s IH].
  - exists []. cbn [before_first]. destruct (startswith sep []); simpl.
    + split; [done|]. split; [by left|]. intros i Hi. lia.
    + split; [done|]. split; [by left|]. intros i Hi. lia.
  - cbn [before_first]. destruct (startswith sep (c :: s)) eqn:E.
    + exists (c :: s). split; [done|]. split; [by right|]. intros i Hi. simpl in Hi. lia.
    + destruct IH as (rest & Heq & Hrest & Hno). exists rest.
      split; [simpl; by rewrite <- Heq|]. split; [done|].
      intros [|i] Hi; [done|]. simpl. apply Hno. simpl in Hi. lia.
Qed.

Section YearFacts.
Context {U : UnicodeDB}.

Lemma word_boundary_before (prev : option Z) (c : Z) (s : pystr) :
  isword c = true -> word_boundary prev (c :: s) = true <-> not_word prev.
Proof.
  intros Hc. unfold word_boundary, not_word. rewrite Hc.
  destruct prev as [p|]; [|done]. by destruct (isword p).
Qed.

Lemma word_boundary_after (d : Z) (rest : pystr) :
  isword d = true -> word_boundary (Some d) rest = true <-> not_word (head rest).
Proof.
  intros Hd. unfold word_boundary, not_word. rewrite Hd.
  destruct rest as [|c rest]; simpl; [done|]. by destruct (isword c).
Qed.

Lemma century_word (a b : Z) :
  (a = 49 /\ b = 57) \/ (a = 50 /\ b = 48) -> isword a = true /\ isword b = true.
Proof. by intros [[-> ->]|[-> ->]]. Qed.

Lemma pat_year_Some (prev : option Z) (s g : pystr) (n : nat) :
  pat_year prev s = Some (g, n) <->
  exists a b c d rest,
    s = a :: b :: c :: d :: rest /\ g = [a; b; c; d] /\ n = 4%nat
    /\ ((a = 49 /\ b = 57) \/ (a = 50 /\ b = 48))
    /\ isdecimal c = true /\ isdecimal d = true
    /\ not_word prev /\ not_word (head rest).
Proof.
  unfold pat_year. split.
  - destruct (word_boundary prev s) eqn:Hb; [|done].
    destruct s as [|a [|b [|c [|d rest]]]]; try done.
    destruct (_ && _) eqn:E; [|done]. intros [= <- <-].
    apply andb_true_iff in E as [E Hafter].
    apply andb_true_iff in E as [E Hd].
    apply andb_true_iff in E as [Hab Hc].
    assert ((a = 49 /\ b = 57) \/ (a = 50 /\ b = 48)) as Hcent.
    { apply orb_true_iff in Hab as [H|H]; apply andb_true_iff in H as [Ea Eb];
        apply Z.eqb_eq in Ea, Eb; [left|right]; done. }
    exists a, b, c, d, rest. repeat split; try done.
    + eapply word_boundary_before; [|exact Hb]. by apply century_word in Hcent as [? _].
    + eapply word_boundary_after; [|exact Hafter]. by apply isdecimal_isword.
  - intros (a & b & c & d & rest & -> & -> & -> & Hcent & Hc & Hd & Hprev & Hnext).
    rewrite (proj2 (word_boundary_before prev a _ (proj1 (century_word a b Hcent)))) by done.
    rewrite Hc, Hd.
    rewrite (proj2 (word_boundary_after d rest (isdecimal_isword d Hd))) by done.
    by destruct Hcent as [[-> ->]|[-> ->]].
Qed.

(** A year cannot start inside another one: the four characters are word
    characters, so no boundary lies between them. *)
Lemma pat_year_no_overlap : no_overlap pat_year.
Proof.
  intros prev s g n H k Hk.
  apply pat_year_Some in H
    as (a & b & c & d & rest & -> & -> & -> & Hcent & Hc & Hd & _ & _).
  apply century_word in Hcent as [Ha Hb].
  apply isdecimal_isword in Hc, Hd.
  assert (k = 1 \/ k = 2 \/ k = 3)%nat as Hcases by lia.
  destruct Hcases as [-> | [-> | ->]];
    unfold pat_year; simpl; unfold word_boundary;
    rewrite ?Ha, ?Hb, ?Hc, ?Hd; done.
Qed.

Lemma year_digits_value (a b c d dc dd : Z) :
  (a = 49 /\ b = 57) \/ (a = 50 /\ b = 48) ->
  todecimal c = Some dc -> todecimal d = Some dd ->
  digits_value 0 [a; b; c; d] = 1000 * (a - 48) + 100 * (b - 48) + 10 * dc + dd.
Proof.
  intros Hcent Hc Hd. unfold digits_value. cbn [fold_left]. rewrite Hc, Hd.
  destruct Hcent as [[-> ->]|[-> ->]]; simpl; lia.
Qed.

(** The year pattern matches exactly at the year tokens. *)
Lemma pat_year_token (cut : pystr) (i : nat) (y : Z) :
  year_token_at cut i y <->
  exists g n, pat_year (prev_at None cut i) (drop i cut) = Some (g, n)
    /\ digits_value 0 g = y.
Proof.
  split.
  - intros (a & b & c & d & dc & dd & rest & Hdrop & Hcent & Hc & Hd & -> & Hprev & Hnext).
    exists [a; b; c; d], 4%nat. split; [|by apply year_digits_value].
    apply pat_year_Some. exists a, b, c, d, rest.
    repeat split; try done; apply isdecimal_Some; eauto.
  - intros (g & n & H & <-).
    apply pat_year_Some in H
      as (a & b & c & d & rest & Hdrop & -> & -> & Hcent & Hc & Hd & Hprev & Hnext).
    apply isdecimal_Some in Hc as [dc Hc]. apply isdecimal_Some in Hd as [dd Hd].
    exists a, b, c, d, dc, dd, rest. repeat split; try done.
    by apply year_digits_value.
Qed.

Lemma year_token_lt (cut : pystr) (i : nat) (y : Z) :
  year_token_at cut i y -> (i < length cut)%nat.
Proof.
  intros (a & b & c & d & dc & dd & rest & Hdrop & _).
  destruct (decide (i < length cut)%nat); [done|].
  rewrite drop_ge in Hdrop by lia. done.
Qed.

Lemma year_token_range (cut : pystr) (i : nat) (y : Z) :
  year_token_at cut i y -> 1900 <= y <= 2099.
Proof.
  intros (a & b & c & d & dc & dd & rest & _ & Hcent & Hc & Hd & -> & _).
  apply todecimal_range in Hc, Hd. destruct Hcent as [[-> ->]|[-> ->]]; lia.
Qed.

Lemma mapM_py_int_decimal (groups : list pystr) :
  Forall (fun g => Forall (fun c => isdecimal c = true) g /\ g <> []) groups ->
  mapM py_int groups = Ok (digits_value 0 <$> groups).
Proof.
  induction 1 as [|g groups [Hg Hne] _ IH]; [done|].
  cbn [mapM]. change (mapM py_int groups) with (mapM py_int groups) in IH.
  rewrite py_int_decimal by done. cbn. rewrite IH. done.
Qed.

Lemma year_groups_decimal (prev : option Z) (cut : pystr) :
  Forall (fun g => Forall (fun c => isdecimal c = true) g /\ g <> [])
         (matches_from pat_year prev cut).
Proof.
  apply matches_from_Forall. intros p s g n H.
  apply pat_year_Some in H
    as (a & b & c & d & rest & _ & -> & _ & Hcent & Hc & Hd & _).
  split; [|done].
  assert (isdecimal a = true /\ isdecimal b = true) as [??]
    by by destruct Hcent as [[-> ->]|[-> ->]].
  by repeat constructor.
Qed.

(** The guess: it is there for every text, it is the value of the last
    year token of the text before the first marker, and none without a
    token. *)
Lemma extract_pub_year_spec (s : pystr) :
  let cut := before_first (py "Accessed:") s in
  exists o, extract_pub_year s = Ok o
    /\ (forall y, o = Some y <->
          exists i, year_token_at cut i y
            /\ forall j y', year_token_at cut j y' -> (j <= i)%nat)
    /\ (o = None <-> forall i y, ~ year_token_at cut i y)
    /\ (forall y, o = Some y -> 1900 <= y <= 2099).
Proof.
  intros cut. unfold extract_pub_year. fold cut.
  rewrite (finditer_matches _ pat_year_no_overlap).
  rewrite mapM_py_int_decimal by apply year_groups_decimal.
  set (groups := matches_from pat_year None cut).
  exists (last (digits_value 0 <$> groups)). split; [done|].
  rewrite fmap_last.
  assert (forall y, digits_value 0 <$> last groups = Some y <->
            exists i, year_token_at cut i y
              /\ forall j y', year_token_at cut j y' -> (j <= i)%nat) as Hlast.
  { intros y. rewrite fmap_Some. split.
    - intros (g & Hg & ->). apply matches_from_last in Hg as (i & n & Hi & Hm & Hafter).
      exists i. split; [apply pat_year_token; eauto|].
      intros j y' Hj. destruct (decide (j <= i)%nat); [done|].
      pose proof (year_token_lt _ _ _ Hj) as Hlt.
      apply pat_year_token in Hj as (g' & n' & Hm' & _).
      rewrite Hafter in Hm' by lia. done.
    - intros (i & Hi & Hmax). pose proof (year_token_lt _ _ _ Hi) as Hlt.
      apply pat_year_token in Hi as (g & n & Hm & <-).
      exists g. split; [|done]. apply matches_from_last. exists i, n.
      split; [done|]. split; [done|]. intros j Hj.
      destruct (pat_year (prev_at None cut j) (drop j cut)) as [[g' n']|] eqn:E; [|done].
      assert (year_token_at cut j (digits_value 0 g')) as Hj'
        by (apply pat_year_token; eauto).
      apply Hmax in Hj'. lia. }
  split; [done|]. split.
  - rewrite fmap_None, last_None. unfold groups. rewrite matches_from_nil. split.
    + intros H i y Hi. pose proof (year_token_lt _ _ _ Hi) as Hlt.
      apply pat_year_token in Hi as (g & n & Hm & _). rewrite H in Hm by done. done.
    + intros H i Hi.
      destruct (pat_year (prev_at None cut i) (drop i cut)) as [[g n]|] eqn:E; [|done].
      destruct (H i (digits_value 0 g)). apply pat_year_token. eauto.
  - intros y Hy. apply Hlast in Hy as (i & Hi & _). by eapply year_token_range.
Qed.

(** C7. The guessed year is read from the text before the first
    [Accessed:] marker only; it is the value of the last four-digit token
    starting with 19 or 20 there, and none when there is no such token;
    so a text with 2019 before the marker and 2024 after it yields
    2019. *)
Theorem extract_pub_year_last_token :
  (forall s : pystr,
     let cut := before_first (py "Accessed:") s in
     (exists rest, s = cut ++ rest
        /\ (rest = [] \/ startswith (py "Accessed:") rest = true)
        /\ forall i, (i < length cut)%nat ->
                     startswith (py "Accessed:") (drop i s) = false)
     /\ exists o, extract_pub_year s = Ok o
        /\ (forall y, o = Some y <->
              exists i, year_token_at cut i y
                /\ forall j y', year_token_at cut j y' -> (j <= i)%nat)
        /\ (o = None <-> forall i y, ~ year_token_at cut i y)
        /\ (forall y, o = Some y -> 1900 <= y <= 2099))
  /\ extract_pub_year (py "... 2019 ... Accessed: 2024-01-01") = Ok (Some 2019).
Proof.
  split; [|reflexivity].
  intros s cut. split; [apply before_first_spec|apply extract_pub_year_spec].
Qed.

End YearFacts.

(** ** The selection resolver *)

Lemma sorted_elem_of (X : gset Z) (x : Z) : x ∈ sorted X <-> x ∈ X.
Proof. unfold sorted. by rewrite merge_sort_Permutation, elem_of_elements. Qed.

Lemma sorted_Sorted (X : gset Z) : Sorted Z.le (sorted X).
Proof. unfold sorted. apply (Sorted_merge_sort Z.le). Qed.

Lemma sorted_NoDup (X : gset Z) : NoDup (sorted X).
Proof. unfold sorted. rewrite merge_sort_Permutation. apply NoDup_elements. Qed.

Lemma sorted_nil (X : gset Z) : sorted X = [] <-> X = ∅.
Proof.
  split.
  - intros H. apply set_eq. intros x. rewrite <- sorted_elem_of, H.
    rewrite elem_of_nil, elem_of_empty. tauto.
  - intros ->. done.
Qed.

(** Adding the available numbers of a range. *)
Lemma fold_add_available (A : gset Z) (xs : list Z) (ch : gset Z) (y : Z) :
  y ∈ fold_left (fun ch x => if bool_decide (x ∈ A) then {[x]} ∪ ch else ch) xs ch
  <-> y ∈ ch \/ (y ∈ A /\ y ∈ xs).
Proof.
  revert ch. induction xs as [|x xs IH]; intros ch; cbn [fold_left].
  - rewrite elem_of_nil. tauto.
  - rewrite IH, elem_of_cons. case_bool_decide as Hx.
    + rewrite elem_of_union, elem_of_singleton. split.
      * intros [[->|?]|[? ?]]; auto.
      * intros [?|[? [->|?]]]; auto.
    + split.
      * intros [?|[? ?]]; auto.
      * intros [?|[? [->|?]]]; auto. done.
Qed.

Section SelectionFacts.
Context {U : UnicodeDB}.

(** One piece adds the available numbers within its bounds, and fails
    when the piece is malformed. *)
Lemma select_part_spec (A ch : gset Z) (p : pystr) :
  match piece_bounds p with
  | Ok b => exists ch', select_part A ch p = Ok ch'
      /\ forall x, x ∈ ch' <-> x ∈ ch \/ (x ∈ A /\ b.1 <= x <= b.2)
  | Raise e => select_part A ch p = Raise e
  end.
Proof.
  unfold piece_bounds, select_part. case_bool_decide.
  - destruct (py_int (takewhile _ p)) as [a|e]; [|done]. cbn.
    destruct (py_int (drop 1 _)) as [b|e]; [|done]. cbn.
    eexists. split; [done|]. intros x.
    rewrite fold_add_available, elem_of_seqZ. cbn. split; intros [?|[??]]; auto; right; split; auto; lia.
  - destruct (py_int p) as [x|e]; [|done]. cbn.
    eexists. split; [done|]. intros y. cbn.
    case_bool_decide as Hx.
    + rewrite elem_of_union, elem_of_singleton. split.
      * intros [->|?]; [right; split; [done|lia]|by left].
      * intros [?|[? ?]]; [by right|left; lia].
    + split; [by left|]. intros [?|[HA ?]]; [done|].
      assert (y = x) as -> by lia. done.
Qed.

Lemma select_parts_spec (A : gset Z) (parts : list pystr) (ch : gset Z) :
  match mapM piece_bounds parts with
  | Ok bounds => exists ch', select_parts A ch parts = Ok ch'
      /\ forall x, x ∈ ch' <-> x ∈ ch \/ (x ∈ A /\ named bounds x)
  | Raise e => select_parts A ch parts = Raise e
  end.
Proof.
  revert ch. induction parts as [|p parts IH]; intros ch.
  - cbn. exists ch. split; [done|]. intros x. unfold named. rewrite Exists_nil. tauto.
  - cbn [mapM select_parts]. pose proof (select_part_spec A ch p) as Hp.
    destruct (piece_bounds p) as [b|e]; cbn.
    + destruct Hp as (ch1 & -> & H1). cbn. specialize (IH ch1).
      change (mapM piece_bounds parts) with (mapM piece_bounds parts) in IH.
      destruct (mapM piece_bounds parts) as [bounds|e]; cbn.
      * destruct IH as (ch' & -> & H'). exists ch'. split; [done|]. intros x.
        rewrite H', H1. unfold named. rewrite Exists_cons. tauto.
      * done.
    + by rewrite Hp.
Qed.

(** What [parse_selection] does with a selection that is not [all]. *)
Lemma parse_selection_pieces (selection : pystr) (A : gset Z) :
  lower (strip selection) <> py "all" ->
  match mapM piece_bounds (selection_pieces selection) with
  | Ok bounds => exists chosen : gset Z,
      (forall x, x ∈ chosen <-> x ∈ A /\ named bounds x)
      /\ parse_selection selection A
         = if bool_decide (chosen = ∅) then Raise SelectionEmpty else Ok (sorted chosen)
  | Raise e => parse_selection selection A = Raise e
  end.
Proof.
  intros Hall. unfold parse_selection. rewrite bool_decide_eq_false_2 by done.
  fold (selection_pieces selection).
  pose proof (select_parts_spec A (selection_pieces selection) ∅) as H.
  destruct (mapM piece_bounds (selection_pieces selection)) as [bounds|e].
  - destruct H as (chosen & -> & Hch). exists chosen. split; [|done].
    intros x. rewrite Hch, elem_of_empty. tauto.
  - by rewrite H.
Qed.

(** The result of any selection is sorted, without repeats, and within
    the available numbers. *)
Lemma parse_selection_sorted (selection : pystr) (A : gset Z) (l : list Z) :
  parse_selection selection A = Ok l ->
  Sorted Z.le l /\ NoDup l /\ forall x, x ∈ l -> x ∈ A.
Proof.
  destruct (decide (lower (strip selection) = py "all")) as [Hall|Hall].
  - unfold parse_selection. rewrite bool_decide_eq_true_2 by done. intros [= <-].
    split; [apply sorted_Sorted|]. split; [apply sorted_NoDup|].
    intros x. by rewrite sorted_elem_of.
  - pose proof (parse_selection_pieces selection A Hall) as H.
    destruct (mapM piece_bounds (selection_pieces selection)) as [bounds|e].
    + destruct H as (chosen & Hch & ->). case_bool_decide; [done|]. intros [= <-].
      split; [apply sorted_Sorted|]. split; [apply sorted_NoDup|].
      intros x. rewrite sorted_elem_of, Hch. tauto.
    + by rewrite H.
Qed.

(** *** Selections written in the grammar *)




















(** A selection over a set that is not empty never gives an empty list. *)
Lemma parse_selection_nonempty (selection : pystr) (A : gset Z) (l : list Z) :
  parse_selection selection A = Ok l -> A <> ∅ -> l <> [].
Proof.
  intros H HA. destruct (decide (lower (strip selection) = py "all")) as [Hall|Hall].
  - unfold parse_selection in H. rewrite bool_decide_eq_true_2 in H by done.
    injection H as <-. by rewrite sorted_nil.
  - pose proof (parse_selection_pieces selection A Hall) as Hp.
    destruct (mapM piece_bounds (selection_pieces selection)) as [bounds|e].
    + destruct Hp as (chosen & _ & Heq). rewrite Heq in H.
      case_bool_decide; [done|]. injection H as <-. by rewrite sorted_nil.
    + congruence.
Qed.

End SelectionFacts.

(** ** Dictionaries *)

Section DictFacts.
Context {K V : Type} `{EqDecision K}.
Implicit Types (d : odict K V) (k : K) (v : V).

Lemma dict_get_set k k' v d :
  dict_get k' (dict_set k v d) = if decide (k' = k) then Some v else dict_get k' d.
Proof.
  induction d as [|[k1 v1] d IH]; cbn [dict_set dict_get].
  - done.
  - destruct (decide (k = k1)) as [->|Hne]; cbn [dict_get].
    + by destruct (decide (k' = k1)).
    + destruct (decide (k' = k1)) as [->|]; [|done].
      by rewrite decide_False by done.
Qed.

Lemma dict_get_set_eq k v d : dict_get k (dict_set k v d) = Some v.
Proof. rewrite dict_get_set. by rewrite decide_True. Qed.

Lemma dict_get_set_ne k k' v d : k' <> k -> dict_get k' (dict_set k v d) = dict_get k' d.
Proof. intros H. rewrite dict_get_set. by rewrite decide_False. Qed.

(** A key has a value exactly when it is among the keys. *)
Lemma dict_get_is_Some k d : is_Some (dict_get k d) <-> k ∈ d.*1.
Proof.
  induction d as [|[k1 v1] d IH]; cbn [dict_get fmap list_fmap fst].
  - rewrite elem_of_nil. split; [by intros [? ?]|done].
  - rewrite elem_of_cons. destruct (decide (k = k1)) as [->|Hne].
    + split; [by left|by eexists].
    + rewrite IH. tauto.
Qed.

Lemma dict_get_None k d : dict_get k d = None <-> k ∉ d.*1.
Proof. rewrite <- dict_get_is_Some, eq_None_not_Some. done. Qed.

Lemma dict_get_elem_of k v d : dict_get k d = Some v -> (k, v) ∈ d.
Proof.
  induction d as [|[k1 v1] d IH]; cbn [dict_get]; [done|].
  destruct (decide (k = k1)) as [->|Hne].
  - intros [= ->]. left.
  - intros H. right. by apply IH.
Qed.

(** With distinct keys, the items of a dictionary are its lookups. *)
Lemma dict_elem_of_get k v d : NoDup d.*1 -> (k, v) ∈ d -> dict_get k d = Some v.
Proof.
  induction d as [|[k1 v1] d IH]; cbn [dict_get fmap list_fmap fst]; intros Hnd Hin.
  - by apply elem_of_nil in Hin.
  - apply NoDup_cons in Hnd as [Hk1 Hnd]. apply elem_of_cons in Hin as [[= -> ->]|Hin].
    + by rewrite decide_True.
    + destruct (decide (k = k1)) as [->|Hne]; [|by apply IH].
      destruct Hk1. apply list_elem_of_fmap. by exists (k1, v).
Qed.

Lemma dict_set_keys k v d k' : k' ∈ (dict_set k v d).*1 <-> k' = k \/ k' ∈ d.*1.
Proof.
  rewrite <- !dict_get_is_Some, dict_get_set.
  destruct (decide (k' = k)) as [->|Hne]; [|tauto].
  split; [by left|by eexists].
Qed.

Lemma dict_set_NoDup k v d : NoDup d.*1 -> NoDup (dict_set k v d).*1.
Proof.
  induction d as [|[k1 v1] d IH]; cbn [dict_set fmap list_fmap fst]; intros Hnd.
  - apply NoDup_singleton.
  - apply NoDup_cons in Hnd as [Hk1 Hnd].
    destruct (decide (k = k1)) as [->|Hne]; cbn [fmap list_fmap fst].
    + by apply NoDup_cons.
    + apply NoDup_cons. split; [|by apply IH].
      rewrite dict_set_keys. intros [?|?]; congruence.
Qed.

(** Assigning to a fresh key appends it. *)
Lemma dict_set_fresh k v d : k ∉ d.*1 -> dict_set k v d = d ++ [(k, v)].
Proof.
  induction d as [|[k1 v1] d IH]; cbn [dict_set fmap list_fmap fst]; intros Hk; [done|].
  apply not_elem_of_cons in Hk as [Hne Hk].
  rewrite decide_False by done. by rewrite IH.
Qed.

Lemma dict_get_app k d1 d2 :
  dict_get k (d1 ++ d2) = match dict_get k d1 with Some v => Some v | None => dict_get k d2 end.
Proof.
  induction d1 as [|[k1 v1] d1 IH]; cbn [app dict_get]; [done|].
  by destruct (decide (k = k1)).
Qed.

Lemma dict_fold_set_get k (items : list (K * V)) d :
  dict_get k (fold_left (fun d kv => dict_set kv.1 kv.2 d) items d)
  = match dict_get k (rev items) with Some v => Some v | None => dict_get k d end.
Proof.
  revert d. induction items as [|[k1 v1] items IH]; intros d; cbn [fold_left rev]; [done|].
  rewrite IH, dict_get_app. destruct (dict_get k (rev items)); [done|].
  cbn [dict_get fst snd]. rewrite dict_get_set. by destruct (decide (k = k1)).
Qed.

Lemma dict_fold_set_NoDup (items : list (K * V)) d :
  NoDup d.*1 -> NoDup (fold_left (fun d kv => dict_set kv.1 kv.2 d) items d).*1.
Proof.
  revert d. induction items as [|[k1 v1] items IH]; intros d Hd; cbn [fold_left]; [done|].
  by apply IH, dict_set_NoDup.
Qed.

Lemma dict_fold_set_keys k (items : list (K * V)) d :
  k ∈ (fold_left (fun d kv => dict_set kv.1 kv.2 d) items d).*1 <-> k ∈ items.*1 \/ k ∈ d.*1.
Proof.
  revert d. induction items as [|[k1 v1] items IH]; intros d; cbn [fold_left fmap list_fmap].
  - rewrite elem_of_nil. tauto.
  - rewrite IH, dict_set_keys, elem_of_cons. cbn. tauto.
Qed.

(** The value of a key in a reversed list of items is its last value. *)
Lemma dict_get_rev_last k v (items : list (K * V)) :
  dict_get k (rev items) = Some v <->
  exists pre post, items = pre ++ (k, v) :: post /\ k ∉ post.*1.
Proof.
  induction items as [|[k1 v1] items IH] using rev_ind.
  - split; [done|]. intros (pre & post & H & _). by destruct pre.
  - rewrite rev_app_distr. cbn [rev app dict_get].
    destruct (decide (k = k1)) as [->|Hne].
    + split.
      * intros [= ->]. exists items, []. split; [done|]. apply not_elem_of_nil.
      * intros (pre & post & Heq & Hpost).
        destruct post as [|[k2 v2] post _] using rev_ind.
        -- apply app_inj_tail in Heq as [_ [= ->]]. done.
        -- rewrite app_comm_cons, app_assoc in Heq. apply app_inj_tail in Heq as [_ [= -> ->]].
           destruct Hpost. rewrite fmap_app, elem_of_app. right. cbn. left.
    + rewrite IH. split.
      * intros (pre & post & -> & Hpost). exists pre, (post ++ [(k1, v1)]).
        split; [by rewrite <- app_assoc|].
        rewrite fmap_app, elem_of_app. cbn. rewrite list_elem_of_singleton. tauto.
      * intros (pre & post & Heq & Hpost).
        destruct post as [|[k2 v2] post _] using rev_ind.
        -- apply app_inj_tail in Heq as [_ [= ? ?]]. congruence.
        -- rewrite app_comm_cons, app_assoc in Heq. apply app_inj_tail in Heq as [-> _].
           exists pre, post. split; [done|].
           intros Hin. apply Hpost. rewrite fmap_app, elem_of_app. by left.
Qed.

(** Later occurrence overwrites earlier: [dict_of] keeps, for each key,
    the value of its last item. *)
Lemma dict_of_last k v (items : list (K * V)) :
  dict_get k (dict_of items) = Some v <->
  exists pre post, items = pre ++ (k, v) :: post /\ k ∉ post.*1.
Proof.
  unfold dict_of. rewrite dict_fold_set_get. cbn [dict_get].
  rewrite <- dict_get_rev_last. by destruct (dict_get k (rev items)).
Qed.

Lemma dict_of_keys k (items : list (K * V)) : k ∈ (dict_of items).*1 <-> k ∈ items.*1.
Proof. unfold dict_of. rewrite dict_fold_set_keys, elem_of_nil. cbn. tauto. Qed.

Lemma dict_of_NoDup (items : list (K * V)) : NoDup (dict_of items).*1.
Proof. apply dict_fold_set_NoDup. constructor. Qed.

(** Items with distinct keys are a dictionary as they stand. *)
Lemma dict_fold_set_distinct (items : list (K * V)) d :
  NoDup (d.*1 ++ items.*1) ->
  fold_left (fun d kv => dict_set kv.1 kv.2 d) items d = d ++ items.
Proof.
  revert d. induction items as [|[k1 v1] items IH]; intros d Hnd; cbn [fold_left].
  - by rewrite app_nil_r.
  - cbn [fmap list_fmap fst] in Hnd.
    assert (k1 ∉ d.*1) as Hk1.
    { apply NoDup_app in Hnd as (_ & Hd & _). intros Hin. apply (Hd k1 Hin). left. }
    cbn [fst snd]. rewrite dict_set_fresh by done. rewrite IH.
    + by rewrite <- app_assoc.
    + rewrite fmap_app. cbn. by rewrite <- app_assoc.
Qed.

Lemma dict_of_distinct (items : list (K * V)) : NoDup items.*1 -> dict_of items = items.
Proof. intros H. unfold dict_of. by rewrite dict_fold_set_distinct. Qed.

End DictFacts.

(** ** Loops that may raise *)

Lemma mapM_Ok_Forall2 {A B : Type} (f : A -> result B) (l : list A) (k : list B) :
  mapM f l = Ok k -> Forall2 (fun x y => f x = Ok y) l k.
Proof.
  revert k. induction l as [|x l IH]; intros k; cbn [mapM].
  - intros [= <-]. constructor.
  - destruct (f x) as [y|e] eqn:E; [|done]. cbn.
    change (mapM f l) with (mapM f l) in IH.
    destruct (mapM f l) as [k'|e]; [|done]. cbn. intros [= <-].
    constructor; [done|by apply IH].
Qed.

Lemma Forall2_mapM_Ok {A B : Type} (f : A -> result B) (l : list A) (k : list B) :
  Forall2 (fun x y => f x = Ok y) l k -> mapM f l = Ok k.
Proof.
  induction 1 as [|x y l k Hxy _ IH]; [done|].
  cbn [mapM]. rewrite Hxy. cbn.
  change (mapM f l) with (mapM f l) in IH. by rewrite IH.
Qed.

(** A loop whose every step succeeds and keeps an invariant succeeds and
    ends in a state with the invariant. *)
Lemma foldM_invariant {A S : Type} (f : S -> A -> result S) (I : list A -> S -> Prop)
    (xs : list A) (st : S) :
  I [] st ->
  (forall done x st, I done st -> x ∈ xs ->
     exists st', f st x = Ok st' /\ I (done ++ [x]) st') ->
  exists st', foldM f st xs = Ok st' /\ I xs st'.
Proof.
  intros H0 Hstep.
  assert (forall todo done st, done ++ todo = xs -> I done st ->
            exists st', foldM f st todo = Ok st' /\ I xs st') as Hgen.
  { induction todo as [|x todo IH]; intros done st0 Heq HI.
    - rewrite app_nil_r in Heq. subst. by exists st0.
    - destruct (Hstep done x st0 HI) as (st1 & Hf & HI1).
      { rewrite <- Heq, elem_of_app. right. left. }
      cbn [foldM]. rewrite Hf. cbn. apply (IH (done ++ [x])); [|done].
      by rewrite <- app_assoc. }
  by apply (Hgen xs []).
Qed.

(** ** The rows of the chosen references *)

Section PipelineFacts.
Context {U : UnicodeDB} {service : OpenAlex}.

(** The year pattern never makes [int] fail: the guess is always there. *)
Lemma extract_pub_year_Ok (s : pystr) :
  exists o, extract_pub_year s = Ok o /\ forall y, o = Some y -> 1900 <= y <= 2099.
Proof.
  destruct (extract_pub_year_spec s) as (o & Ho & _ & _ & Hrange). eauto.
Qed.

Lemma make_row_Ok (ref_map : odict Z pystr) (n : Z) (r : Row) :
  make_row ref_map n = Ok r -> ref_no r = n /\ row_of ref_map r.
Proof.
  unfold make_row, dict_item, row_of.
  destruct (dict_get n ref_map) as [raw0|] eqn:E; [|done]. cbn.
  destruct (extract_pub_year raw0) as [y|e] eqn:Ey; [|done]. cbn.
  intros [= <-]. cbn. by rewrite E.
Qed.

Lemma make_row_total (ref_map : odict Z pystr) (n : Z) :
  n ∈ ref_map.*1 -> exists r, make_row ref_map n = Ok r.
Proof.
  intros [raw0 E]%dict_get_is_Some. unfold make_row, dict_item. rewrite E. cbn.
  destruct (extract_pub_year_Ok raw0) as (o & -> & _). cbn. eauto.
Qed.

Lemma make_rows_Ok (ref_map : odict Z pystr) (chosen : list Z) (rows : list Row) :
  mapM (make_row ref_map) chosen = Ok rows ->
  ref_no <$> rows = chosen /\ Forall (row_of ref_map) rows.
Proof.
  intros H%mapM_Ok_Forall2.
  induction H as [|n r chosen rows Hr _ [IH1 IH2]]; [by split|].
  apply make_row_Ok in Hr as [<- Hr]. split; [by rewrite fmap_cons, IH1|by constructor].
Qed.

Lemma make_rows_total (ref_map : odict Z pystr) (chosen : list Z) :
  (forall n, n ∈ chosen -> n ∈ ref_map.*1) ->
  exists rows, mapM (make_row ref_map) chosen = Ok rows.
Proof.
  induction chosen as [|n chosen IH]; intros H.
  - by exists [].
  - destruct (make_row_total ref_map n) as [r Hr]; [apply H; left|].
    destruct IH as [rows Hrows]; [intros m Hm; apply H; by right|].
    exists (r :: rows). apply Forall2_mapM_Ok. constructor; [done|].
    by apply mapM_Ok_Forall2.
Qed.

(** ** Resolution *)

Lemma resolved_of_keys (rows : list Row) (n : Z) :
  n ∈ (resolved_of rows).*1 -> n ∈ ref_no <$> rows.
Proof.
  induction rows as [|r rows IH]; cbn [resolved_of omap list_omap]; [done|].
  rewrite fmap_cons, elem_of_cons.
  destruct (resolve_row r) as [w|]; cbn; [|auto].
  rewrite elem_of_cons. intros [?|?]; auto.
Qed.

Lemma resolved_of_NoDup (rows : list Row) :
  NoDup (ref_no <$> rows) -> NoDup (resolved_of rows).*1.
Proof.
  induction rows as [|r rows IH]; cbn [resolved_of omap list_omap]; [constructor|].
  rewrite fmap_cons. intros [Hr Hnd]%NoDup_cons.
  destruct (resolve_row r) as [w|]; cbn; [|by apply IH].
  apply NoDup_cons. split; [|by apply IH].
  intros Hin. by apply Hr, resolved_of_keys.
Qed.

Lemma resolve_all_spec (rows : list Row) :
  NoDup (ref_no <$> rows) ->
  resolve_all rows = (resolved_of rows, unresolved_of rows).
Proof.
  intros Hnd. unfold resolve_all.
  assert (forall todo done, done ++ todo = rows ->
            fold_left (fun st r =>
                         match resolve_row r with
                         | Some w => (dict_set (ref_no r) w st.1, st.2)
                         | None => (st.1, st.2 ++ [ref_no r])
                         end) todo (resolved_of done, unresolved_of done)
            = (resolved_of rows, unresolved_of rows)) as Hgen.
  { induction todo as [|r todo IH]; intros done Heq.
    - rewrite app_nil_r in Heq. by subst.
    - cbn [fold_left]. rewrite <- (IH (done ++ [r])) by by rewrite <- app_assoc.
      f_equal. unfold resolved_of, unresolved_of.
      rewrite omap_app, filter_app, fmap_app. cbn [omap list_omap fst snd].
      destruct (resolve_row r) as [w|] eqn:E; cbn.
      + rewrite decide_False by (rewrite E; by intros ?).
        cbn. rewrite app_nil_r. f_equal. apply dict_set_fresh.
        intros Hin%resolved_of_keys. rewrite <- Heq, fmap_app in Hnd.
        apply NoDup_app in Hnd as (_ & Hd & _). apply (Hd _ Hin). cbn. left.
      + rewrite decide_True by done. cbn. by rewrite app_nil_r. }
  apply (Hgen rows []). done.
Qed.

Lemma resolved_of_elem_of (rows : list Row) (n : Z) (w : OAWork) :
  (n, w) ∈ resolved_of rows <-> exists r, r ∈ rows /\ ref_no r = n /\ resolve_row r = Some w.
Proof.
  unfold resolved_of. rewrite list_elem_of_omap. split.
  - intros (r & Hr & H). destruct (resolve_row r) as [w'|] eqn:E; [|done].
    cbn in H. injection H as <- <-. eauto.
  - intros (r & Hr & <- & E). exists r. split; [done|]. by rewrite E.
Qed.

Lemma unresolved_of_elem_of (rows : list Row) (n : Z) :
  n ∈ unresolved_of rows <-> exists r, r ∈ rows /\ ref_no r = n /\ resolve_row r = None.
Proof.
  unfold unresolved_of. rewrite list_elem_of_fmap. split.
  - intros (r & -> & [H Hr]%list_elem_of_filter). eauto.
  - intros (r & Hr & <- & E). exists r. split; [done|]. by apply list_elem_of_filter.
Qed.

(** With distinct reference numbers, the resolved work of a row is the
    one its own resolution gave. *)
Lemma resolved_of_get (rows : list Row) (r : Row) :
  NoDup (ref_no <$> rows) -> r ∈ rows ->
  dict_get (ref_no r) (resolved_of rows) = resolve_row r.
Proof.
  intros Hnd Hr. destruct (resolve_row r) as [w|] eqn:E.
  - apply dict_elem_of_get; [by apply resolved_of_NoDup|].
    apply resolved_of_elem_of. eauto.
  - apply dict_get_None. intros [[n w] [Hn Hin]]%list_elem_of_fmap. cbn in Hn. subst n.
    apply resolved_of_elem_of in Hin as (r' & Hr' & Hno & Hw).
    assert (r' = r) as ->; [|congruence].
    apply list_elem_of_lookup in Hr as [i Hi]. apply list_elem_of_lookup in Hr' as [j Hj].
    assert (i = j) as ->; [|congruence].
    eapply NoDup_lookup; [exact Hnd|..]; rewrite list_lookup_fmap.
    + by rewrite Hi.
    + rewrite Hj. cbn. by rewrite Hno.
Qed.

(** A resolved work has a usable identity. *)
Lemma resolve_row_id (r : Row) (w : OAWork) : resolve_row r = Some w -> w_id w <> [].
Proof.
  unfold resolve_row. intros H.
  match type of H with match ?x with _ => _ end = _ => destruct x as [w'|] end; [|done].
  destruct (truthy_str (w_id w')) eqn:E; [|done]. injection H as <-.
  by destruct (w_id w').
Qed.

End PipelineFacts.

(** ** The graph *)

Lemma dict_set_elem_of {K V : Type} `{EqDecision K} (k k' : K) (v v' : V) (d : odict K V) :
  (k', v') ∈ dict_set k v d -> (k' = k /\ v' = v) \/ (k', v') ∈ d.
Proof.
  induction d as [|[k1 v1] d IH]; cbn [dict_set].
  - intros [= -> ->]%list_elem_of_singleton. by left.
  - destruct (decide (k = k1)) as [->|Hne]; rewrite !elem_of_cons.
    + intros [[= -> ->]|?]; [by left|right; by right].
    + intros [?|?]; [right; by left|]. destruct IH as [?|?]; auto.
Qed.

Lemma touch_node_present (nid : pystr) (nodes : odict pystr (option NodeAttrs)) :
  nid ∈ nodes.*1 -> touch_node nid nodes = nodes.
Proof. intros [a Ha]%dict_get_is_Some. unfold touch_node. by rewrite Ha. Qed.

Lemma reverse_ids_keys (nids : odict Z pystr) (nid : pystr) :
  nid ∈ (reverse_ids nids).*1 <-> nid ∈ nids.*2.
Proof.
  unfold reverse_ids. rewrite dict_of_keys.
  assert (((fun kv : Z * pystr => (kv.2, kv.1)) <$> nids).*1 = nids.*2) as ->; [|done].
  induction nids as [|kv nids IH]; [done|]. cbn. by rewrite IH.
Qed.

Lemma reverse_ids_get (nids : odict Z pystr) (nid : pystr) (n : Z) :
  dict_get nid (reverse_ids nids) = Some n -> (n, nid) ∈ nids.
Proof.
  unfold reverse_ids. intros (pre & post & Heq & _)%dict_of_last.
  assert ((nid, n) ∈ (fun kv : Z * pystr => (kv.2, kv.1)) <$> nids) as Hin.
  { rewrite Heq, elem_of_app. right. left. }
  apply list_elem_of_fmap in Hin as ([n' nid'] & [= -> ->] & Hin). done.
Qed.

Section GraphFacts.
Context {U : UnicodeDB} {service : OpenAlex}.
Variables (rows : list Row) (resolved : odict Z OAWork).
Hypothesis rows_distinct : NoDup (ref_no <$> rows).
Hypothesis resolved_distinct : NoDup resolved.*1.
Hypothesis resolved_rows : forall n, n ∈ resolved.*1 -> n ∈ ref_no <$> rows.

Lemma node_ids_rows : node_ids rows resolved = (fun r => (ref_no r, node_id_of resolved r)) <$> rows.
Proof.
  unfold node_ids.
  transitivity (fold_left (fun d kv => dict_set kv.1 kv.2 d)
                          ((fun r => (ref_no r, node_id_of resolved r)) <$> rows) ([] : odict Z pystr)).
  { generalize ([] : odict Z pystr). clear.
    induction rows as [|r rs IH]; intros d; [done|]. cbn [fold_left fmap list_fmap]. apply IH. }
  rewrite dict_fold_set_distinct; [done|].
  cbn [app fmap list_fmap]. rewrite <- list_fmap_compose. exact rows_distinct.
Qed.

Lemma node_ids_keys : (node_ids rows resolved).*1 = ref_no <$> rows.
Proof. rewrite node_ids_rows, <- list_fmap_compose. done. Qed.

Lemma node_ids_values : (node_ids rows resolved).*2 = node_id_of resolved <$> rows.
Proof. rewrite node_ids_rows, <- list_fmap_compose. done. Qed.

Lemma node_ids_get (r : Row) :
  r ∈ rows -> dict_get (ref_no r) (node_ids rows resolved) = Some (node_id_of resolved r).
Proof.
  intros Hr. apply dict_elem_of_get; [by rewrite node_ids_keys|].
  rewrite node_ids_rows. apply list_elem_of_fmap. eauto.
Qed.

Lemma node_ids_elem_of (n : Z) (nid : pystr) :
  (n, nid) ∈ node_ids rows resolved <-> exists r, r ∈ rows /\ ref_no r = n /\ node_id_of resolved r = nid.
Proof.
  rewrite node_ids_rows, list_elem_of_fmap. split.
  - intros (r & [= -> ->] & Hr). eauto.
  - intros (r & Hr & <- & <-). eauto.
Qed.

(** The work of a resolved item is the one its row's identity comes from. *)
Lemma resolved_item_row (n : Z) (w : OAWork) :
  (n, w) ∈ resolved -> exists r, r ∈ rows /\ ref_no r = n /\ node_id_of resolved r = w_id w.
Proof.
  intros Hin.
  assert (n ∈ ref_no <$> rows) as (r & -> & Hr)%list_elem_of_fmap.
  { apply resolved_rows, list_elem_of_fmap. by exists (n, w). }
  exists r. split; [done|]. split; [done|].
  unfold node_id_of. by rewrite (dict_elem_of_get _ _ _ resolved_distinct Hin).
Qed.

(** The reverse map sends an identity to a chosen reference with that
    identity. *)
Lemma reverse_ids_row (nid : pystr) :
  nid ∈ node_id_of resolved <$> rows ->
  exists r, dict_get nid (reverse_ids (node_ids rows resolved)) = Some (ref_no r)
    /\ r ∈ rows /\ node_id_of resolved r = nid.
Proof.
  intros Hin.
  assert (is_Some (dict_get nid (reverse_ids (node_ids rows resolved)))) as [n Hn].
  { apply dict_get_is_Some, reverse_ids_keys. by rewrite node_ids_values. }
  pose proof (reverse_ids_get _ _ _ Hn) as (r & Hr & <- & Hid)%node_ids_elem_of.
  eauto.
Qed.

(** Adding the nodes: one node per identity, each with the attributes of
    a row. *)
Lemma add_nodes_spec :
  exists G, add_nodes rows resolved (node_ids rows resolved) empty_graph = Ok G
    /\ g_edges G = []
    /\ (forall nid, nid ∈ (g_nodes G).*1 <-> nid ∈ node_id_of resolved <$> rows)
    /\ (forall nid a, (nid, a) ∈ g_nodes G ->
          exists r, r ∈ rows /\ nid = node_id_of resolved r
            /\ a = Some (node_attrs r (dict_get (ref_no r) resolved))).
Proof.
  unfold add_nodes.
  destruct (foldM_invariant
    (fun G r =>
       nid ← dict_item (ref_no r) (node_ids rows resolved);
       Ok (add_node nid (node_attrs r (dict_get (ref_no r) resolved)) G))
    (fun done G =>
       g_edges G = []
       /\ (forall nid, nid ∈ (g_nodes G).*1 <-> nid ∈ node_id_of resolved <$> done)
       /\ (forall nid a, (nid, a) ∈ g_nodes G ->
             exists r, r ∈ rows /\ nid = node_id_of resolved r
               /\ a = Some (node_attrs r (dict_get (ref_no r) resolved))))
    rows empty_graph) as (G & HG & HI).
  - split; [done|]. split; [done|]. intros nid a Hin. by apply elem_of_nil in Hin.
  - intros done r G (HE & Hkeys & Hattrs) Hr.
    unfold dict_item. rewrite node_ids_get by done. cbn.
    eexists. split; [done|]. split; [done|]. split.
    + intros nid. cbn [add_node g_nodes]. rewrite dict_set_keys, Hkeys, fmap_app, elem_of_app.
      cbn. rewrite list_elem_of_singleton. tauto.
    + intros nid a [[-> ->]|Hin]%dict_set_elem_of; [eauto|by apply Hattrs].
  - exists G. tauto.
Qed.

(** The edge loop: the nodes stay as they are; an edge is added for each
    identity that a resolved work references and that is a node; the rows
    of the edge table are the reference numbers of the two ends. *)
Lemma add_edges_spec (G : DiGraph) :
  g_edges G = [] ->
  (forall nid, nid ∈ (g_nodes G).*1 <-> nid ∈ node_id_of resolved <$> rows) ->
  let ref_by_node_id := reverse_ids (node_ids rows resolved) in
  exists G' edges_rows,
    add_edges resolved (node_ids rows resolved) ref_by_node_id
              (list_to_set ref_by_node_id.*1) G = Ok (G', edges_rows)
    /\ g_nodes G' = g_nodes G
    /\ (forall a b, (a, b) ∈ g_edges G' <->
          exists n w, (n, w) ∈ resolved /\ a = w_id w
            /\ b ∈ w_referenced_works w /\ b ∈ node_id_of resolved <$> rows)
    /\ (forall x y, (x, y) ∈ edges_rows <->
          exists a b, (a, b) ∈ g_edges G'
            /\ dict_get a ref_by_node_id = Some x /\ dict_get b ref_by_node_id = Some y).
Proof.
  intros HE Hnodes ref_by_node_id. unfold add_edges.
  set (allowed := list_to_set ref_by_node_id.*1 : gset pystr).
  assert (forall b, b ∈ allowed <-> b ∈ node_id_of resolved <$> rows) as Hallowed.
  { intros b. unfold allowed. rewrite elem_of_list_to_set.
    unfold ref_by_node_id. by rewrite reverse_ids_keys, node_ids_values. }
  set (inner := fun (src : pystr) (st : DiGraph * list (Z * Z)) (tgt : pystr) =>
         if bool_decide (tgt ∈ allowed) then
           citing ← dict_item src ref_by_node_id;
           cited ← dict_item tgt ref_by_node_id;
           Ok (add_edge src tgt st.1, st.2 ++ [(citing, cited)])
         else Ok st).
  set (P := fun (items : list (Z * OAWork)) (tgts : list pystr) (src : pystr)
                (st : DiGraph * list (Z * Z)) =>
         g_nodes st.1 = g_nodes G
         /\ (forall a b, (a, b) ∈ g_edges st.1 <->
               (exists n w, (n, w) ∈ items /\ a = w_id w
                  /\ b ∈ w_referenced_works w /\ b ∈ node_id_of resolved <$> rows)
               \/ (a = src /\ b ∈ tgts /\ b ∈ node_id_of resolved <$> rows))
         /\ (forall x y, (x, y) ∈ st.2 <->
               exists a b, (a, b) ∈ g_edges st.1
                 /\ dict_get a ref_by_node_id = Some x
                 /\ dict_get b ref_by_node_id = Some y)).
  assert (forall items src tgts st,
            src ∈ node_id_of resolved <$> rows -> P items [] src st ->
            exists st', foldM (inner src) st tgts = Ok st' /\ P items tgts src st') as Hinner.
  { intros items src tgts st Hsrc HP0.
    apply (foldM_invariant (inner src) (fun done st => P items done src st)); [done|].
    intros done tgt st0 (Hn & He & Hr) _. unfold inner.
    case_bool_decide as Htgt.
    - apply Hallowed in Htgt.
      destruct (reverse_ids_row src Hsrc) as (rs & Hrs & _).
      destruct (reverse_ids_row tgt Htgt) as (rt & Hrt & _).
      fold ref_by_node_id in Hrs, Hrt.
      unfold dict_item. rewrite Hrs, Hrt. cbn.
      eexists. split; [done|].
      assert (forall a b, (a, b) ∈ g_edges (add_edge src tgt st0.1) <->
                (a, b) ∈ g_edges st0.1 \/ (a = src /\ b = tgt)) as Hadd.
      { intros a b. cbn [add_edge g_edges]. case_bool_decide as Hin.
        - split; [by left|]. intros [?|[-> ->]]; done.
        - rewrite elem_of_app, list_elem_of_singleton. split; intros [?|H]; auto.
          + right. by injection H.
          + right. destruct H as [-> ->]. done. }
      split; [|split].
      + cbn [fst add_edge g_nodes]. rewrite Hn.
        rewrite (touch_node_present src) by by apply Hnodes.
        by rewrite touch_node_present by by apply Hnodes.
      + intros a b. cbn [fst]. rewrite Hadd, He, elem_of_app, list_elem_of_singleton.
        split.
        * intros [[?|(-> & ? & ?)]|[-> ->]]; auto.
        * intros [?|(-> & [?| ->] & ?)]; auto.
      + intros x y. cbn [fst snd]. rewrite elem_of_app, list_elem_of_singleton, Hr. split.
        * intros [(a & b & Hab & ? & ?)|[= -> ->]].
          -- exists a, b. rewrite Hadd. auto.
          -- exists src, tgt. rewrite Hadd. auto.
        * intros (a & b & [Hab|[-> ->]]%Hadd & Ha & Hb).
          -- left. eauto.
          -- right. congruence.
    - eexists. split; [done|]. split; [done|]. split; [|done].
      intros a b. rewrite He, elem_of_app, list_elem_of_singleton. split.
      + intros [?|(-> & ? & ?)]; auto.
      + intros [?|(-> & [?| ->] & ?)]; auto.
        destruct Htgt. by apply Hallowed. }
  destruct (foldM_invariant
    (fun st item => src ← dict_item item.1 (node_ids rows resolved);
                    foldM (inner src) st (w_referenced_works item.2))
    (fun done st => P done [] [] st) resolved (G, [])) as ([G' erows] & Hfold & HP).
  - split; [done|]. cbn [fst snd]. rewrite HE. split.
    + intros a b. rewrite elem_of_nil. split; [done|].
      intros [(n & w & Hin & _)|(_ & Hin & _)]; by apply elem_of_nil in Hin.
    + intros x y. rewrite elem_of_nil. split; [done|].
      intros (a & b & Hin & _). by apply elem_of_nil in Hin.
  - intros done [n w] st (Hn & He & Hr) Hin.
    destruct (resolved_item_row n w Hin) as (r & Hrow & <- & Hid).
    unfold dict_item. cbn [fst snd]. rewrite node_ids_get by done. cbn. rewrite Hid.
    destruct (Hinner done (w_id w) (w_referenced_works w) st) as (st' & Hst' & Hn' & He' & Hr').
    + rewrite <- Hid. apply list_elem_of_fmap. eauto.
    + split; [done|]. split; [|done]. intros a b. rewrite He. split.
      * intros [?|(_ & H & _)]; [by left|by apply elem_of_nil in H].
      * intros [?|(_ & H & _)]; [by left|by apply elem_of_nil in H].
    + exists st'. split; [done|]. split; [done|]. split; [|done].
      intros a b. rewrite He'. split.
      * intros [(n' & w' & Hin' & ?)|(-> & ? & ?)]; left.
        -- exists n', w'. rewrite elem_of_app. auto.
        -- exists (ref_no r), w. rewrite elem_of_app, list_elem_of_singleton. auto.
      * intros [(n' & w' & Hin' & -> & ? & ?)|(_ & H & _)].
        -- apply elem_of_app in Hin' as [Hin'|Hin'].
           ++ left. exists n', w'. auto.
           ++ apply list_elem_of_singleton in Hin'. injection Hin' as -> ->. right. auto.
        -- by apply elem_of_nil in H.
  - exists G', erows. replace (fun st item => _) with
      (fun (st : DiGraph * list (Z * Z)) (item : Z * OAWork) =>
         src ← dict_item item.1 (node_ids rows resolved);
         foldM (inner src) st (w_referenced_works item.2)) by done.
    split; [exact Hfold|]. destruct HP as (Hn & He & Hr). cbn [fst snd] in *.
    split; [done|]. split; [|done]. intros a b. rewrite He. split.
    + intros [?|(_ & H & _)]; [done|by apply elem_of_nil in H].
    + by left.
Qed.

(** The graph stage never raises; its nodes are the identities of the
    rows, and its edges the references of resolved works to such
    identities. *)
Lemma build_graph_spec :
  let ref_by_node_id := reverse_ids (node_ids rows resolved) in
  exists G edges_rows,
    build_graph rows resolved = Ok (node_ids rows resolved, G, edges_rows)
    /\ (forall nid, nid ∈ (g_nodes G).*1 <-> nid ∈ node_id_of resolved <$> rows)
    /\ (forall nid a, (nid, a) ∈ g_nodes G ->
          exists r, r ∈ rows /\ nid = node_id_of resolved r
            /\ a = Some (node_attrs r (dict_get (ref_no r) resolved)))
    /\ (forall a b, (a, b) ∈ g_edges G <->
          exists n w, (n, w) ∈ resolved /\ a = w_id w
            /\ b ∈ w_referenced_works w /\ b ∈ node_id_of resolved <$> rows)
    /\ (forall x y, (x, y) ∈ edges_rows <->
          exists a b, (a, b) ∈ g_edges G
            /\ dict_get a ref_by_node_id = Some x /\ dict_get b ref_by_node_id = Some y).
Proof.
  intros ref_by_node_id. unfold build_graph.
  destruct add_nodes_spec as (G0 & -> & HE & Hkeys & Hattrs). cbn.
  destruct (add_edges_spec G0 HE Hkeys) as (G & erows & -> & Hn & He & Hr). cbn.
  exists G, erows. split; [done|]. rewrite Hn. done.
Qed.

End GraphFacts.

(** ** The time-order check *)

Lemma time_order_violations_elem_of (edges_rows : list (Z * Z))
    (year_by_ref : odict Z (option Z)) (a b ya yb : Z) :
  (a, b, ya, yb) ∈ time_order_violations edges_rows year_by_ref <->
  (a, b) ∈ edges_rows
  /\ year_of year_by_ref a = Some ya /\ year_of year_by_ref b = Some yb
  /\ ya <> 0 /\ yb <> 0 /\ ya < yb.
Proof.
  unfold time_order_violations, year_of.
  set (step := fun (violations : list (Z * Z * Z * Z)) (e : Z * Z) => _).
  assert (forall es acc, (a, b, ya, yb) ∈ fold_left step es acc <->
            (a, b, ya, yb) ∈ acc
            \/ ((a, b) ∈ es
                /\ mjoin (dict_get a year_by_ref) = Some ya
                /\ mjoin (dict_get b year_by_ref) = Some yb
                /\ ya <> 0 /\ yb <> 0 /\ ya < yb)) as Hgen.
  { induction es as [|[a' b'] es IH]; intros acc; cbn [fold_left].
    - rewrite elem_of_nil. tauto.
    - rewrite IH, elem_of_cons. unfold step at 1.
      destruct (mjoin (dict_get a' year_by_ref)) as [ya'|] eqn:Ea;
        [destruct (mjoin (dict_get b' year_by_ref)) as [yb'|] eqn:Eb|].
      + destruct (negb (ya' =? 0) && negb (yb' =? 0) && (ya' <? yb')) eqn:Ec.
        * rewrite elem_of_app, list_elem_of_singleton. split.
          -- intros [[?|[= -> -> -> ->]]|?]; [tauto| |tauto].
             right. split; [by left|]. repeat split; try done; lia.
          -- intros [?|([[= -> ->]|?] & ? & ? & ?)]; [tauto| |tauto].
             left. right. congruence.
        * split; [tauto|]. intros [?|([[= -> ->]|?] & ? & ? & ?)]; [tauto| |tauto].
          assert (ya' = ya /\ yb' = yb) as [-> ->] by (split; congruence). lia.
      + split; [tauto|]. intros [?|([[= -> ->]|?] & ? & ? & ?)]; [tauto| |tauto]. congruence.
      + split; [tauto|]. intros [?|([[= -> ->]|?] & ? & ? & ?)]; [tauto| |tauto]. congruence. }
  rewrite Hgen, elem_of_nil. tauto.
Qed.

(** The year table: the year of the resolved work when it has one, the
    guess of the row otherwise. *)
Lemma years_fold_get (items : odict Z OAWork) (d : odict Z (option Z)) (n : Z) :
  NoDup items.*1 ->
  dict_get n (fold_left (fun d item =>
                           if truthy_int (w_year item.2)
                           then dict_set item.1 (w_year item.2) d else d) items d)
  = match dict_get n items with
    | Some w => if truthy_int (w_year w) then Some (w_year w) else dict_get n d
    | None => dict_get n d
    end.
Proof.
  revert d. induction items as [|[k w] items IH]; intros d Hnd; [done|].
  cbn [fmap list_fmap fst] in Hnd. apply NoDup_cons in Hnd as [Hk Hnd].
  cbn [fold_left dict_get fst snd]. rewrite IH by done.
  destruct (decide (n = k)) as [->|Hne].
  - apply dict_get_None in Hk. rewrite Hk.
    destruct (truthy_int (w_year w)); [by rewrite dict_get_set_eq|done].
  - destruct (dict_get n items) as [w'|]; [destruct (truthy_int (w_year w'))|];
      try done; destruct (truthy_int (w_year w)); by rewrite ?dict_get_set_ne.
Qed.

Lemma years_by_ref_row (rows : list Row) (resolved : odict Z OAWork) (r : Row) :
  NoDup (ref_no <$> rows) -> NoDup resolved.*1 -> r ∈ rows ->
  year_of (years_by_ref rows resolved) (ref_no r) = best_year resolved r.
Proof.
  intros Hrows Hres Hr. unfold year_of, years_by_ref, best_year.
  rewrite years_fold_get by done.
  assert (dict_get (ref_no r) (dict_of ((fun r => (ref_no r, pub_year_guess r)) <$> rows))
          = Some (pub_year_guess r)) as Hbase.
  { rewrite dict_of_distinct by by rewrite <- list_fmap_compose.
    apply dict_elem_of_get; [by rewrite <- list_fmap_compose|].
    apply list_elem_of_fmap. eauto. }
  rewrite Hbase. destruct (dict_get (ref_no r) resolved) as [w|]; [|done].
  by destruct (truthy_int (w_year w)).
Qed.

Lemma years_by_ref_keys (rows : list Row) (resolved : odict Z OAWork) (n : Z) :
  NoDup resolved.*1 -> (forall k, k ∈ resolved.*1 -> k ∈ ref_no <$> rows) ->
  n ∉ ref_no <$> rows -> year_of (years_by_ref rows resolved) n = None.
Proof.
  intros Hres Hsub Hn. unfold year_of, years_by_ref. rewrite years_fold_get by done.
  assert (dict_get n resolved = None) as ->.
  { apply dict_get_None. intros H. by apply Hn, Hsub. }
  assert (dict_get n (dict_of ((fun r => (ref_no r, pub_year_guess r)) <$> rows)) = None)
    as ->; [|done].
  apply dict_get_None. rewrite dict_of_keys, <- list_fmap_compose. done.
Qed.

Lemma best_year_nonzero (resolved : odict Z OAWork) (r : Row) :
  pub_year_guess r <> Some 0 -> best_year resolved r <> Some 0.
Proof.
  intros Hg. unfold best_year. destruct (dict_get (ref_no r) resolved) as [w|]; [|done].
  destruct (w_year w) as [y|] eqn:E; cbn; [|done].
  destruct (Z.eqb_spec y 0); cbn; [done|]. congruence.
Qed.

(** The [pub_year] attribute of a node is the best-known year. *)
Lemma node_attrs_pub_year (resolved : odict Z OAWork) (r : Row) :
  pub_year_guess r <> Some 0 ->
  n_pub_year (node_attrs r (dict_get (ref_no r) resolved)) = best_year resolved r.
Proof.
  intros Hg. pose proof (best_year_nonzero resolved r Hg) as Hb.
  unfold best_year in *. cbn [node_attrs n_pub_year].
  destruct (dict_get (ref_no r) resolved) as [w|].
  - destruct (truthy_int (w_year w)) eqn:E; [by rewrite E|].
    destruct (pub_year_guess r) as [y|]; [|done]. cbn.
    destruct (Z.eqb_spec y 0); [congruence|done].
  - destruct (pub_year_guess r) as [y|]; [|done]. cbn.
    destruct (Z.eqb_spec y 0); [congruence|done].
Qed.

(** ** The whole run *)

Section RunFacts.
Context {U : UnicodeDB} {service : OpenAlex} {host : Host}.

(** A round of the loop finds what the service answers, when the wait is
    accepted; it raises when the wait is refused. *)
Lemma resolve_round_accepted (r : Row) :
  sleep_accepted = true -> resolve_round r = Ok (resolve_row r).
Proof.
  intros Hs. unfold resolve_round, resolve_row, client_call. rewrite Hs.
  destruct (doi r) as [d|]; cbn [mbind result_bind].
  - destruct (truthy_str d); cbn [mbind result_bind].
    + destruct (oa_work_by_doi d) as [j|]; cbn [mbind result_bind fmap option_fmap option_map];
        [done|].
      by destruct (oa_search_by_title_year (title r) (pub_year_guess r)) as [[|? ?]|].
    + by destruct (oa_search_by_title_year (title r) (pub_year_guess r)) as [[|? ?]|].
  - by destruct (oa_search_by_title_year (title r) (pub_year_guess r)) as [[|? ?]|].
Qed.

Lemma resolve_round_refused (r : Row) :
  sleep_accepted = false -> resolve_round r = Raise SleepRefused.
Proof.
  intros Hs. unfold resolve_round, client_call. rewrite Hs.
  destruct (doi r) as [d|]; cbn [mbind result_bind]; [|done].
  by destruct (truthy_str d).
Qed.

Lemma resolve_loop_accepted (rows : list Row) :
  sleep_accepted = true -> resolve_loop rows = Ok (resolve_all rows).
Proof.
  intros Hs. unfold resolve_loop, resolve_all. generalize (@nil (Z * OAWork), @nil Z).
  induction rows as [|r rows IH]; intros st; cbn [foldM fold_left]; [done|].
  rewrite resolve_round_accepted by done. cbn [mbind result_bind].
  rewrite IH. by destruct (resolve_row r).
Qed.

Lemma resolve_loop_refused (rows : list Row) :
  sleep_accepted = false -> rows <> [] -> resolve_loop rows = Raise SleepRefused.
Proof.
  intros Hs Hne. destruct rows as [|r rows]; [done|].
  unfold resolve_loop. cbn [foldM]. by rewrite resolve_round_refused.
Qed.

Lemma resolve_loop_Ok (rows : list Row) (found : odict Z OAWork * list Z) :
  resolve_loop rows = Ok found ->
  found = resolve_all rows /\ (rows <> [] -> sleep_accepted = true).
Proof.
  destruct sleep_accepted eqn:Hs.
  - rewrite resolve_loop_accepted by done. intros [= <-]. done.
  - destruct rows as [|r rows].
    + intros [= <-]. done.
    + by rewrite resolve_loop_refused.
Qed.

Lemma resolve_loop_Raise (rows : list Row) (e : exn) :
  resolve_loop rows = Raise e -> e = SleepRefused /\ sleep_accepted = false.
Proof.
  destruct sleep_accepted eqn:Hs.
  - by rewrite resolve_loop_accepted.
  - destruct rows as [|r rows]; [done|].
    rewrite resolve_loop_refused by done. intros [= <-]. done.
Qed.

(** The export stage writes the three files or raises. *)
Lemma export_Raise (G : DiGraph) (edges_rows : list (Z * Z)) (e : exn) :
  export G edges_rows = Raise e -> e = WriteFailed \/ nodes_csv G = Raise e.
Proof.
  unfold export. destruct (write_graphml G); [|intros [= <-]; by left].
  destruct (nodes_csv G) as [t|e']; cbn [mbind result_bind]; [|intros [= <-]; by right].
  destruct (nodes_to_csv t); [|intros [= <-]; by left].
  destruct (edges_to_csv edges_rows); [done|intros [= <-]; by left].
Qed.

(** The stages of a run that ends normally. *)
Lemma main_stages (rtf select : pystr) (out : Output) :
  main rtf select = Ok out ->
  exists txt,
    rtf_to_text rtf = Ok txt
    /\ split_numbered_refs txt = Ok (out_refs out)
    /\ out_refs out <> []
    /\ parse_selection select (list_to_set (dict_of (out_refs out)).*1) = Ok (out_chosen out)
    /\ mapM (make_row (dict_of (out_refs out))) (out_chosen out) = Ok (out_rows out)
    /\ resolve_all (out_rows out) = (out_resolved out, out_unresolved out)
    /\ build_graph (out_rows out) (out_resolved out)
       = Ok (out_node_id_by_ref out, out_graph out, out_edges_rows out)
    /\ out_year_by_ref out = years_by_ref (out_rows out) (out_resolved out)
    /\ out_violations out = time_order_violations (out_edges_rows out) (out_year_by_ref out)
    /\ n_found out = length (out_refs out)
    /\ n_chosen out = length (out_chosen out)
    /\ n_resolved out = length (out_resolved out)
    /\ n_nodes out = length (g_nodes (out_graph out))
    /\ n_edges out = length (g_edges (out_graph out)).
Proof.
  unfold main. intros H.
  destruct (rtf_to_text rtf) as [txt|] eqn:Etxt; [|done]. cbn [mbind result_bind] in H.
  destruct (split_numbered_refs txt) as [refs|] eqn:Erefs; [|done].
  cbn [mbind result_bind] in H.
  case_bool_decide as Hne; [done|].
  destruct (parse_selection select _) as [chosen|] eqn:Esel; [|done].
  cbn [mbind result_bind] in H.
  destruct (mapM (make_row (dict_of refs)) chosen) as [rows|] eqn:Erows; [|done].
  cbn [mbind result_bind] in H.
  destruct (resolve_loop rows) as [[resolved unresolved]|] eqn:Eres; [|done].
  cbn [mbind result_bind] in H.
  destruct (build_graph rows resolved) as [[[nids G] erows]|] eqn:Eg; [|done].
  cbn [mbind result_bind] in H.
  destruct (export G erows) as [table|] eqn:Ex; [|done].
  cbn [mbind result_bind] in H. injection H as <-. cbn.
  apply resolve_loop_Ok in Eres as [Eres _].
  exists txt. repeat split; done.
Qed.

(** The facts of a run that ends normally. *)
Lemma main_facts (rtf select : pystr) (out : Output) :
  main rtf select = Ok out ->
  let rows := out_rows out in
  let resolved := out_resolved out in
  NoDup (ref_no <$> rows)
  /\ ref_no <$> rows = out_chosen out
  /\ Forall (row_of (dict_of (out_refs out))) rows
  /\ resolved = resolved_of rows
  /\ out_unresolved out = unresolved_of rows
  /\ NoDup resolved.*1
  /\ (forall n, n ∈ resolved.*1 -> n ∈ ref_no <$> rows)
  /\ out_node_id_by_ref out = node_ids rows resolved
  /\ graph_facts rows resolved (out_graph out) (out_edges_rows out).
Proof.
  intros (txt & _ & _ & _ & Hsel & Hrows & Hres & Hg & _)%main_stages rows resolved.
  apply parse_selection_sorted in Hsel as (_ & Hnd & _).
  apply make_rows_Ok in Hrows as [Hnos Hrows]. fold rows in Hnos, Hrows.
  rewrite <- Hnos in Hnd.
  rewrite resolve_all_spec in Hres by done. injection Hres as Hres Hunres.
  fold rows resolved in Hres, Hunres, Hg.
  assert (NoDup resolved.*1) as Hrnd by (rewrite <- Hres; by apply resolved_of_NoDup).
  assert (forall n, n ∈ resolved.*1 -> n ∈ ref_no <$> rows) as Hsub.
  { intros n. rewrite <- Hres. apply resolved_of_keys. }
  destruct (build_graph_spec rows resolved Hnd Hrnd Hsub) as (G & erows & Hg' & Hfacts).
  rewrite Hg in Hg'. injection Hg' as -> -> ->.
  split; [done|]. split; [done|]. split; [done|]. split; [done|]. split; [done|].
  split; [done|]. split; [done|]. split; [done|]. exact Hfacts.
Qed.

(** The graph stage of a run never fails and leaves a graph with a node. *)
Lemma run_build_graph (refs : list (Z * pystr)) (select : pystr) (chosen : list Z)
    (rows : list Row) :
  refs <> [] ->
  parse_selection select (list_to_set (dict_of refs).*1) = Ok chosen ->
  mapM (make_row (dict_of refs)) chosen = Ok rows ->
  rows <> []
  /\ exists G edges_rows,
       build_graph rows (resolve_all rows).1
       = Ok (node_ids rows (resolve_all rows).1, G, edges_rows)
       /\ g_nodes G <> [].
Proof.
  intros Hne Hsel Hrows.
  assert (chosen <> []) as Hch.
  { apply (parse_selection_nonempty _ _ _ Hsel).
    destruct refs as [|[n raw0] refs]; [done|]. intros Hempty.
    assert (n ∈ (list_to_set (dict_of ((n, raw0) :: refs)).*1 : gset Z)) as Hin.
    { apply elem_of_list_to_set, dict_of_keys. cbn. left. }
    rewrite Hempty in Hin. by apply elem_of_empty in Hin. }
  apply parse_selection_sorted in Hsel as (_ & Hnd & _).
  apply make_rows_Ok in Hrows as [Hnos _]. rewrite <- Hnos in Hnd.
  assert (rows <> []) as Hrne by (intros ->; done).
  split; [done|].
  rewrite resolve_all_spec by done. cbn [fst].
  destruct (build_graph_spec rows (resolved_of rows) Hnd) as (G & erows & HG & Hnodes & _).
  - by apply resolved_of_NoDup.
  - apply resolved_of_keys.
  - exists G, erows. split; [done|].
    destruct rows as [|r rows]; [done|].
    assert (node_id_of (resolved_of (r :: rows)) r ∈ (g_nodes G).*1) as Hin.
    { apply Hnodes. rewrite fmap_cons. left. }
    intros HG0. rewrite HG0 in Hin. by apply elem_of_nil in Hin.
Qed.

(** Once the files are written the run ends normally, whatever the check
    finds, with the graph and the table of edges that were written. *)
Lemma main_after_export (rtf select txt : pystr) (refs : list (Z * pystr))
    (chosen : list Z) (rows : list Row) (resolved : odict Z OAWork) (unresolved : list Z)
    (ids : odict Z pystr) (G : DiGraph) (edges_rows : list (Z * Z))
    (table : list node_row) :
  rtf_to_text rtf = Ok txt ->
  split_numbered_refs txt = Ok refs ->
  refs <> [] ->
  parse_selection select (list_to_set (dict_of refs).*1) = Ok chosen ->
  mapM (make_row (dict_of refs)) chosen = Ok rows ->
  resolve_loop rows = Ok (resolved, unresolved) ->
  build_graph rows resolved = Ok (ids, G, edges_rows) ->
  export G edges_rows = Ok table ->
  exists out, main rtf select = Ok out
    /\ out_graph out = G /\ out_edges_rows out = edges_rows
    /\ out_violations out
       = time_order_violations edges_rows (years_by_ref rows resolved).
Proof.
  intros Htxt Hrefs Hne Hsel Hrows Hres Hg Hx. unfold main.
  rewrite Htxt. cbn [mbind result_bind]. rewrite Hrefs. cbn [mbind result_bind].
  rewrite bool_decide_eq_false_2 by done. rewrite Hsel. cbn [mbind result_bind].
  rewrite Hrows. cbn [mbind result_bind]. rewrite Hres. cbn [mbind result_bind].
  rewrite Hg. cbn [mbind result_bind]. rewrite Hx. cbn [mbind result_bind].
  eexists. split; [done|]. done.
Qed.

(** How a run can fail: in the conversion to text, in the segmenter, for
    want of references, in the selection, at the first wait of the client
    or in a writer. *)
Lemma main_Raise (rtf select : pystr) (e : exn) :
  main rtf select = Raise e ->
  rtf_to_text rtf = Raise e
  \/ (exists txt, rtf_to_text rtf = Ok txt /\ split_numbered_refs txt = Raise e)
  \/ e = NoReferences
  \/ (exists txt refs, rtf_to_text rtf = Ok txt /\ split_numbered_refs txt = Ok refs
        /\ refs <> []
        /\ parse_selection select (list_to_set (dict_of refs).*1) = Raise e)
  \/ (e = SleepRefused /\ sleep_accepted = false)
  \/ e = WriteFailed.
Proof.
  unfold main.
  destruct (rtf_to_text rtf) as [txt|e0] eqn:Etxt; cbn [mbind result_bind];
    [|intros [= <-]; by left].
  destruct (split_numbered_refs txt) as [refs|e0] eqn:Erefs; cbn [mbind result_bind];
    [|intros [= <-]; right; left; eauto].
  case_bool_decide as Hne; [intros [= <-]; tauto|].
  destruct (parse_selection select _) as [chosen|e0] eqn:Esel; cbn [mbind result_bind];
    [|intros [= <-]; do 3 right; left; eauto 10].
  destruct (make_rows_total (dict_of refs) chosen) as [rows Hrows].
  { apply parse_selection_sorted in Esel as (_ & _ & Hin).
    intros n Hn%Hin. by apply elem_of_list_to_set in Hn. }
  rewrite Hrows. cbn [mbind result_bind].
  destruct (resolve_loop rows) as [[resolved unresolved]|e0] eqn:Eres;
    cbn [mbind result_bind];
    [|intros [= <-]; apply resolve_loop_Raise in Eres; tauto].
  apply resolve_loop_Ok in Eres as [Eres _].
  destruct (run_build_graph refs select chosen rows Hne Esel Hrows)
    as (_ & G & erows & HG & HG0).
  rewrite <- Eres in HG. cbn [fst] in HG. rewrite HG. cbn [mbind result_bind].
  destruct (export G erows) as [table|e0] eqn:Ex; cbn [mbind result_bind]; [done|].
  intros [= <-]. apply export_Raise in Ex as [->|Hcsv]; [tauto|].
  unfold nodes_csv in Hcsv. by destruct (g_nodes G).
Qed.

End RunFacts.

(** ** The claims about the run *)

Section RunClaims.
Context {U : UnicodeDB} {service : OpenAlex} {host : Host}.

(** C9. When several blocks of the document carry the same number, the
    entry of that number is the text of the last such block: each row has
    the raw text of the last block with its number, its fields are
    extracted from that text and its resolution is the resolution of that
    row, while the count of references found is the number of blocks. *)
Theorem duplicate_numbers_keep_last (rtf select : pystr) (out : Output) :
  main rtf select = Ok out ->
  (exists txt, rtf_to_text rtf = Ok txt /\ split_numbered_refs txt = Ok (out_refs out))
  /\ n_found out = length (out_refs out)
  /\ forall r, r ∈ out_rows out ->
       (exists pre post, out_refs out = pre ++ (ref_no r, raw r) :: post
                         /\ ref_no r ∉ post.*1)
       /\ doi r = extract_doi (raw r)
       /\ title r = extract_title (raw r)
       /\ extract_pub_year (raw r) = Ok (pub_year_guess r)
       /\ dict_get (ref_no r) (out_resolved out) = resolve_row r.
Proof.
  intros Hmain. pose proof (main_stages _ _ _ Hmain) as (txt & Htxt & Hrefs & Hrest).
  destruct Hrest as (_ & _ & _ & _ & _ & _ & _ & Hfound & _).
  pose proof (main_facts _ _ _ Hmain) as (Hnd & _ & Hrows & Hres & _).
  split; [eauto|]. split; [done|]. intros r Hr.
  rewrite Forall_forall in Hrows. destruct (Hrows r Hr) as (Hraw & _ & Hdoi & Htitle & Hyear).
  split; [by apply dict_of_last|]. split; [done|]. split; [done|]. split; [done|].
  rewrite Hres. by apply resolved_of_get.
Qed.

(** C1. In the graph of a run, the nodes are the identities given to the
    chosen references, each with the attributes of a chosen reference;
    both ends of every edge are nodes, and both numbers of every row of
    the edge table are chosen references; the edges are exactly the
    references of resolved works to identities that are nodes, so a
    reference to a work outside the selection adds nothing. *)
Theorem edges_within_selection (rtf select : pystr) (out : Output) :
  main rtf select = Ok out ->
  let G := out_graph out in
  let node_of n nid := dict_get n (out_node_id_by_ref out) = Some nid in
  (forall nid, nid ∈ (g_nodes G).*1 <-> exists n, n ∈ out_chosen out /\ node_of n nid)
  /\ (forall nid a, (nid, a) ∈ g_nodes G ->
        exists attrs, a = Some attrs /\ n_ref_no attrs ∈ out_chosen out
                      /\ node_of (n_ref_no attrs) nid)
  /\ (forall a b, (a, b) ∈ g_edges G -> a ∈ (g_nodes G).*1 /\ b ∈ (g_nodes G).*1)
  /\ (forall x y, (x, y) ∈ out_edges_rows out -> x ∈ out_chosen out /\ y ∈ out_chosen out)
  /\ (forall a b, (a, b) ∈ g_edges G <->
        exists n w, (n, w) ∈ out_resolved out /\ a = w_id w
                    /\ b ∈ w_referenced_works w /\ b ∈ (g_nodes G).*1).
Proof.
  intros Hmain G node_of.
  pose proof (main_facts _ _ _ Hmain)
    as (Hnd & Hnos & _ & _ & _ & Hrnd & Hsub & Hnids & Hnodes & Hattrs & Hedges & Herows).
  fold G in Hnodes, Hattrs, Hedges, Herows.
  set (rows := out_rows out) in *. set (resolved := out_resolved out) in *.
  assert (forall r, r ∈ rows -> ref_no r ∈ out_chosen out) as Hchosen.
  { intros r Hr. rewrite <- Hnos. apply list_elem_of_fmap. eauto. }
  assert (forall n nid, node_of n nid ->
            exists r, r ∈ rows /\ ref_no r = n /\ node_id_of resolved r = nid) as Hnode_inv.
  { intros n nid Hn. unfold node_of in Hn. rewrite Hnids in Hn.
    by apply dict_get_elem_of, node_ids_elem_of in Hn. }
  assert (forall r, r ∈ rows -> node_of (ref_no r) (node_id_of resolved r)) as Hnode.
  { intros r Hr. unfold node_of. rewrite Hnids. by apply node_ids_get. }
  assert (forall a n w, (n, w) ∈ resolved -> a = w_id w -> a ∈ (g_nodes G).*1) as Hsrc.
  { intros a n w Hin ->. apply Hnodes.
    destruct (resolved_item_row rows resolved Hrnd Hsub n w Hin) as (r & Hr & _ & <-).
    apply list_elem_of_fmap. eauto. }
  split; [|split; [|split; [|split]]].
  - intros nid. rewrite Hnodes, list_elem_of_fmap. split.
    + intros (r & -> & Hr). exists (ref_no r). auto.
    + intros (n & _ & (r & Hr & _ & <-)%Hnode_inv). eauto.
  - intros nid a (r & Hr & -> & ->)%Hattrs. eexists. split; [done|].
    cbn [node_attrs n_ref_no]. auto.
  - intros a b (n & w & Hin & Ha & _ & Hb)%Hedges. split; [by eapply Hsrc|by apply Hnodes].
  - intros x y (a & b & _ & Ha & Hb)%Herows.
    apply reverse_ids_get, (node_ids_elem_of rows resolved Hnd) in Ha as (ra & Hra & <- & _).
    apply reverse_ids_get, (node_ids_elem_of rows resolved Hnd) in Hb as (rb & Hrb & <- & _).
    auto.
  - intros a b. rewrite Hedges. split.
    + intros (n & w & ? & ? & ? & ?). exists n, w. by rewrite Hnodes.
    + intros (n & w & ? & ? & ? & ?). exists n, w. by rewrite <- Hnodes.
Qed.

Lemma unresolved_id_inj (n m : Z) : unresolved_id n = unresolved_id m -> n = m.
Proof.
  unfold unresolved_id. intros H%app_inv_head%py_inj. by apply (inj pretty) in H.
Qed.

Lemma unresolved_id_placeholder (n : Z) : is_placeholder (unresolved_id n) = true.
Proof. unfold is_placeholder, unresolved_id. apply startswith_spec. eauto. Qed.

(** C2, as amended.  A reference that failed resolution is a node of the
    graph under the placeholder of its number, a text that depends on the
    number alone and determines it; every edge starts at the identity of
    a resolved work, whose number is not among the unresolved; as long as
    the service yields no identity and no referenced identity of the
    placeholder form, no edge starts or ends at a placeholder node; but a
    referenced identity that is the placeholder of an unresolved
    reference of the run is taken for the node of that reference, and
    the edge to it is added to the graph and to the table of edges. *)
Theorem placeholder_nodes (rtf select : pystr) (out : Output) :
  main rtf select = Ok out ->
  (forall n, n ∈ out_unresolved out ->
     n ∈ out_chosen out
     /\ dict_get n (out_resolved out) = None
     /\ dict_get n (out_node_id_by_ref out) = Some (unresolved_id n)
     /\ unresolved_id n ∈ (g_nodes (out_graph out)).*1)
  /\ (forall n m, unresolved_id n = unresolved_id m -> n = m)
  /\ (forall a b, (a, b) ∈ g_edges (out_graph out) ->
        exists n w, (n, w) ∈ out_resolved out /\ a = w_id w /\ n ∉ out_unresolved out)
  /\ ((forall n w, (n, w) ∈ out_resolved out ->
         is_placeholder (w_id w) = false
         /\ Forall (fun t => is_placeholder t = false) (w_referenced_works w)) ->
      forall n a b, n ∈ out_unresolved out -> (a, b) ∈ g_edges (out_graph out) ->
        a <> unresolved_id n /\ b <> unresolved_id n)
  /\ (forall n m w, n ∈ out_unresolved out -> (m, w) ∈ out_resolved out ->
        unresolved_id n ∈ w_referenced_works w ->
        (w_id w, unresolved_id n) ∈ g_edges (out_graph out)
        /\ exists x y, (x, y) ∈ out_edges_rows out
             /\ dict_get x (out_node_id_by_ref out) = Some (w_id w)
             /\ dict_get y (out_node_id_by_ref out) = Some (unresolved_id n)).
Proof.
  intros Hmain.
  pose proof (main_facts _ _ _ Hmain)
    as (Hnd & Hnos & _ & Hres & Hunres & Hrnd & Hsub & Hnids & Hnodes & _ & Hedges & Herows).
  set (rows := out_rows out) in *. set (resolved := out_resolved out) in *.
  assert (forall n, n ∈ out_unresolved out ->
            exists r, r ∈ rows /\ ref_no r = n /\ dict_get n resolved = None) as Hun.
  { intros n. rewrite Hunres. intros (r & Hr & <- & Hnone)%unresolved_of_elem_of.
    exists r. split; [done|]. split; [done|].
    rewrite Hres, resolved_of_get by done. done. }
  split; [|split; [exact unresolved_id_inj|split; [|split]]].
  - intros n (r & Hr & <- & Hnone)%Hun. split; [|split; [done|split]].
    + rewrite <- Hnos. apply list_elem_of_fmap. eauto.
    + rewrite Hnids, node_ids_get by done. unfold node_id_of. by rewrite Hnone.
    + apply Hnodes, list_elem_of_fmap. exists r. split; [|done].
      unfold node_id_of. fold resolved. by rewrite Hnone.
  - intros a b (n & w & Hin & -> & _)%Hedges. exists n, w. split; [done|]. split; [done|].
    intros (r & _ & _ & Hnone)%Hun.
    rewrite (dict_elem_of_get _ _ _ Hrnd Hin) in Hnone. done.
  - intros Hclean n a b _ (m & w & Hin & -> & Hb & _)%Hedges.
    destruct (Hclean m w Hin) as [Hid Hrefs]. rewrite Forall_forall in Hrefs.
    pose proof (unresolved_id_placeholder n) as Hp.
    split; intros Heq; rewrite <- Heq in Hp; [congruence|].
    rewrite Hrefs in Hp by done. done.
  - intros n m w (r & Hr & <- & Hnone)%Hun Hin Href.
    assert ((w_id w, unresolved_id (ref_no r)) ∈ g_edges (out_graph out)) as Hedge.
    { apply Hedges. exists m, w. split; [done|]. split; [done|]. split; [done|].
      apply list_elem_of_fmap. exists r. split; [|done].
      unfold node_id_of. fold resolved. by rewrite Hnone. }
    split; [done|].
    assert (w_id w ∈ node_id_of resolved <$> rows) as Ha.
    { destruct (resolved_item_row rows resolved Hrnd Hsub m w Hin) as (r' & Hr' & _ & <-).
      apply list_elem_of_fmap. eauto. }
    assert (unresolved_id (ref_no r) ∈ node_id_of resolved <$> rows) as Hb.
    { apply list_elem_of_fmap. exists r. split; [|done].
      unfold node_id_of. fold resolved. by rewrite Hnone. }
    destruct (reverse_ids_row rows resolved Hnd (w_id w) Ha) as (ra & Hxa & Hra & Hida).
    destruct (reverse_ids_row rows resolved Hnd _ Hb) as (rb & Hxb & Hrb & Hidb).
    exists (ref_no ra), (ref_no rb). rewrite Hnids, !node_ids_get by done.
    split; [|by rewrite Hida, Hidb].
    apply Herows. eauto.
Qed.

(** The years of a run are never zero. *)
Lemma run_years_nonzero (rtf select : pystr) (out : Output) (n : Z) :
  main rtf select = Ok out -> year_of (out_year_by_ref out) n <> Some 0.
Proof.
  intros Hmain.
  pose proof (main_stages _ _ _ Hmain) as (_ & _ & _ & _ & _ & _ & _ & _ & -> & _).
  pose proof (main_facts _ _ _ Hmain) as (Hnd & _ & Hrows & _ & _ & Hrnd & Hsub & _).
  destruct (decide (n ∈ ref_no <$> out_rows out)) as [(r & -> & Hr)%list_elem_of_fmap|Hn].
  - rewrite years_by_ref_row by done. apply best_year_nonzero.
    rewrite Forall_forall in Hrows. destruct (Hrows r Hr) as (_ & _ & _ & _ & Hy).
    destruct (extract_pub_year_Ok (raw r)) as (o & Ho & Hrange).
    rewrite Hy in Ho. injection Ho as <-. intros H0. apply Hrange in H0. lia.
  - by rewrite years_by_ref_keys.
Qed.

(** C8. An edge of the table is flagged, with the two numbers and the two
    years, exactly when both years are known and the citing year is
    strictly earlier than the cited one; the year of a chosen reference is
    its best-known year, the [pub_year] of its node; a flagged edge is
    still in the table; and the check cannot make the run fail: once the
    graph is built and the files are written the run ends normally,
    whatever the check finds, with the graph and the table of edges that
    were written. *)
Theorem time_order_check :
  (forall (edges_rows : list (Z * Z)) (year_by_ref : odict Z (option Z)),
     (forall n, year_of year_by_ref n <> Some 0) ->
     forall a b ya yb,
       (a, b, ya, yb) ∈ time_order_violations edges_rows year_by_ref <->
       (a, b) ∈ edges_rows
       /\ year_of year_by_ref a = Some ya /\ year_of year_by_ref b = Some yb /\ ya < yb)
  /\ (forall (rtf select : pystr) (out : Output),
        main rtf select = Ok out ->
        (forall r, r ∈ out_rows out ->
           year_of (out_year_by_ref out) (ref_no r) = best_year (out_resolved out) r
           /\ n_pub_year (node_attrs r (dict_get (ref_no r) (out_resolved out)))
              = best_year (out_resolved out) r)
        /\ (forall a b ya yb,
              (a, b, ya, yb) ∈ out_violations out <->
              (a, b) ∈ out_edges_rows out
              /\ year_of (out_year_by_ref out) a = Some ya
              /\ year_of (out_year_by_ref out) b = Some yb /\ ya < yb))
  /\ (forall A B : Z, A <> B ->
        time_order_violations [(A, B)] [(A, Some 2010); (B, Some 2015)]
        = [(A, B, 2010, 2015)]
        /\ time_order_violations [(A, B)] [(A, Some 2020); (B, Some 2015)] = [])
  /\ (forall (rtf select txt : pystr) (refs : list (Z * pystr)) (chosen : list Z)
         (rows : list Row) (resolved : odict Z OAWork) (unresolved : list Z)
         (ids : odict Z pystr) (G : DiGraph) (edges_rows : list (Z * Z))
         (table : list node_row),
        rtf_to_text rtf = Ok txt ->
        split_numbered_refs txt = Ok refs ->
        refs <> [] ->
        parse_selection select (list_to_set (dict_of refs).*1) = Ok chosen ->
        mapM (make_row (dict_of refs)) chosen = Ok rows ->
        resolve_loop rows = Ok (resolved, unresolved) ->
        build_graph rows resolved = Ok (ids, G, edges_rows) ->
        export G edges_rows = Ok table ->
        exists out, main rtf select = Ok out
          /\ out_graph out = G /\ out_edges_rows out = edges_rows
          /\ out_violations out
             = time_order_violations edges_rows (years_by_ref rows resolved)).
Proof.
  assert (forall (edges_rows : list (Z * Z)) (year_by_ref : odict Z (option Z)),
            (forall n, year_of year_by_ref n <> Some 0) ->
            forall a b ya yb,
              (a, b, ya, yb) ∈ time_order_violations edges_rows year_by_ref <->
              (a, b) ∈ edges_rows
              /\ year_of year_by_ref a = Some ya /\ year_of year_by_ref b = Some yb
              /\ ya < yb) as Hcheck.
  { intros edges_rows year_by_ref Hnz a b ya yb.
    rewrite time_order_violations_elem_of. split; [tauto|].
    intros (? & Ha & Hb & ?). repeat split; try done.
    - intros ->. by apply (Hnz a).
    - intros ->. by apply (Hnz b). }
  split; [exact Hcheck|split; [|split; [|exact main_after_export]]].
  - intros rtf select out Hmain.
    pose proof (main_stages _ _ _ Hmain) as (_ & _ & _ & _ & _ & _ & _ & _ & Hy & Hv & _).
    pose proof (main_facts _ _ _ Hmain) as (Hnd & _ & Hrows & _ & _ & Hrnd & _).
    split.
    + intros r Hr. rewrite Hy. split; [by apply years_by_ref_row|].
      apply node_attrs_pub_year.
      rewrite Forall_forall in Hrows. destruct (Hrows r Hr) as (_ & _ & _ & _ & Hg).
      destruct (extract_pub_year_Ok (raw r)) as (o & Ho & Hrange).
      rewrite Hg in Ho. injection Ho as <-. intros H0. apply Hrange in H0. lia.
    + intros a b ya yb. rewrite Hv. apply Hcheck.
      intros n. by eapply run_years_nonzero.
  - intros A B HAB. unfold time_order_violations. cbn [fold_left dict_get].
    destruct (decide (A = A)); [|done]. destruct (decide (B = A)); [congruence|].
    destruct (decide (B = B)); [|done]. done.
Qed.

Lemma py_int_Raise (s : pystr) (e : exn) : py_int s = Raise e -> e = InvalidLiteral s.
Proof. unfold py_int. destruct (int_signed _); [done|]. by intros [= <-]. Qed.

Lemma piece_bounds_Raise (p : pystr) (e : exn) :
  piece_bounds p = Raise e -> exists lit, e = InvalidLiteral lit.
Proof.
  unfold piece_bounds. case_bool_decide.
  - destruct (py_int (takewhile _ p)) as [a|e1] eqn:Ea; cbn.
    + destruct (py_int (drop 1 _)) as [b|e2] eqn:Eb; cbn; [done|].
      intros [= <-]. apply py_int_Raise in Eb. eauto.
    + intros [= <-]. apply py_int_Raise in Ea. eauto.
  - destruct (py_int p) as [x|e1] eqn:Ex; cbn; [done|].
    intros [= <-]. apply py_int_Raise in Ex. eauto.
Qed.

(** A loop over pieces fails as soon as one piece fails. *)
Lemma mapM_piece_bounds_Raise (pieces : list pystr) (p : pystr) (e : exn) :
  p ∈ pieces -> piece_bounds p = Raise e ->
  exists lit, mapM piece_bounds pieces = Raise (InvalidLiteral lit).
Proof.
  induction pieces as [|q pieces IH]; intros Hin Hp; [by apply elem_of_nil in Hin|].
  cbn [mapM]. destruct (piece_bounds q) as [b|e1] eqn:Eq; cbn.
  - apply elem_of_cons in Hin as [->|Hin]; [congruence|].
    destruct (IH Hin Hp) as [lit Hlit].
    change (mapM piece_bounds pieces) with (mapM piece_bounds pieces) in Hlit.
    rewrite Hlit. cbn. eauto.
  - apply piece_bounds_Raise in Eq as [lit ->]. eauto.
Qed.

(** C6, as amended.  [all] returns the sorted available set and raises
    nothing, whatever that set; for any other selection, when every piece
    is well formed the selection error is raised exactly when no available
    number is named, and it is the only error then; a piece that is not
    well formed makes [int] raise, it is not skipped; and in a run the
    chosen list is never empty. *)
Theorem parse_selection_errors :
  (forall (selection : pystr) (A : gset Z),
     lower (strip selection) = py "all" -> parse_selection selection A = Ok (sorted A))
  /\ (forall (selection : pystr) (A : gset Z),
        lower (strip selection) <> py "all" ->
        (forall bounds, mapM piece_bounds (selection_pieces selection) = Ok bounds ->
           (parse_selection selection A = Raise SelectionEmpty <->
            forall x, x ∈ A -> ~ named bounds x)
           /\ (forall e, parse_selection selection A = Raise e -> e = SelectionEmpty)
           /\ (forall l, parse_selection selection A = Ok l -> l <> []))
        /\ (forall p e, p ∈ selection_pieces selection -> piece_bounds p = Raise e ->
              exists lit, parse_selection selection A = Raise (InvalidLiteral lit)))
  /\ (forall (rtf select : pystr) (out : Output),
        main rtf select = Ok out -> out_chosen out <> [])
  /\ parse_selection (py "99") (list_to_set [1; 2; 3]) = Raise SelectionEmpty
  /\ parse_selection (py "1,x") (list_to_set [1; 2; 3]) = Raise (InvalidLiteral (py "x")).
Proof.
  split; [|split; [|split; [|split; vm_compute; reflexivity]]].
  - intros selection A H. unfold parse_selection. by rewrite bool_decide_eq_true_2.
  - intros selection A Hall.
    pose proof (parse_selection_pieces selection A Hall) as Hp. split.
    + intros bounds Hb. rewrite Hb in Hp. destruct Hp as (chosen & Hch & ->).
      case_bool_decide as Hempty.
      * split; [|split; [by intros e [= <-]|done]]. split; [|done].
        intros _ x Hx Hn. assert (x ∈ chosen) as Hin by by apply Hch.
        rewrite Hempty in Hin. by apply elem_of_empty in Hin.
      * split; [|split; [done|]].
        -- split; [done|]. intros Hnone. destruct Hempty. apply set_eq. intros x.
           rewrite Hch, elem_of_empty. split; [|done]. intros [Hx Hn]. by apply (Hnone x).
        -- intros l [= <-]. by rewrite sorted_nil.
    + intros p e Hin Hpe.
      destruct (mapM_piece_bounds_Raise _ _ _ Hin Hpe) as [lit Hlit].
      rewrite Hlit in Hp. eauto.
  - intros rtf select out Hmain.
    pose proof (main_stages _ _ _ Hmain) as (_ & _ & _ & Hne & Hsel & _).
    apply (parse_selection_nonempty _ _ _ Hsel).
    destruct (out_refs out) as [|[n raw0] refs] eqn:E; [done|].
    intros Hempty.
    assert (n ∈ (list_to_set (dict_of ((n, raw0) :: refs)).*1 : gset Z)) as Hin.
    { apply elem_of_list_to_set, dict_of_keys. cbn. left. }
    rewrite Hempty in Hin. by apply elem_of_empty in Hin.
Qed.

End RunClaims.

(** C2, the claim as stated fails.  In the sample run the third
    reference is unresolved and the first resolved work lists, among its
    references, the string that is the placeholder of the third; the code
    takes the two for the same identity and draws the edge from the first
    to the placeholder node, which the edge table reports as 1 citing 3.
    And with a service that gives the first work that string for its
    identity, the placeholder node of the third reference is the node of
    the first and originates its edge. *)
Lemma placeholder_collision :
  (exists out, sample_run = Ok out
     /\ out_unresolved out = [3]
     /\ g_edges (out_graph out)
        = [(py "W1", py "W2"); (py "W1", unresolved_id 3); (py "W2", py "W1")]
     /\ out_edges_rows out = [(1, 2); (1, 3); (2, 1)])
  /\ (exists out, impostor_run = Ok out
        /\ out_unresolved out = [3]
        /\ out_node_id_by_ref out
           = [(1, unresolved_id 3); (2, py "W2"); (3, unresolved_id 3)]
        /\ g_edges (out_graph out) = [(unresolved_id 3, py "W2")]).
Proof.
  split; (eexists; split; [vm_compute; reflexivity|]);
    repeat split; vm_compute; reflexivity.
Qed.

(** C6, the claim as stated fails: for [all] and an empty available set
    the chosen list is empty and no error is raised. *)
Lemma parse_selection_all_empty :
  @parse_selection ascii_db (py "all") ∅ = Ok [].
Proof. vm_compute. reflexivity. Qed.

(** ** The reference segmenter *)

Section SkipFacts.
Context {M : Type} (pat : option Z -> pystr -> option (M * nat)).
Hypothesis pat_prev : forall prev prev' s, pat prev s = pat prev' s.

(** A pattern that does not look behind finds the same matches whatever
    came before. *)
Lemma finditer_from_prev (s : pystr) (skip : nat) (prev prev' : option Z) :
  finditer_from pat skip prev s = finditer_from pat skip prev' s.
Proof.
  destruct s as [|c s]; [done|]. cbn [finditer_from].
  destruct skip; [|done]. by rewrite (pat_prev prev prev').
Qed.

(** After a match, the search resumes right behind it. *)
Lemma finditer_from_skip (m rest : pystr) (prev : option Z) :
  finditer_from pat (length m) prev (m ++ rest) = finditer_from pat 0 None rest.
Proof.
  revert prev. induction m as [|c m IH]; intros prev; [apply finditer_from_prev|].
  cbn [length app finditer_from]. apply IH.
Qed.

(** Where the pattern matches nowhere, the search goes on behind. *)
Lemma finditer_from_free (f : pystr -> bool) (pre rest : pystr) (prev : option Z) :
  (forall prev s, f s = false -> pat prev s = None) ->
  free_of f pre rest = true ->
  finditer_from pat 0 prev (pre ++ rest) = finditer_from pat 0 None rest.
Proof.
  intros Hf. revert prev. induction pre as [|c pre IH]; intros prev Hfree.
  - apply finditer_from_prev.
  - cbn [free_of] in Hfree. apply andb_true_iff in Hfree as [Hc Hfree].
    apply negb_true_iff in Hc.
    change ((c :: pre) ++ rest) with (c :: (pre ++ rest)) in *.
    cbn [finditer_from]. rewrite (Hf prev _ Hc). by apply IH.
Qed.

End SkipFacts.

Lemma lazy_until_stop (stop : pystr -> bool) (g rest : pystr) :
  free_of stop g rest = true -> stop rest = true -> lazy_until stop (g ++ rest) = Some g.
Proof.
  intros Hfree Hrest. induction g as [|c g IH].
  - destruct rest; cbn [app lazy_until]; by rewrite Hrest.
  - cbn [free_of] in Hfree. apply andb_true_iff in Hfree as [Hc Hfree].
    apply negb_true_iff in Hc.
    change ((c :: g) ++ rest) with (c :: (g ++ rest)) in *.
    cbn [lazy_until]. rewrite Hc, IH by done. done.
Qed.

Lemma strip_prefix_None (p s : pystr) : strip_prefix p s = None <-> startswith p s = false.
Proof.
  revert s. induction p as [|a p IH]; intros s; cbn [strip_prefix startswith]; [done|].
  destruct s as [|b s]; [done|]. destruct (a =? b); cbn; [apply IH|done].
Qed.

Lemma free_of_heads (f : pystr -> bool) (c : Z) (pre rest : pystr) :
  (forall t, head t <> Some c -> f t = false) -> c ∉ pre -> free_of f pre rest = true.
Proof.
  intros Hf. induction pre as [|d pre IH]; [done|].
  intros [Hne Hc]%not_elem_of_cons. cbn [free_of]. rewrite IH by done.
  rewrite andb_true_r. apply negb_true_iff, Hf. cbn. congruence.
Qed.

Section SegmenterFacts.
Context {U : UnicodeDB}.

Lemma number_text_spec (d : pystr) :
  number_text d = true <-> Forall (fun c => isdecimal c = true) d /\ d <> [].
Proof.
  unfold number_text. rewrite andb_true_iff, negb_true_iff, bool_decide_eq_false.
  rewrite forallb_forall, Forall_forall. by setoid_rewrite list_elem_of_In.
Qed.

Lemma close_bracket_stops (rest : pystr) : stops isdecimal (93 :: rest).
Proof. done. Qed.

Lemma bracket_number_token (d rest : pystr) :
  number_text d = true -> bracket_number ([91] ++ d ++ [93] ++ rest) = true.
Proof.
  intros [Hd Hne]%number_text_spec. unfold bracket_number.
  rewrite strip_prefix_app.
  rewrite takewhile_app, dropwhile_app by (done || apply close_bracket_stops).
  by destruct d.
Qed.

Lemma pat_ref_None (prev : option Z) (s : pystr) :
  bracket_number s = false -> pat_ref prev s = None.
Proof.
  unfold bracket_number, pat_ref. destruct (strip_prefix [91] s) as [r|]; [|done].
  destruct (takewhile isdecimal r); [done|].
  intros H%strip_prefix_None. by rewrite H.
Qed.

Lemma pat_ref_prev (prev prev' : option Z) (s : pystr) : pat_ref prev s = pat_ref prev' s.
Proof. done. Qed.

Lemma pat_ref_token (prev : option Z) (d g2 rest : pystr) :
  number_text d = true ->
  lazy_until ref_boundary (g2 ++ rest) = Some g2 ->
  pat_ref prev ([91] ++ d ++ [93] ++ g2 ++ rest)
  = Some ((d, g2), S (length (d ++ [93] ++ g2))).
Proof.
  intros [Hd Hne]%number_text_spec Hlazy. unfold pat_ref.
  rewrite strip_prefix_app.
  rewrite takewhile_app, dropwhile_app by (done || apply close_bracket_stops).
  destruct d as [|c d]; [done|].
  change (strip_prefix [93] ([93] ++ g2 ++ rest)) with (strip_prefix [93] ([93] ++ (g2 ++ rest))).
  rewrite strip_prefix_app, Hlazy. cbn [mbind option_bind].
  do 3 f_equal. rewrite !length_app. cbn. lia.
Qed.

(** The search step at a block: the block is matched, up to [rest]. *)
Lemma finditer_ref_token (prev : option Z) (d g2 rest : pystr) :
  number_text d = true ->
  lazy_until ref_boundary (g2 ++ rest) = Some g2 ->
  finditer_from pat_ref 0 prev ([91] ++ d ++ [93] ++ g2 ++ rest)
  = (d, g2) :: finditer_from pat_ref 0 None rest.
Proof.
  intros Hd Hlazy.
  change ([91] ++ d ++ [93] ++ g2 ++ rest) with (91 :: (d ++ [93] ++ g2 ++ rest)).
  cbn [finditer_from].
  change (91 :: (d ++ [93] ++ g2 ++ rest)) with ([91] ++ d ++ [93] ++ g2 ++ rest).
  rewrite pat_ref_token by done. cbn [Nat.pred]. f_equal.
  replace (d ++ [93] ++ g2 ++ rest) with ((d ++ [93] ++ g2) ++ rest)
    by by rewrite <- !app_assoc.
  apply finditer_from_skip. apply pat_ref_prev.
Qed.

Lemma at_end_long (s : pystr) : (2 <= length s)%nat -> at_end s = false.
Proof. destruct s as [|a [|b s]]; cbn; [lia|lia|done]. Qed.

Lemma free_of_boundary (body tail : pystr) :
  (2 <= length tail)%nat ->
  free_of next_ref body tail = true -> free_of ref_boundary body tail = true.
Proof.
  intros Hlen. induction body as [|c body IH]; [done|].
  cbn [free_of]. rewrite !andb_true_iff, !negb_true_iff. intros [Hc Hfree].
  split; [|by apply IH]. unfold ref_boundary. rewrite Hc, at_end_long; [done|].
  rewrite length_app. cbn. lia.
Qed.

(** The last block runs to the end of the text, or to the newline that
    ends it. *)
Lemma lazy_until_last (body : pystr) :
  free_of next_ref body [] = true ->
  exists g tail, body = g ++ tail /\ (tail = [] \/ tail = [10])
    /\ lazy_until ref_boundary (g ++ tail) = Some g.
Proof.
  induction body as [|c body IH]; intros Hfree.
  - exists [], []. split; [done|]. split; [by left|]. done.
  - cbn [free_of] in Hfree. apply andb_true_iff in Hfree as [Hc Hfree].
    apply negb_true_iff in Hc. rewrite app_nil_r in Hc.
    destruct (at_end (c :: body)) eqn:Hend.
    + destruct body as [|b body]; [|done]. cbn in Hend. apply Z.eqb_eq in Hend as ->.
      exists [], [10]. split; [done|]. split; [by right|]. done.
    + destruct (IH Hfree) as (g & tail & -> & Htail & Hlazy).
      exists (c :: g), tail. split; [done|]. split; [done|].
      change ((c :: g) ++ tail) with (c :: (g ++ tail)).
      cbn [lazy_until]. unfold ref_boundary at 1. rewrite Hc, Hend. cbn.
      by rewrite Hlazy.
Qed.

Lemma finditer_ref_tail (tail : pystr) :
  tail = [] \/ tail = [10] -> finditer_from pat_ref 0 None tail = [].
Proof. by intros [-> | ->]. Qed.

Lemma numbered_blocks_head (bs : list ref_block) (text : pystr) :
  numbered_blocks bs text -> bracket_number text = true /\ (3 <= length text)%nat.
Proof.
  intros H. destruct H as [d body Hd _|d body sep bs rest Hd _ _ _].
  - split; [by apply bracket_number_token|].
    apply number_text_spec in Hd as [_ Hne]. destruct d; [done|].
    rewrite !length_app. cbn. lia.
  - split; [by apply (bracket_number_token d (body ++ sep ++ rest))|].
    apply number_text_spec in Hd as [_ Hne]. destruct d; [done|].
    rewrite !length_app. cbn. lia.
Qed.

Lemma sep_boundary (sep rest : pystr) :
  is_sep sep = true -> bracket_number rest = true ->
  ref_boundary (sep ++ rest) = true /\ free_of bracket_number sep rest = true.
Proof.
  unfold is_sep. intros [Hs|Hs]%orb_true_iff Hrest; apply bool_decide_eq_true in Hs; subst sep.
  - split; [|done]. unfold ref_boundary, next_ref.
    apply orb_true_iff. left. apply orb_true_iff. right.
    change (drop 1 ([10] ++ rest)) with rest. by rewrite Hrest.
  - split; [|done]. unfold ref_boundary, next_ref.
    apply orb_true_iff. left. apply orb_true_iff. left.
    change (drop 3 ([10; 92; 10] ++ rest)) with rest. by rewrite Hrest.
Qed.

Lemma finditer_ref_blocks (bs : list ref_block) (text : pystr) :
  numbered_blocks bs text ->
  Forall2 group_of bs (finditer_from pat_ref 0 None text).
Proof.
  induction 1 as [d body Hd Hfree|d body sep bs rest Hd Hsep Hfree Hbs IH].
  - destruct (lazy_until_last body Hfree) as (g & tail & -> & Htail & Hlazy).
    rewrite finditer_ref_token, finditer_ref_tail by done.
    constructor; [|constructor]. split; [done|]. split; [done|]. cbn [snd blk_body].
    destruct Htail as [-> | ->]; [by rewrite app_nil_r|by rewrite strip_snoc_nl].
  - destruct (numbered_blocks_head _ _ Hbs) as [Hhead Hlen].
    destruct (sep_boundary sep rest Hsep Hhead) as [Hbound Hsepfree].
    rewrite finditer_ref_token; [|done|].
    2:{ apply lazy_until_stop; [|done]. apply free_of_boundary; [|done].
        rewrite length_app. lia. }
    rewrite (finditer_from_free pat_ref pat_ref_prev bracket_number)
      by (done || intros; by apply pat_ref_None).
    constructor; [|done]. done.
Qed.

Lemma mapM_groups (bs : list ref_block) (groups : list (pystr * pystr)) :
  Forall2 group_of bs groups ->
  mapM (fun m : pystr * pystr => n ← py_int m.1; Ok (n, strip m.2)) groups
  = Ok (block_pair <$> bs).
Proof.
  intros H. apply Forall2_mapM_Ok.
  induction H as [|b g bs groups (Hd & Hnum & Hbody) _ IH]; [constructor|].
  rewrite fmap_cons. constructor; [|done].
  apply number_text_spec in Hnum as [Hdec Hne].
  rewrite Hd, py_int_decimal by done. cbn. unfold block_pair. by rewrite Hbody.
Qed.

(** The first place where [f] holds, if any. *)
Lemma first_place (f : pystr -> bool) (s : pystr) :
  free_of f s [] = true
  \/ exists g t, s = g ++ t /\ free_of f g t = true /\ f t = true.
Proof.
  induction s as [|c s IH].
  - by left.
  - destruct (f (c :: s)) eqn:E.
    + right. exists [], (c :: s). done.
    + destruct IH as [IH|(g & t & -> & Hfree & Ht)].
      * left. cbn [free_of]. by rewrite app_nil_r, E, IH.
      * right. exists (c :: g), t. split; [done|]. split; [|done].
        cbn [free_of]. change ((c :: g) ++ t) with (c :: (g ++ t)). by rewrite E, Hfree.
Qed.

Lemma bracket_number_inv (s : pystr) :
  bracket_number s = true ->
  exists d rest, s = [91] ++ d ++ [93] ++ rest /\ number_text d = true.
Proof.
  unfold bracket_number. destruct (strip_prefix [91] s) as [r|] eqn:Es; [|done].
  apply strip_prefix_Some in Es as ->.
  pose proof (takewhile_dropwhile isdecimal r) as Hr.
  pose proof (takewhile_Forall isdecimal r) as Hd.
  destruct (takewhile isdecimal r) as [|c d] eqn:Et; [done|].
  intros (rest & Hrest)%startswith_spec.
  exists (c :: d), rest. split.
  - rewrite <- Hr, Hrest. done.
  - by apply number_text_spec.
Qed.

Lemma next_ref_inv (t : pystr) :
  next_ref t = true ->
  exists sep rest, t = sep ++ rest /\ is_sep sep = true /\ bracket_number rest = true.
Proof.
  unfold next_ref. intros [H|H]%orb_true_iff; apply andb_true_iff in H as [Hs Hb];
    apply startswith_spec in Hs as [rest ->].
  - exists [10; 92; 10], rest. done.
  - exists [10], rest. done.
Qed.

(** From a bracketed number on, every text is a sequence of blocks. *)
Lemma numbered_blocks_exist (n : nat) (text : pystr) :
  (length text <= n)%nat -> bracket_number text = true ->
  exists bs, numbered_blocks bs text.
Proof.
  revert text. induction n as [|n IH]; intros text Hlen Htok.
  { destruct text; [done|]. cbn in Hlen. lia. }
  apply bracket_number_inv in Htok as (d & r & -> & Hd).
  destruct (first_place next_ref r) as [Hfree|(g & t & -> & Hfree & Ht)].
  - eexists. by apply blocks_last.
  - apply next_ref_inv in Ht as (sep & rest & -> & Hsep & Hrest).
    destruct (IH rest) as [bs Hbs]; [|done|].
    + rewrite !length_app in Hlen. cbn in Hlen. lia.
    + eexists. by apply blocks_cons.
Qed.

(** *** Bracketed numbers that open a line *)

(** No bracketed number opens a line within a text that has none; the
    text behind it follows its last character. *)
Lemma line_blocks_free (pre rest : pystr) (prev : option Z) :
  free_of bracket_number pre rest = true ->
  line_blocks prev (pre ++ rest)
  = line_blocks (match last pre with Some c => Some c | None => prev end) rest.
Proof.
  revert prev. induction pre as [|c pre IH]; intros prev; [done|].
  cbn [free_of]. intros [Hc Hfree]%andb_true_iff. apply negb_true_iff in Hc.
  change ((c :: pre) ++ rest) with (c :: (pre ++ rest)) in *. cbn [line_blocks].
  unfold opens_line at 1. rewrite Hc. cbn [andb]. rewrite IH by done. cbn [Nat.add].
  destruct pre as [|c' pre]; [done|]. rewrite last_cons_cons.
  by destruct (proj2 (last_is_Some (c' :: pre)) ltac:(done)) as [x ->].
Qed.

(** No bracketed number opens a line within the text of a block. *)
Lemma line_blocks_body (body rest : pystr) (prev : option Z) :
  free_of next_ref body rest = true ->
  body = [] \/ opens_line prev (body ++ rest) = false ->
  line_blocks prev (body ++ rest)
  = line_blocks (match last body with Some c => Some c | None => prev end) rest.
Proof.
  revert prev. induction body as [|c body IH]; intros prev; [done|].
  cbn [free_of]. intros [Hc Hfree]%andb_true_iff [?|Hopen]; [done|].
  apply negb_true_iff in Hc.
  change ((c :: body) ++ rest) with (c :: (body ++ rest)) in *. cbn [line_blocks].
  rewrite Hopen. cbn [Nat.add]. rewrite IH; [|done|].
  - destruct body as [|c' body]; [done|]. rewrite last_cons_cons.
    by destruct (proj2 (last_is_Some (c' :: body)) ltac:(done)) as [x ->].
  - destruct body as [|c' body]; [by left|right].
    unfold opens_line. unfold next_ref in Hc.
    apply orb_false_iff in Hc as [_ Hc]. cbn [startswith] in Hc.
    destruct (Z.eqb_spec c 10) as [->|Hne]; [|by rewrite andb_false_r].
    rewrite andb_true_r. exact Hc.
Qed.

Lemma bracket_number_head (s : pystr) : head s <> Some 91 -> bracket_number s = false.
Proof.
  destruct s as [|c s]; [done|]. cbn [head]. intros Hc. unfold bracket_number.
  cbn [strip_prefix]. destruct (Z.eqb_spec 91 c); [congruence|done].
Qed.

Lemma number_text_no_bracket (d : pystr) : number_text d = true -> 91 ∉ d ++ [93].
Proof.
  intros [Hd _]%number_text_spec. rewrite Forall_forall in Hd.
  intros [Hin|Hin]%elem_of_app.
  - apply Hd in Hin. by rewrite isdecimal_ascii_other in Hin.
  - by apply list_elem_of_singleton in Hin.
Qed.

(** The bracketed numbers that open a line in a text made of blocks are
    the numbers of the blocks, apart from the first when it does not
    open a line. *)
Lemma line_blocks_numbered (bs : list ref_block) (text : pystr) :
  numbered_blocks bs text ->
  forall prev,
    (line_blocks prev text + (if opens_line prev text then 0 else 1))%nat = length bs.
Proof.
  assert (forall d body tail prev,
            number_text d = true -> free_of next_ref body tail = true ->
            line_blocks prev ([91] ++ d ++ [93] ++ body ++ tail)
            = Nat.add (if opens_line prev ([91] ++ d ++ [93] ++ body ++ tail)
                       then 1%nat else 0%nat)
                      (line_blocks (match last body with
                                    | Some c => Some c
                                    | None => Some 93
                                    end) tail)) as Hblock.
  { intros d body tail prev Hd Hfree.
    change ([91] ++ d ++ [93] ++ body ++ tail) with (91 :: (d ++ [93] ++ body ++ tail)).
    cbn [line_blocks]. f_equal.
    replace (d ++ [93] ++ body ++ tail) with ((d ++ [93]) ++ body ++ tail)
      by by rewrite <- !app_assoc.
    rewrite line_blocks_free.
    2:{ apply free_of_heads with (c := 91); [apply bracket_number_head|].
        by apply number_text_no_bracket. }
    rewrite last_snoc. apply line_blocks_body; [done|].
    right. unfold opens_line. by rewrite andb_false_r. }
  induction 1 as [d body Hd Hfree|d body sep bs rest Hd Hsep Hfree Hbs IH]; intros prev.
  - replace ([91] ++ d ++ [93] ++ body) with ([91] ++ d ++ [93] ++ body ++ [])
      by by rewrite app_nil_r.
    rewrite Hblock by done. cbn [line_blocks length].
    by destruct (opens_line prev _).
  - rewrite Hblock by done.
    destruct (numbered_blocks_head _ _ Hbs) as [Hhead _].
    assert (forall p, line_blocks p (sep ++ rest) = length bs) as ->.
    { intros p. specialize (IH (Some 10)). unfold opens_line in IH at 1.
      rewrite Hhead, Z.eqb_refl in IH. cbn [andb] in IH. rewrite Nat.add_0_r in IH.
      unfold is_sep in Hsep. apply orb_true_iff in Hsep as [Hs|Hs];
        apply bool_decide_eq_true in Hs; subst sep;
        cbn [app line_blocks]; unfold opens_line.
      - rewrite (bracket_number_head (10 :: rest)) by (cbn; congruence).
        cbn [andb Nat.add]. exact IH.
      - rewrite (bracket_number_head (10 :: 92 :: 10 :: rest)) by (cbn; congruence).
        rewrite (bracket_number_head (92 :: 10 :: rest)) by (cbn; congruence).
        rewrite (bracket_number_head (10 :: rest)) by (cbn; congruence).
        cbn [andb Nat.add]. exact IH. }
    cbn [length]. destruct (opens_line prev _); lia.
Qed.

(** C3, as amended.  A text is a preamble without a bracketed number and
    then blocks: the first opens at the first bracketed number of the
    text, wherever it stands, each of the others at a bracketed number
    right after the newline (with or without the backslash artifact)
    that ends the block before, and no block contains a line that opens
    with a bracketed number.  For numbers no longer than [int] converts,
    the segmenter returns exactly the pairs of the blocks, in the order
    of the text: the number in the brackets and the trimmed text up to
    the next block or the end.  These are as many pairs as bracketed
    numbers open a line when the first bracketed number opens a line,
    and one more when it stands within a line ([last pre] is the
    character before it).  A text without a bracketed number gives no
    pair, and every text is of one of these two kinds. *)
Theorem split_numbered_refs_blocks :
  (forall (pre text : pystr) (bs : list ref_block),
     free_of bracket_number pre text = true ->
     numbered_blocks bs text ->
     Forall (fun b => (length (blk_digits b) <= int_max_str_digits)%nat) bs ->
     split_numbered_refs (pre ++ text) = Ok (block_pair <$> bs)
     /\ (forall pairs, split_numbered_refs (pre ++ text) = Ok pairs ->
           length pairs = length bs)
     /\ (opens_line (last pre) text = true ->
           length bs = line_blocks None (pre ++ text))
     /\ (opens_line (last pre) text = false ->
           length bs = S (line_blocks None (pre ++ text))))
  /\ (forall text : pystr,
        free_of bracket_number text [] = true ->
        split_numbered_refs text = Ok [] /\ line_blocks None text = 0%nat)
  /\ (forall text : pystr,
        free_of bracket_number text [] = true
        \/ exists pre rest bs, text = pre ++ rest
             /\ free_of bracket_number pre rest = true /\ numbered_blocks bs rest).
Proof.
  split; [|split].
  - intros pre text bs Hpre Hbs _.
    assert (split_numbered_refs (pre ++ text) = Ok (block_pair <$> bs)) as Hsplit.
    { unfold split_numbered_refs, finditer.
      rewrite (finditer_from_free pat_ref pat_ref_prev bracket_number)
        by (done || intros; by apply pat_ref_None).
      by apply mapM_groups, finditer_ref_blocks. }
    split; [done|]. split.
    { intros pairs. rewrite Hsplit. intros [= <-]. by rewrite length_fmap. }
    pose proof (line_blocks_numbered bs text Hbs (last pre)) as Hcount.
    rewrite (line_blocks_free pre text None Hpre).
    assert (match last pre with Some c => Some c | None => None end = last pre) as ->
      by by destruct (last pre).
    split; intros Hopen; rewrite Hopen in Hcount; lia.
  - intros text Hfree. split.
    + unfold split_numbered_refs, finditer.
      replace text with (text ++ []) by apply app_nil_r.
      rewrite (finditer_from_free pat_ref pat_ref_prev bracket_number);
        [done|intros; by apply pat_ref_None|done].
    + replace text with (text ++ []) by apply app_nil_r.
      by rewrite line_blocks_free.
  - intros text. destruct (first_place bracket_number text)
      as [Hfree|(pre & rest & -> & Hfree & Hrest)]; [by left|right].
    destruct (numbered_blocks_exist (length rest) rest) as [bs Hbs]; [done|done|].
    eauto 6.
Qed.

End SegmenterFacts.

(** C3, the claim as stated fails.  In this text two bracketed numbers
    open a line, [[1]] and [[2]]; the segmenter returns three pairs, the
    first for the number that stands within the first line. *)
Lemma split_numbered_refs_mid_line :
  @line_blocks ascii_db None mid_line_text = 2%nat
  /\ @split_numbered_refs ascii_db mid_line_text
     = Ok [(5, py "for details"); (1, py "A"); (2, py "B")].
Proof. split; vm_compute; reflexivity. Qed.

(** ** The claims at the sample inputs *)

Lemma split_numbered_refs_blocks_witness :
  @split_numbered_refs ascii_db (py "References " ++ sample_text)
  = Ok [(1, py "A. Smith, 2009."); (2, py "B. Jones"); (3, py "C. Lee")]
  /\ length sample_blocks
     = S (@line_blocks ascii_db None (py "References " ++ sample_text)).
Proof.
  destruct (proj1 (@split_numbered_refs_blocks ascii_db) (py "References ")
                  sample_text sample_blocks) as (Hpairs & _ & _ & Hcount).
  - reflexivity.
  - apply (@blocks_cons ascii_db (py "1") (py " A. Smith, 2009.") [NL]); try reflexivity.
    apply (@blocks_cons ascii_db (py "2") (py " B. Jones") [NL; 92; NL]); try reflexivity.
    apply (@blocks_last ascii_db (py "03") (py " C. Lee" ++ [NL])); reflexivity.
  - repeat (apply Forall_cons_2; [apply Nat.leb_le; reflexivity|]). apply Forall_nil_2.
  - split; [exact Hpairs|]. apply Hcount. reflexivity.
Defined.

Lemma extract_title_spans_witness :
  extract_title title_sample = strip (py "B")
  /\ extract_title ([DQUOTE] ++ py " A title " ++ [DQUOTE]) = strip (py " A title ")
  /\ extract_title (py "Smith, no title") = strip (take 160 (py "Smith, no title")).
Proof.
  split; [|split].
  - apply (proj1 (extract_title_spans title_sample (py "B"))).
    by apply re_search_quoted_Some.
  - apply (proj1 (proj2 (extract_title_spans ([DQUOTE] ++ py " A title " ++ [DQUOTE])
                                             (py " A title ")))).
    + by apply re_search_quoted_None.
    + by apply re_search_quoted_Some.
  - apply (proj2 (proj2 (extract_title_spans (py "Smith, no title") []))).
    + by apply re_search_quoted_None.
    + by apply re_search_quoted_None.
Defined.

Lemma duplicate_numbers_keep_last_witness :
  exists out, sample_run = Ok out
    /\ n_found out = length (out_refs out)
    /\ n_found out = 4%nat
    /\ ref_no <$> out_rows out = [1; 2; 3].
Proof.
  eexists. split; [vm_compute; reflexivity|]. split; [|split; reflexivity].
  apply (@duplicate_numbers_keep_last ascii_db sample_service sample_host sample_rtf (py "all")).
  vm_compute. reflexivity.
Defined.

Lemma edges_within_selection_witness :
  exists out, sample_run = Ok out
    /\ forall x y, (x, y) ∈ out_edges_rows out -> x ∈ out_chosen out /\ y ∈ out_chosen out.
Proof.
  eexists. split; [vm_compute; reflexivity|].
  apply (@edges_within_selection ascii_db sample_service sample_host sample_rtf (py "all")).
  vm_compute. reflexivity.
Defined.

Lemma placeholder_nodes_witness :
  exists out, clean_run = Ok out
    /\ out_unresolved out = [3]
    /\ forall n, n ∈ out_unresolved out ->
         n ∈ out_chosen out
         /\ dict_get n (out_resolved out) = None
         /\ dict_get n (out_node_id_by_ref out) = Some (unresolved_id n)
         /\ unresolved_id n ∈ (g_nodes (out_graph out)).*1.
Proof.
  eexists. split; [vm_compute; reflexivity|]. split; [reflexivity|].
  apply (@placeholder_nodes ascii_db clean_service sample_host sample_rtf (py "all")).
  vm_compute. reflexivity.
Defined.

(** * Further properties of the code *)

Lemma rstrip_by_prefix (p : Z -> bool) (s : pystr) :
  exists w, s = rstrip_by p s ++ w /\ Forall (fun c => p c = true) w.
Proof.
  unfold rstrip_by. exists (rev (takewhile p (rev s))). split.
  - rewrite <- rev_app_distr, takewhile_dropwhile. by rewrite rev_involutive.
  - apply Forall_rev, takewhile_Forall.
Qed.

Lemma rstrip_by_last (p : Z -> bool) (s : pystr) : stops p (rev (rstrip_by p s)).
Proof. unfold rstrip_by. rewrite rev_involutive. apply dropwhile_stops. Qed.

Lemma dropwhile_suffix (p : Z -> bool) (s : pystr) :
  exists w, s = w ++ dropwhile p s /\ Forall (fun c => p c = true) w.
Proof.
  exists (takewhile p s). split; [by rewrite takewhile_dropwhile|apply takewhile_Forall].
Qed.

(** [strip] cuts whitespace off both ends and nothing else. *)
Lemma strip_spec (s : pystr) :
  exists l r, s = l ++ strip s ++ r
    /\ Forall (fun c => isspace c = true) l /\ Forall (fun c => isspace c = true) r
    /\ stops isspace (strip s) /\ stops isspace (rev (strip s)).
Proof.
  destruct (dropwhile_suffix isspace s) as (l & Hl & Hlsp).
  destruct (rstrip_by_prefix isspace (dropwhile isspace s)) as (r & Hr & Hrsp).
  exists l, r. fold (strip s) in Hr. split; [by rewrite <- Hr|].
  split; [done|]. split; [done|]. split; [|apply rstrip_by_last].
  pose proof (dropwhile_stops isspace s) as Hd. rewrite Hr in Hd.
  destruct (strip s); [done|]. done.
Qed.

Lemma strip_elem_of (s : pystr) (x : Z) : x ∈ strip s -> x ∈ s.
Proof.
  destruct (strip_spec s) as (l & r & Heq & _). intros Hx.
  rewrite Heq, !elem_of_app. auto.
Qed.

Section SubFacts.
Context {M : Type} (pat : option Z -> pystr -> option (M * nat)).

(** A constant substitution brings in nothing but the replacement. *)
Lemma sub_const_from_elem_of (r : pystr) (s : pystr) (x : Z) :
  forall skip prev, x ∈ sub_const_from pat r skip prev s -> x ∈ r \/ x ∈ s.
Proof.
  induction s as [|c s IH]; intros skip prev; cbn [sub_const_from].
  - intros H. by apply elem_of_nil in H.
  - destruct skip as [|k].
    + destruct (pat prev (c :: s)) as [[m n]|].
      * rewrite elem_of_app. intros [?|H]; [by left|].
        apply IH in H as [?|?]; [by left|right; by right].
      * rewrite elem_of_cons. intros [->|H]; [right; by left|].
        apply IH in H as [?|?]; [by left|right; by right].
    + intros H. apply IH in H as [?|?]; [by left|right; by right].
Qed.

Lemma sub_from_elem_of (repl : M -> result pystr) (P : Z -> Prop) (s : pystr) :
  (forall m r, repl m = Ok r -> Forall P r) ->
  forall skip prev out, sub_from pat repl skip prev s = Ok out -> Forall P s -> Forall P out.
Proof.
  intros Hrepl. induction s as [|c s IH]; intros skip prev out; cbn [sub_from].
  - by intros [= <-].
  - intros H [Hc Hs]%Forall_cons. destruct skip as [|k]; [|by eapply IH].
    destruct (pat prev (c :: s)) as [[m n]|].
    + destruct (repl m) as [r|] eqn:Er; [|done]. cbn in H.
      destruct (sub_from pat repl (Nat.pred n) (Some c) s) as [rest|] eqn:Erest; [|done].
      cbn in H. injection H as <-. apply Forall_app. split; [by eapply Hrepl|by eapply IH].
    + destruct (sub_from pat repl 0 (Some c) s) as [rest|] eqn:Erest; [|done].
      cbn in H. injection H as <-. constructor; [done|by eapply IH].
Qed.

(** Where the pattern matches nowhere, the substitution changes nothing. *)
Lemma sub_const_from_id (r : pystr) (f : pystr -> bool) (s : pystr) :
  (forall prev t, f t = false -> pat prev t = None) ->
  free_of f s [] = true ->
  forall prev, sub_const_from pat r 0 prev s = s.
Proof.
  intros Hf. induction s as [|c s IH]; intros Hfree prev; [done|].
  cbn [free_of] in Hfree. apply andb_true_iff in Hfree as [Hc Hfree].
  apply negb_true_iff in Hc. rewrite app_nil_r in Hc.
  cbn [sub_const_from]. rewrite (Hf prev _ Hc). f_equal. by apply IH.
Qed.

Lemma sub_from_id (repl : M -> result pystr) (f : pystr -> bool) (s : pystr) :
  (forall prev t, f t = false -> pat prev t = None) ->
  free_of f s [] = true ->
  forall prev, sub_from pat repl 0 prev s = Ok s.
Proof.
  intros Hf. induction s as [|c s IH]; intros Hfree prev; [done|].
  cbn [free_of] in Hfree. apply andb_true_iff in Hfree as [Hc Hfree].
  apply negb_true_iff in Hc. rewrite app_nil_r in Hc.
  cbn [sub_from]. rewrite (Hf prev _ Hc). by rewrite IH.
Qed.

(** The characters of a match are passed over, and the substitution
    resumes behind them. *)
Lemma sub_const_from_skip (r : pystr) (s : pystr) :
  forall skip prev,
    sub_const_from pat r skip prev s
    = sub_const_from pat r 0 (prev_at prev s skip) (drop skip s).
Proof.
  induction s as [|c s IH]; intros skip prev.
  - by destruct skip.
  - destruct skip as [|k]; [done|]. cbn [sub_const_from drop].
    rewrite IH. by rewrite prev_at_cons.
Qed.

(** A pattern that does not look behind substitutes the same whatever
    came before. *)
Lemma sub_const_from_prev (r : pystr) (s : pystr) (skip : nat) (prev prev' : option Z) :
  (forall p p' t, pat p t = pat p' t) ->
  sub_const_from pat r skip prev s = sub_const_from pat r skip prev' s.
Proof.
  intros Hp. destruct s as [|c s]; [done|]. cbn [sub_const_from].
  destruct skip; [|done]. by rewrite (Hp prev prev').
Qed.

End SubFacts.

Lemma free_of_no_char (c : Z) (s : pystr) (f : pystr -> bool) :
  (forall t, f t = true -> head t = Some c) -> c ∉ s -> free_of f s [] = true.
Proof.
  intros Hf. induction s as [|d s IH]; intros Hc; [done|].
  cbn [free_of]. rewrite app_nil_r. apply not_elem_of_cons in Hc as [Hne Hc].
  rewrite IH by done. rewrite andb_true_r. apply negb_true_iff.
  destruct (f (d :: s)) eqn:E; [|done]. apply Hf in E. cbn in E. congruence.
Qed.

Lemma remove_char_elem_of (c x : Z) (s : pystr) : x ∈ remove_char c s <-> x <> c /\ x ∈ s.
Proof. unfold remove_char. by rewrite list_elem_of_filter. Qed.

Lemma remove_char_id (c : Z) (s : pystr) : c ∉ s -> remove_char c s = s.
Proof.
  unfold remove_char. induction s as [|d s IH]; [done|].
  intros [Hne Hc]%not_elem_of_cons. rewrite filter_cons_True by done. by rewrite IH.
Qed.

Section RtfFacts.
Context {U : UnicodeDB}.

(** No tab survives the collapse of blanks. *)
Lemma sub_blanks_no_tab (s : pystr) :
  forall skip prev, 9 ∉ sub_const_from pat_blanks [32] skip prev s.
Proof.
  induction s as [|c s IH]; intros skip prev; cbn [sub_const_from]; [apply not_elem_of_nil|].
  destruct skip as [|k]; [|apply IH].
  unfold pat_blanks. cbn [takewhile]. destruct (blank c) eqn:Hc.
  - cbn [app]. apply not_elem_of_cons. split; [done|apply IH].
  - apply not_elem_of_cons. split; [|apply IH].
    intros <-. done.
Qed.

Lemma rtf_to_text_Ok (rtf txt : pystr) :
  rtf_to_text rtf = Ok txt <->
  exists s, unescaped rtf s
    /\ txt = strip (re_sub_const pat_nl_space [10]
                      (re_sub_const pat_blanks [32] (remove_char 125 (remove_char 123 s)))).
Proof.
  unfold rtf_to_text, unescaped. destruct (re_sub pat_uni uni_repl rtf) as [s0|e]; cbn.
  - split.
    + intros [= <-]. eexists. split; [by eexists|done].
    + intros (s & (s0' & [= <-] & ->) & ->). done.
  - split; [done|]. intros (s & (s0' & ? & _) & _). done.
Qed.

(** *** Blanks *)

Lemma drop_takewhile (p : Z -> bool) (s : pystr) :
  drop (length (takewhile p s)) s = dropwhile p s.
Proof. induction s as [|c s IH]; [done|]. cbn. destruct (p c); cbn; done. Qed.

Lemma sub_blanks_step (prev : option Z) (c : Z) (s : pystr) :
  sub_const_from pat_blanks [32] 0 prev (c :: s)
  = if blank c then 32 :: sub_const_from pat_blanks [32] 0 None (dropwhile blank s)
    else c :: sub_const_from pat_blanks [32] 0 None s.
Proof.
  cbn [sub_const_from]. unfold pat_blanks at 1. cbn [takewhile].
  destruct (blank c).
  - cbn [length Nat.pred app]. rewrite sub_const_from_skip, drop_takewhile.
    f_equal; try by apply sub_const_from_prev.
  - f_equal; try by apply sub_const_from_prev.
Qed.

Lemma single_spaced_cons (c : Z) (s : pystr) :
  single_spaced (c :: s) = true <->
  c <> 9 /\ (c = 32 -> stops blank s) /\ single_spaced s = true.
Proof.
  cbn [single_spaced]. rewrite !andb_true_iff, !negb_true_iff.
  assert ((c =? 9) = false <-> c <> 9) as -> by apply Z.eqb_neq.
  assert (((c =? 32) && match s with d :: _ => blank d | [] => false end) = false
          <-> (c = 32 -> stops blank s)) as ->; [|tauto].
  destruct (Z.eqb_spec c 32) as [->|Hne]; cbn.
  - destruct s as [|d s]; cbn; [tauto|]. destruct (blank d); split; auto.
  - split; [done|]. done.
Qed.

Lemma single_spaced_suffix (l s : pystr) : single_spaced (l ++ s) = true -> single_spaced s = true.
Proof.
  induction l as [|c l IH]; [done|]. cbn [app]. intros H.
  apply single_spaced_cons in H as (_ & _ & H). by apply IH.
Qed.

Lemma single_spaced_prefix (s r : pystr) : single_spaced (s ++ r) = true -> single_spaced s = true.
Proof.
  induction s as [|c s IH]; [done|]. cbn [app]. rewrite !single_spaced_cons.
  intros (Hc & Hb & H). split; [done|]. split; [|by apply IH].
  intros Hc32. specialize (Hb Hc32). destruct s; [done|]. done.
Qed.

(** After the collapse of blanks no blank follows a blank. *)
Lemma sub_blanks_single_spaced (n : nat) (s : pystr) :
  (length s <= n)%nat ->
  forall prev,
    single_spaced (sub_const_from pat_blanks [32] 0 prev s) = true
    /\ (stops blank s -> stops blank (sub_const_from pat_blanks [32] 0 prev s)).
Proof.
  revert s. induction n as [|n IH]; intros s Hlen prev.
  { destruct s; [done|]. cbn in Hlen. lia. }
  destruct s as [|c s]; [done|]. rewrite sub_blanks_step. cbn [length] in Hlen.
  destruct (blank c) eqn:Hc.
  - destruct (dropwhile_suffix blank s) as (w & Hw & _).
    destruct (IH (dropwhile blank s)) with (prev := @None Z) as [H1 H2].
    { apply (f_equal length) in Hw. rewrite length_app in Hw. lia. }
    split; [|intros H; cbn in H; congruence].
    apply single_spaced_cons. split; [done|]. split; [|done].
    intros _. apply H2, dropwhile_stops.
  - destruct (IH s) with (prev := @None Z) as [H1 H2]; [lia|].
    split; [|done]. apply single_spaced_cons. split; [|split; [|done]].
    + intros ->. done.
    + intros ->. done.
Qed.

Lemma sub_blanks_id (s : pystr) :
  single_spaced s = true -> forall prev, sub_const_from pat_blanks [32] 0 prev s = s.
Proof.
  induction s as [|c s IH]; [done|]. intros (Hc & Hb & Hs)%single_spaced_cons prev.
  rewrite sub_blanks_step. destruct (blank c) eqn:E.
  - assert (c = 32) as ->.
    { unfold blank in E. apply orb_true_iff in E as [E|E]; apply Z.eqb_eq in E; [done|lia]. }
    rewrite dropwhile_id by auto. by rewrite IH.
  - by rewrite IH.
Qed.

(** *** Line starts *)

Lemma sub_nl_step (prev : option Z) (c : Z) (s : pystr) :
  sub_const_from pat_nl_space [10] 0 prev (c :: s)
  = if (c =? 10) && match s with d :: _ => isspace d | [] => false end
    then 10 :: sub_const_from pat_nl_space [10] 0 None (dropwhile isspace s)
    else c :: sub_const_from pat_nl_space [10] 0 None s.
Proof.
  cbn [sub_const_from]. unfold pat_nl_space at 1. cbn [strip_prefix].
  assert ((10 =? c) = (c =? 10)) as -> by apply Z.eqb_sym.
  destruct (c =? 10); cbn [andb].
  - destruct s as [|d s]; [done|].
    assert (takewhile isspace (d :: s)
            = if isspace d then d :: takewhile isspace s else []) as Ht by done.
    destruct (isspace d) eqn:Hd; rewrite Ht.
    + cbn [Nat.pred app]. rewrite <- Ht, sub_const_from_skip, drop_takewhile.
      f_equal; try by apply sub_const_from_prev.
    + f_equal; try by apply sub_const_from_prev.
  - f_equal; try by apply sub_const_from_prev.
Qed.

Lemma lines_flush_cons (c : Z) (s : pystr) :
  lines_flush (c :: s) = true <->
  (c = 10 -> stops isspace s) /\ lines_flush s = true.
Proof.
  cbn [lines_flush]. rewrite !andb_true_iff, !negb_true_iff.
  assert (((c =? 10) && match s with d :: _ => isspace d | [] => false end) = false
          <-> (c = 10 -> stops isspace s)) as ->; [|tauto].
  destruct (Z.eqb_spec c 10) as [->|Hne]; cbn.
  - destruct s as [|d s]; cbn; [tauto|]. destruct (isspace d); split; auto.
  - split; [done|]. done.
Qed.

Lemma lines_flush_suffix (l s : pystr) : lines_flush (l ++ s) = true -> lines_flush s = true.
Proof.
  induction l as [|c l IH]; [done|]. cbn [app]. intros H.
  apply lines_flush_cons in H as (_ & H). by apply IH.
Qed.

Lemma lines_flush_prefix (s r : pystr) : lines_flush (s ++ r) = true -> lines_flush s = true.
Proof.
  induction s as [|c s IH]; [done|]. cbn [app]. rewrite !lines_flush_cons.
  intros (Hb & H). split; [|by apply IH].
  intros Hc. specialize (Hb Hc). destruct s; [done|]. done.
Qed.

Lemma sub_nl_head (s : pystr) (prev : option Z) :
  head (sub_const_from pat_nl_space [10] 0 prev s) = head s.
Proof.
  destruct s as [|c s]; [done|]. rewrite sub_nl_step.
  destruct (Z.eqb_spec c 10) as [->|]; cbn [andb]; [|done].
  by destruct (match s with d :: _ => isspace d | [] => false end).
Qed.

Lemma stops_by_head (p : Z -> bool) (s t : pystr) : head s = head t -> stops p t -> stops p s.
Proof. destruct s, t; cbn; try done. by intros [= ->]. Qed.

(** After the last substitution no whitespace follows a newline, and
    what was single-spaced still is. *)
Lemma sub_nl_flush (n : nat) (s : pystr) :
  (length s <= n)%nat ->
  forall prev,
    lines_flush (sub_const_from pat_nl_space [10] 0 prev s) = true
    /\ (single_spaced s = true ->
        single_spaced (sub_const_from pat_nl_space [10] 0 prev s) = true).
Proof.
  revert s. induction n as [|n IH]; intros s Hlen prev.
  { destruct s; [done|]. cbn in Hlen. lia. }
  destruct s as [|c s]; [done|]. rewrite sub_nl_step. cbn [length] in Hlen.
  destruct (_ && _) eqn:Hm.
  - apply andb_true_iff in Hm as [Hc _]. apply Z.eqb_eq in Hc as ->.
    destruct (dropwhile_suffix isspace s) as (w & Hw & _).
    destruct (IH (dropwhile isspace s)) with (prev := @None Z) as [H1 H2].
    { pose proof (f_equal length Hw) as Hl. rewrite length_app in Hl. lia. }
    split.
    + apply lines_flush_cons. split; [|done]. intros _.
      eapply stops_by_head; [apply sub_nl_head|apply dropwhile_stops].
    + intros (_ & _ & Hs)%single_spaced_cons. apply single_spaced_cons.
      split; [done|]. split; [done|]. apply H2.
      rewrite Hw in Hs. by apply single_spaced_suffix in Hs.
  - destruct (IH s) with (prev := @None Z) as [H1 H2]; [lia|]. split.
    + apply lines_flush_cons. split; [|done]. intros ->. cbn [Z.eqb andb] in Hm.
      eapply stops_by_head; [apply sub_nl_head|]. destruct s as [|d s]; [done|]. done.
    + intros (Hc & Hb & Hs)%single_spaced_cons. apply single_spaced_cons.
      split; [done|]. split; [|by apply H2].
      intros Hc32. eapply stops_by_head; [apply sub_nl_head|auto].
Qed.

Lemma sub_nl_id (s : pystr) :
  lines_flush s = true -> forall prev, sub_const_from pat_nl_space [10] 0 prev s = s.
Proof.
  induction s as [|c s IH]; [done|]. intros (Hc & Hs)%lines_flush_cons prev.
  rewrite sub_nl_step.
  assert ((c =? 10) && match s with d :: _ => isspace d | [] => false end = false) as ->.
  { destruct (Z.eqb_spec c 10) as [->|]; [|done]. cbn. specialize (Hc eq_refl).
    destruct s; [done|]. done. }
  by rewrite IH.
Qed.

Lemma head_rev_last (s : pystr) : head (rev s) = last s.
Proof.
  induction s as [|c s IH] using rev_ind; [done|].
  by rewrite rev_app_distr, last_snoc.
Qed.

Lemma trimmed_spec (s : pystr) : trimmed s = true <-> stops isspace s /\ stops isspace (rev s).
Proof.
  unfold trimmed. rewrite andb_true_iff.
  assert (forall t : pystr, match t with c :: _ => negb (isspace c) | [] => true end = true
                            <-> stops isspace t) as Hhead.
  { intros [|c t]; cbn; [done|]. by rewrite negb_true_iff. }
  rewrite Hhead. rewrite <- (Hhead (rev s)).
  assert (match rev s with c :: _ => negb (isspace c) | [] => true end
          = match last s with Some c => negb (isspace c) | None => true end) as ->; [|done].
  rewrite <- head_rev_last. by destruct (rev s).
Qed.

Lemma strip_trimmed_id (s : pystr) : trimmed s = true -> strip s = s.
Proof.
  intros [H1 H2]%trimmed_spec. unfold strip. rewrite dropwhile_id by done.
  by apply rstrip_by_id.
Qed.

(** The layout of the text [rtf_to_text] returns. *)
Lemma rtf_to_text_layout (rtf txt : pystr) :
  rtf_to_text rtf = Ok txt ->
  single_spaced txt = true /\ lines_flush txt = true /\ trimmed txt = true.
Proof.
  intros (s & _ & ->)%rtf_to_text_Ok.
  set (s1 := remove_char 125 (remove_char 123 s)).
  set (s2 := re_sub_const pat_blanks [32] s1).
  set (s3 := re_sub_const pat_nl_space [10] s2).
  destruct (sub_blanks_single_spaced (length s1) s1 (le_n _) None) as [Hss _].
  fold (re_sub_const pat_blanks [32] s1) in Hss. fold s2 in Hss.
  destruct (sub_nl_flush (length s2) s2 (le_n _) None) as [Hfl Hss'].
  fold (re_sub_const pat_nl_space [10] s2) in Hfl, Hss'. fold s3 in Hfl, Hss'.
  specialize (Hss' Hss).
  destruct (strip_spec s3) as (l & r & Heq & _ & _ & Hh & Hl).
  rewrite Heq in Hss', Hfl.
  split; [|split].
  - by apply single_spaced_suffix, single_spaced_prefix in Hss'.
  - by apply lines_flush_suffix, lines_flush_prefix in Hfl.
  - by apply trimmed_spec.
Qed.

End RtfFacts.

Lemma occurs_free (p d : pystr) :
  occurs p d = false -> free_of (startswith p) d [] = true.
Proof.
  induction d as [|c d IH]; [done|]. cbn [occurs free_of].
  rewrite app_nil_r. intros [H1 H2]%orb_false_iff. rewrite H1. cbn. by apply IH.
Qed.

Section RtfTheorems.
Context {U : UnicodeDB}.

Lemma unescaped_braces (rtf s txt : pystr) (x : Z) :
  txt = strip (re_sub_const pat_nl_space [10]
                 (re_sub_const pat_blanks [32] (remove_char 125 (remove_char 123 s)))) ->
  x ∈ txt -> x = 32 \/ x = 10 \/ (x ∈ s /\ x <> 123 /\ x <> 125 /\ x <> 9).
Proof.
  intros -> Hx%strip_elem_of.
  apply sub_const_from_elem_of in Hx as [Hx|Hx];
    [apply list_elem_of_singleton in Hx; auto|].
  destruct (decide (x = 9)) as [->|Hne].
  { by apply sub_blanks_no_tab in Hx. }
  apply sub_const_from_elem_of in Hx as [Hx|Hx];
    [apply list_elem_of_singleton in Hx; auto|].
  apply remove_char_elem_of in Hx as [H125 Hx].
  apply remove_char_elem_of in Hx as [H123 Hx]. right. right. done.
Qed.

(** X1. The text that [rtf_to_text] returns holds no brace and no tab,
    wherever they came from, a numeric escape included. *)
Theorem rtf_to_text_no_brace_no_tab (rtf txt : pystr) :
  rtf_to_text rtf = Ok txt -> (123 ∉ txt) /\ (125 ∉ txt) /\ (9 ∉ txt).
Proof.
  intros (s & _ & Htxt)%rtf_to_text_Ok.
  repeat split; intros Hx; apply (unescaped_braces rtf s txt _ Htxt) in Hx;
    destruct Hx as [?|[?|(_ & ? & ? & ?)]]; done.
Qed.

(** X2. In the text that [rtf_to_text] returns no blank follows a blank,
    no whitespace follows a newline, and neither end is whitespace: every
    line after the first starts with a character that is not
    whitespace. *)
Theorem rtf_to_text_whitespace (rtf txt : pystr) :
  rtf_to_text rtf = Ok txt ->
  single_spaced txt = true
  /\ trimmed txt = true
  /\ forall i, txt !! i = Some 10 ->
       exists c, txt !! S i = Some c /\ isspace c = false.
Proof.
  intros (Hss & Hfl & Htr)%rtf_to_text_layout. split; [done|]. split; [done|].
  apply trimmed_spec in Htr as [_ Hlast].
  assert (last txt <> Some 10) as Hend.
  { intros Hl. pose proof (head_rev_last txt) as Hr.
    rewrite Hl in Hr. destruct (rev txt) as [|c r]; [done|].
    injection Hr as ->. done. }
  clear Hlast Hss. induction txt as [|c txt IH]; intros i Hi; [done|].
  apply lines_flush_cons in Hfl as [Hc Hfl]. destruct i as [|i].
  - injection Hi as ->. specialize (Hc eq_refl).
    destruct txt as [|d txt]; [done|]. exists d. done.
  - cbn in Hi. destruct txt as [|d txt]; [done|].
    apply IH; done.
Qed.

Lemma pat_uni_backslash (prev : option Z) (t : pystr) :
  startswith [92] t = false -> pat_uni prev t = None.
Proof.
  intros H. unfold pat_uni.
  destruct t as [|c t]; [done|]. cbn [startswith strip_prefix] in *.
  destruct (92 =? c); done.
Qed.

Lemma pat_hex_backslash (prev : option Z) (t : pystr) :
  startswith [92] t = false -> pat_hex prev t = None.
Proof.
  intros H. unfold pat_hex.
  destruct t as [|c t]; [done|]. cbn [startswith strip_prefix] in *.
  destruct (92 =? c); done.
Qed.

Lemma pat_ctrl_backslash (prev : option Z) (t : pystr) :
  startswith [92] t = false -> pat_ctrl prev t = None.
Proof.
  intros H. unfold pat_ctrl.
  destruct t as [|c t]; [done|]. cbn [startswith strip_prefix] in *.
  destruct (92 =? c); done.
Qed.

Lemma startswith_head (c : Z) (t : pystr) : startswith [c] t = true -> head t = Some c.
Proof.
  destruct t as [|d t]; [done|]. cbn. rewrite andb_true_r. by intros ->%Z.eqb_eq.
Qed.

(** Without a backslash there is no escape to decode and no control word
    to drop. *)
Lemma unescaped_no_backslash (rtf : pystr) : 92 ∉ rtf -> unescaped rtf rtf.
Proof.
  intros H.
  assert (free_of (startswith [92]) rtf [] = true) as Hfree.
  { apply free_of_no_char with (c := 92); [apply startswith_head|done]. }
  exists rtf. unfold re_sub, re_sub_const. split.
  - by apply (sub_from_id pat_uni uni_repl (startswith [92]) rtf pat_uni_backslash).
  - rewrite (sub_const_from_id pat_hex [] (startswith [92]) rtf pat_hex_backslash) by done.
    by rewrite (sub_const_from_id pat_ctrl [] (startswith [92]) rtf pat_ctrl_backslash).
Qed.

Lemma plain_text_spec (s : pystr) :
  plain_text s = true <->
((92 ∉ s) /\ (123 ∉ s) /\ (125 ∉ s))
  /\ single_spaced s = true /\ lines_flush s = true /\ trimmed s = true.
Proof.
  unfold plain_text. rewrite !andb_true_iff.
  assert (forallb (fun c => negb ((c =? 92) || (c =? 123) || (c =? 125))) s = true
          <-> (92 ∉ s) /\ (123 ∉ s) /\ (125 ∉ s)) as ->; [|tauto].
  induction s as [|c s IH]; cbn [forallb].
  - split; [|done]. intros _. repeat split; apply not_elem_of_nil.
  - rewrite andb_true_iff, IH, !not_elem_of_cons, negb_true_iff, !orb_false_iff.
    rewrite !Z.eqb_neq. split.
    + intros (((?&?)&?)&?&?&?). repeat split; auto.
    + intros ((?&?)&(?&?)&(?&?)). repeat split; auto.
Qed.

(** X3. Text that has no backslash and no brace, and whose whitespace is
    already in the form the conversion produces, goes through
    [rtf_to_text] unchanged. *)
Theorem rtf_to_text_plain (s : pystr) :
  plain_text s = true -> rtf_to_text s = Ok s.
Proof.
  intros ((Hb & H123 & H125) & Hss & Hfl & Htr)%plain_text_spec.
  apply rtf_to_text_Ok. exists s. split; [by apply unescaped_no_backslash|].
  rewrite (remove_char_id 123), (remove_char_id 125) by done.
  unfold re_sub_const. rewrite sub_blanks_id, sub_nl_id by done.
  by rewrite strip_trimmed_id.
Qed.

(** *** What can go wrong *)

Lemma py_int_minus_decimal (ds : pystr) :
  Forall (fun c => isdecimal c = true) ds -> ds <> [] ->
  py_int (45 :: ds) = Ok (- digits_value 0 ds).
Proof.
  intros H Hne. unfold py_int.
  assert (Forall (fun c => int_space c = false) ds) as Hsp.
  { eapply Forall_impl; [exact H|]. apply isdecimal_not_int_space. }
  assert (dropwhile int_space (45 :: ds) = 45 :: ds) as -> by done.
  rewrite rstrip_by_id.
  2:{ cbn [rev]. destruct (rev ds) as [|c r] eqn:E.
      - apply (f_equal (@rev Z)) in E. rewrite rev_involutive in E. done.
      - cbn. assert (c ∈ ds) as Hin. { apply list_elem_of_In, in_rev. rewrite E. by left. }
        by apply (proj1 (Forall_forall _ _) Hsp). }
  unfold int_signed. cbn [strip_prefix].
  assert ((43 =? 45) = false) as -> by done. assert ((45 =? 45) = true) as -> by done.
  by rewrite int_digits_decimal.
Qed.

(** What the escape pattern hands to [uni_repl]: digits, with or without
    a minus sign. *)
Lemma pat_uni_group (prev : option Z) (s g : pystr) (n : nat) :
  pat_uni prev s = Some (g, n) ->
  exists ds, Forall (fun c => isdecimal c = true) ds /\ ds <> [] /\ (g = ds \/ g = 45 :: ds).
Proof.
  unfold pat_uni. destruct (strip_prefix [92; 117] s) as [r|]; [|done].
  set (sign := match strip_prefix [45] r with
               | Some r' => match takewhile isdecimal r' with [] => [] | _ => [45] end
               | None => []
               end).
  pose proof (takewhile_Forall isdecimal (drop (length sign) r)) as Hds.
  destruct (takewhile isdecimal (drop (length sign) r)) as [|d ds] eqn:E; [done|].
  intros [= <- _]. exists (d :: ds). split; [done|]. split; [done|].
  unfold sign. destruct (strip_prefix [45] r) as [r'|]; [|by left].
  destruct (takewhile isdecimal r'); [by left|by right].
Qed.

Lemma uni_repl_group (ds : pystr) (g : pystr) (e : exn) :
  Forall (fun c => isdecimal c = true) ds -> ds <> [] -> g = ds \/ g = 45 :: ds ->
  uni_repl g = Raise e -> exists code, e = ChrRange code /\ (code < 0 \/ 1114112 <= code).
Proof.
  intros Hds Hne Hg. unfold uni_repl.
  assert (exists n, py_int g = Ok n) as [n ->].
  { destruct Hg as [-> | ->]; [rewrite py_int_decimal|rewrite py_int_minus_decimal]; eauto. }
  cbn. unfold py_chr.
  set (code := if n <? 0 then 65536 + n else n).
  destruct (Z.leb_spec 0 code), (Z.ltb_spec code 1114112); cbn; try done;
    intros [= <-]; exists code; split; try done; lia.
Qed.

Lemma sub_from_Raise {M : Type} (pat : option Z -> pystr -> option (M * nat))
    (repl : M -> result pystr) (P : exn -> Prop) (s : pystr) :
  (forall prev t m n e, pat prev t = Some (m, n) -> repl m = Raise e -> P e) ->
  forall skip prev e, sub_from pat repl skip prev s = Raise e -> P e.
Proof.
  intros HP. induction s as [|c s IH]; intros skip prev e; cbn [sub_from]; [done|].
  destruct skip as [|k]; [|apply IH].
  destruct (pat prev (c :: s)) as [[m n]|] eqn:Em.
  - destruct (repl m) as [r|e'] eqn:Er; cbn.
    + destruct (sub_from pat repl (Nat.pred n) (Some c) s) as [rest|e'] eqn:Erest; cbn; [done|].
      intros [= <-]. by eapply IH.
    + intros [= <-]. by eapply HP.
  - destruct (sub_from pat repl 0 (Some c) s) as [rest|e'] eqn:Erest; cbn; [done|].
    intros [= <-]. by eapply IH.
Qed.

Lemma rtf_to_text_Raise (rtf : pystr) (e : exn) :
  rtf_to_text rtf = Raise e ->
  exists code, e = ChrRange code /\ (code < 0 \/ 1114112 <= code).
Proof.
  unfold rtf_to_text, re_sub.
  destruct (sub_from pat_uni uni_repl 0 None rtf) as [s|e'] eqn:E; cbn; [done|].
  intros [= <-].
  apply (sub_from_Raise pat_uni uni_repl
           (fun e => exists code, e = ChrRange code /\ (code < 0 \/ 1114112 <= code))
           rtf) with (skip := 0%nat) (prev := None); [|done].
  intros prev t m n e1 Hm Hr. apply pat_uni_group in Hm as (ds & Hds & Hne & Hg).
  by eapply uni_repl_group.
Qed.

End RtfTheorems.

Lemma rtf_to_text_no_brace_no_tab_witness :
  @rtf_to_text ascii_db sample_rtf
  = Ok (py "[1] A. Smith, 2009. doi:10.1000/x" ++ [NL]
        ++ py "[2] B. Jones 2015 doi:10.1000/B." ++ [NL]
        ++ py "[3] Nobody" ++ [NL]
        ++ py "[1] A. Smith, 2010. doi:10.1000/a")
  /\ (123 ∉ py "[1] A. Smith, 2009. doi:10.1000/x" ++ [NL]
        ++ py "[2] B. Jones 2015 doi:10.1000/B." ++ [NL]
        ++ py "[3] Nobody" ++ [NL]
        ++ py "[1] A. Smith, 2010. doi:10.1000/a").
Proof.
  split; [vm_compute; reflexivity|].
  apply (@rtf_to_text_no_brace_no_tab ascii_db sample_rtf). vm_compute. reflexivity.
Defined.

Section DoiFacts.
Context {U : UnicodeDB}.

Lemma pat_doi_Some (prev : option Z) (s g : pystr) (n : nat) :
  pat_doi prev s = Some (g, n) <-> doi_token prev s g /\ n = length g.
Proof.
  unfold pat_doi, doi_token. split.
  - destruct (word_boundary prev s) eqn:Hb; [|done].
    destruct (strip_prefix [49; 48; 46] s) as [r|] eqn:Es; [|done].
    apply strip_prefix_Some in Es as ->.
    pose proof (takewhile_dropwhile isdecimal r) as Hr.
    pose proof (takewhile_Forall isdecimal r) as Hds.
    set (ds := takewhile isdecimal r) in *.
    destruct ((4 <=? length ds)%nat && (length ds <=? 9)%nat) eqn:Hlen; [|done].
    apply andb_true_iff in Hlen as [H4 H9].
    apply Nat.leb_le in H4, H9.
    destruct (strip_prefix [47] (dropwhile isdecimal r)) as [r2|] eqn:E2; [|done].
    apply strip_prefix_Some in E2.
    pose proof (takewhile_dropwhile doi_char r2) as Hr2.
    pose proof (takewhile_Forall doi_char r2) as Htl.
    pose proof (dropwhile_stops doi_char r2) as Hrest.
    destruct (takewhile doi_char r2) as [|t tl] eqn:Et; [done|].
    intros [= <- <-]. split.
    + exists ds, (t :: tl), (dropwhile doi_char r2).
      assert (not_word prev) as Hprev.
      { eapply (word_boundary_before prev 49); [done|exact Hb]. }
      assert ([49; 48; 46] ++ r = py "10." ++ ds ++ [47] ++ (t :: tl) ++ dropwhile doi_char r2)
        as Heq.
      { change (py "10.") with [49; 48; 46]. f_equal.
        rewrite <- Hr at 1. f_equal. rewrite E2. cbn [app]. f_equal. symmetry. exact Hr2. }
      repeat split; try done; lia.
    + cbn [length]. rewrite length_app. cbn [length]. lia.
  - intros ((ds & tl & rest & -> & Hds & Hlen & Hne & Htl & Hrest & Hprev & ->) & ->).
    change (py "10." ++ ds ++ [47] ++ tl ++ rest) with (49 :: ([48; 46] ++ ds ++ [47] ++ tl ++ rest)).
    rewrite (proj2 (word_boundary_before prev 49 _ eq_refl)) by done.
    change (49 :: ([48; 46] ++ ds ++ [47] ++ tl ++ rest))
      with ([49; 48; 46] ++ ds ++ [47] ++ tl ++ rest).
    rewrite strip_prefix_app.
    rewrite takewhile_app, dropwhile_app by done.
    assert ((4 <=? length ds)%nat && (length ds <=? 9)%nat = true) as ->.
    { apply andb_true_iff. split; apply Nat.leb_le; lia. }
    rewrite strip_prefix_app, takewhile_app by done.
    destruct tl as [|t tl]; [done|].
    change (py "10.") with [49; 48; 46]. do 2 f_equal.
    cbn [app length]. rewrite length_app. cbn [length]. lia.
Qed.

Lemma doi_token_at_lt (s : pystr) (i : nat) (g : pystr) :
  doi_token_at s i g -> (i < length s)%nat.
Proof.
  intros (ds & tl & rest & Hdrop & _).
  destruct (decide (i < length s)%nat); [done|].
  rewrite drop_ge in Hdrop by lia. done.
Qed.

(** X5. [extract_doi] returns the first DOI token of the text, read
    from left to right, without the dots that end it and in lower case;
    it returns nothing exactly when the text has no DOI token. *)
Theorem extract_doi_first_token :
  (forall s d : pystr,
     extract_doi s = Some d <->
     exists i g, doi_token_at s i g
       /\ (forall j g', (j < i)%nat -> ~ doi_token_at s j g')
       /\ d = lower (rstrip_by (fun c => c =? 46) g))
  /\ (forall s : pystr, extract_doi s = None <-> forall i g, ~ doi_token_at s i g)
  /\ extract_doi (py "A. Smith (2019). doi:10.1000/J.X-1. Press.") = Some (py "10.1000/j.x-1")
  /\ extract_doi (py "ISBN 10.12/3, vol. 10.1000") = None.
Proof.
  split; [|split; [|split; reflexivity]].
  - intros s d. unfold extract_doi, re_search.
    destruct (search_from pat_doi None s) as [g|] eqn:E.
    + apply search_from_Some in E as (i & n & Hi & Hm & Hfirst).
      apply pat_doi_Some in Hm as [Hm _]. split.
      * intros [= <-]. exists i, g. split; [done|]. split; [|done].
        intros j g' Hj Hg'.
        assert (pat_doi (prev_at None s j) (drop j s) = Some (g', length g')) as Hp
          by by apply pat_doi_Some.
        rewrite Hfirst in Hp by done. done.
      * intros (i' & g' & Hg' & Hfirst' & ->).
        destruct (Nat.lt_trichotomy i i') as [Hlt|[->|Hlt]].
        -- by destruct (Hfirst' i g Hlt).
        -- assert (pat_doi (prev_at None s i') (drop i' s) = Some (g, length g)) as H1
             by by apply pat_doi_Some.
           assert (pat_doi (prev_at None s i') (drop i' s) = Some (g', length g')) as H2
             by by apply pat_doi_Some.
           rewrite H1 in H2. by injection H2 as ->.
        -- assert (pat_doi (prev_at None s i') (drop i' s) = Some (g', length g')) as Hp
             by by apply pat_doi_Some.
           rewrite Hfirst in Hp by done. done.
    + split; [done|]. intros (i & g & Hg & _).
      pose proof (doi_token_at_lt _ _ _ Hg) as Hi.
      assert (pat_doi (prev_at None s i) (drop i s) = Some (g, length g)) as Hp
        by by apply pat_doi_Some.
      rewrite (proj1 (search_from_None pat_doi None s) E) in Hp by done. done.
  - intros s. unfold extract_doi, re_search.
    destruct (search_from pat_doi None s) as [g|] eqn:E.
    + split; [done|]. intros Hno.
      apply search_from_Some in E as (i & n & Hi & Hm & _).
      apply pat_doi_Some in Hm as [Hm _]. by destruct (Hno i g).
    + split; [|done]. intros _ i g Hg.
      pose proof (doi_token_at_lt _ _ _ Hg) as Hi.
      assert (pat_doi (prev_at None s i) (drop i s) = Some (g, length g)) as Hp
        by by apply pat_doi_Some.
      rewrite (proj1 (search_from_None pat_doi None s) E) in Hp by done. done.
Qed.

(** *** The DOI of a work *)

Lemma pat_literal_None (p : pystr) (prev : option Z) (t : pystr) :
  startswith p t = false -> pat_literal p prev t = None.
Proof. unfold pat_literal. by intros ->. Qed.

Lemma startswith_app (p r : pystr) : startswith p (p ++ r) = true.
Proof. apply startswith_spec. eauto. Qed.

(** Removing a literal that stands at the head of a text and nowhere
    behind it. *)
Lemma sub_literal_head (p d : pystr) :
  p <> [] -> occurs p d = false -> re_sub_const (pat_literal p) [] (p ++ d) = d.
Proof.
  intros Hp Hd. unfold re_sub_const. destruct p as [|c p]; [done|].
  change ((c :: p) ++ d) with (c :: (p ++ d)). cbn [sub_const_from].
  unfold pat_literal at 1. change (c :: (p ++ d)) with ((c :: p) ++ d).
  rewrite startswith_app. cbn [length Nat.pred app].
  rewrite sub_const_from_skip, drop_app_length.
  apply (sub_const_from_id (pat_literal (c :: p)) [] (startswith (c :: p))).
  - intros prev t. apply pat_literal_None.
  - by apply occurs_free.
Qed.

Lemma sub_literal_none (p d : pystr) :
  occurs p d = false -> re_sub_const (pat_literal p) [] d = d.
Proof.
  intros Hd. unfold re_sub_const.
  apply (sub_const_from_id (pat_literal p) [] (startswith p)).
  - intros prev t. apply pat_literal_None.
  - by apply occurs_free.
Qed.

(** X6. The DOI of a normalised work is the DOI in lower case, whether
    the service gave it bare or under the prefix [https://doi.org/]; the
    prefix is looked for before the text is put in lower case, so a
    prefix written in capitals stays. *)
Theorem normalize_oa_doi_prefix (j : WorkJson) (d : pystr) :
  occurs doi_url d = false ->
  j_doi j = Some d \/ j_doi j = Some (doi_url ++ d) ->
  w_doi (normalize_oa j) = lower d.
Proof.
  intros Hd Hj. unfold normalize_oa. cbn [w_doi]. fold doi_url.
  destruct Hj as [-> | ->].
  - destruct d as [|c d]; [done|]. cbn [truthy_str].
    by rewrite (sub_literal_none doi_url (c :: d)).
  - assert (truthy_str (doi_url ++ d) = true) as -> by done.
    by rewrite (sub_literal_head doi_url d).
Qed.

End DoiFacts.

Lemma normalize_oa_doi_prefix_witness :
  @w_doi (@normalize_oa ascii_db (work_with_doi (py "https://doi.org/10.1000/J.X")))
  = py "10.1000/j.x"
  /\ @w_doi (@normalize_oa ascii_db (work_with_doi (py "HTTPS://DOI.ORG/10.1000/J.X")))
     = py "https://doi.org/10.1000/j.x".
Proof.
  split.
  - apply (@normalize_oa_doi_prefix ascii_db
             (work_with_doi (py "https://doi.org/10.1000/J.X")) (py "10.1000/J.X"));
      [reflexivity|right; reflexivity].
  - apply (@normalize_oa_doi_prefix ascii_db
             (work_with_doi (py "HTTPS://DOI.ORG/10.1000/J.X"))
             (py "HTTPS://DOI.ORG/10.1000/J.X"));
      [reflexivity|left; reflexivity].
Defined.

Section OpenRangeFacts.
Context {U : UnicodeDB}.

Lemma py_int_empty : py_int [] = Raise (InvalidLiteral []).
Proof. done. Qed.

Lemma piece_bounds_open_range (p : pystr) :
  open_range p -> exists lit, piece_bounds p = Raise (InvalidLiteral lit).
Proof.
  unfold piece_bounds. intros [Hp|(a & -> & Ha)].
  - destruct p as [|c p]; [done|]. injection Hp as ->.
    rewrite bool_decide_eq_true_2 by left.
    assert (takewhile (fun c => negb (c =? 45)) (45 :: p) = []) as -> by done.
    rewrite py_int_empty. cbn. eauto.
  - rewrite bool_decide_eq_true_2 by (rewrite elem_of_app, list_elem_of_singleton; auto).
    assert (Forall (fun c => negb (c =? 45) = true) a) as Hall.
    { apply Forall_forall. intros c Hc. apply negb_true_iff, Z.eqb_neq. by intros ->. }
    rewrite takewhile_app, dropwhile_app by done. cbn [drop].
    destruct (py_int a) as [n|e] eqn:Ea; cbn.
    + eauto.
    + apply py_int_Raise in Ea as ->. eauto.
Qed.

(** X7. A range must have both its ends: a selection with a piece that
    starts with a dash, such as [-5], or that ends with its only dash,
    such as [5-], is refused with the error of [int]; no number is
    taken to be missing. *)
Theorem parse_selection_open_range (selection : pystr) (A : gset Z) (p : pystr) :
  lower (strip selection) <> py "all" ->
  p ∈ selection_pieces selection -> open_range p ->
  exists lit, parse_selection selection A = Raise (InvalidLiteral lit).
Proof.
  intros Hall Hin Hp.
  destruct (piece_bounds_open_range p Hp) as [lit Hlit].
  destruct (mapM_piece_bounds_Raise _ _ _ Hin Hlit) as [lit' Hm].
  pose proof (parse_selection_pieces selection A Hall) as H.
  rewrite Hm in H. eauto.
Qed.

End OpenRangeFacts.

Lemma parse_selection_open_range_witness :
  (exists lit, @parse_selection ascii_db (py "1, -5") (list_to_set [1; 2; 3])
               = Raise (InvalidLiteral lit))
  /\ (exists lit, @parse_selection ascii_db (py "2-") (list_to_set [1; 2; 3])
                  = Raise (InvalidLiteral lit)).
Proof.
  split.
  - apply (@parse_selection_open_range ascii_db (py "1, -5") (list_to_set [1; 2; 3]) (py "-5")).
    + vm_compute. discriminate.
    + vm_compute. right. left.
    + left. reflexivity.
  - apply (@parse_selection_open_range ascii_db (py "2-") (list_to_set [1; 2; 3]) (py "2-")).
    + vm_compute. discriminate.
    + vm_compute. left.
    + right. exists (py "2"). split; [reflexivity|]. vm_compute.
      intros H. apply list_elem_of_singleton in H. discriminate.
Defined.

(** ** The pairs of the segmenter *)

Section PairFacts.
Context {U : UnicodeDB}.

Lemma split_numbered_refs_cases (text : pystr) :
  split_numbered_refs text = Ok []
  \/ exists bs, split_numbered_refs text = Ok (block_pair <$> bs).
Proof.
  destruct (first_place bracket_number text)
    as [Hfree|(pre & rest & -> & Hfree & Hrest)].
  - left. unfold split_numbered_refs, finditer.
    replace text with (text ++ []) by apply app_nil_r.
    rewrite (finditer_from_free pat_ref pat_ref_prev bracket_number);
      [done|intros; by apply pat_ref_None|done].
  - right. destruct (numbered_blocks_exist (length rest) rest) as [bs Hbs]; [done|done|].
    exists bs. unfold split_numbered_refs, finditer.
    rewrite (finditer_from_free pat_ref pat_ref_prev bracket_number)
      by (done || intros; by apply pat_ref_None).
    by apply mapM_groups, finditer_ref_blocks.
Qed.

(** X8. The numbers that [split_numbered_refs] returns are never
    negative, and the texts it returns have no whitespace at either
    end. *)
Theorem split_numbered_refs_pairs (text : pystr) (pairs : list (Z * pystr)) :
  split_numbered_refs text = Ok pairs ->
  Forall (fun nr : Z * pystr => 0 <= nr.1 /\ trimmed nr.2 = true) pairs.
Proof.
  destruct (split_numbered_refs_cases text) as [->|[bs ->]]; intros [= <-]; [done|].
  apply Forall_fmap, Forall_forall. intros b _. cbn. split.
  - by apply digits_value_nonneg.
  - destruct (strip_spec (blk_body b)) as (l & r & _ & _ & _ & Hh & Hl).
    by apply trimmed_spec.
Qed.

Lemma split_numbered_refs_total (text : pystr) :
  exists pairs, split_numbered_refs text = Ok pairs.
Proof. destruct (split_numbered_refs_cases text) as [->|[bs ->]]; eauto. Qed.

Lemma split_numbered_refs_no_bracket (text : pystr) :
  91 ∉ text -> split_numbered_refs text = Ok [].
Proof.
  intros H. unfold split_numbered_refs, finditer.
  replace text with (text ++ []) by apply app_nil_r.
  rewrite (finditer_from_free pat_ref pat_ref_prev bracket_number);
    [done|intros; by apply pat_ref_None|].
  apply free_of_no_char with (c := 91); [|done].
  intros t. unfold bracket_number. destruct t as [|c t]; [done|].
  cbn [strip_prefix head]. destruct (Z.eqb_spec 91 c) as [->|]; done.
Qed.

End PairFacts.

(** ** Loops, once more *)

(** What every step of a loop keeps, the loop keeps. *)
Lemma foldM_Ok_keeps {A S : Type} (f : S -> A -> result S) (I : S -> Prop) (xs : list A) :
  (forall st x st', f st x = Ok st' -> I st -> I st') ->
  forall st st', foldM f st xs = Ok st' -> I st -> I st'.
Proof.
  intros Hstep. induction xs as [|x xs IH]; intros st st'; cbn [foldM].
  - by intros [= <-].
  - destruct (f st x) as [st1|e] eqn:E; [|done]. cbn. intros H HI.
    apply (IH st1 st' H). by eapply Hstep.
Qed.

Lemma dict_set_length {K V : Type} `{EqDecision K} (k : K) (v : V) (d : odict K V) :
  (length (dict_set k v d) <= S (length d))%nat.
Proof.
  induction d as [|[k1 v1] d IH]; cbn [dict_set length]; [lia|].
  destruct (decide (k = k1)); cbn [length]; lia.
Qed.

Lemma dict_of_length {K V : Type} `{EqDecision K} (items : list (K * V)) :
  (length (dict_of items) <= length items)%nat.
Proof.
  unfold dict_of.
  assert (forall d : odict K V,
            (length (fold_left (fun d kv => dict_set kv.1 kv.2 d) items d)
             <= length d + length items)%nat) as Hgen.
  { induction items as [|kv items IH]; intros d; cbn [fold_left length]; [lia|].
    specialize (IH (dict_set kv.1 kv.2 d)).
    pose proof (dict_set_length kv.1 kv.2 d). lia. }
  apply (Hgen []).
Qed.

(** A list without repeats that lies within another is no longer. *)
Lemma NoDup_incl_length {A : Type} (l k : list A) :
  NoDup l -> (forall x, x ∈ l -> x ∈ k) -> (length l <= length k)%nat.
Proof. intros Hl Hin. apply submseteq_length, NoDup_submseteq; done. Qed.

(** ... and shorter when the other has a repeat. *)
Lemma NoDup_incl_length_lt {A : Type} (l k : list A) :
  NoDup l -> (forall x, x ∈ l -> x ∈ k) -> ~ NoDup k -> (length l < length k)%nat.
Proof.
  intros Hl Hin Hk.
  destruct (decide (length l < length k)%nat) as [|Hge]; [done|].
  destruct Hk.
  assert (l ≡ₚ k) as Hp.
  { apply NoDup_Permutation_bis; [by apply NoDup_ListNoDup|lia|].
    intros x Hx%list_elem_of_In. by apply list_elem_of_In, Hin. }
  by rewrite <- Hp.
Qed.

Section CountFacts.
Context {U : UnicodeDB} {service : OpenAlex} {host : Host}.

Lemma resolved_unresolved_length (rows : list Row) :
  (length (resolved_of rows) + length (unresolved_of rows) = length rows)%nat.
Proof.
  unfold resolved_of, unresolved_of. rewrite length_fmap.
  induction rows as [|r rows IH]; [done|].
  cbn [omap list_omap length]. rewrite filter_cons.
  destruct (resolve_row r) as [w|] eqn:E.
  - rewrite decide_False by done. cbn [fmap option_fmap option_map length]. lia.
  - rewrite decide_True by done. cbn [fmap option_fmap option_map length]. lia.
Qed.

End CountFacts.

(** ** The graph, counted *)

Lemma add_nodes_keeps_NoDup (rows : list Row) (resolved : odict Z OAWork)
    (ids : odict Z pystr) (G G' : DiGraph) :
  add_nodes rows resolved ids G = Ok G' ->
  NoDup (g_nodes G).*1 -> NoDup (g_nodes G').*1.
Proof.
  unfold add_nodes. apply (foldM_Ok_keeps _ (fun G => NoDup (g_nodes G).*1)).
  intros st r st'.
  destruct (dict_item (ref_no r) ids) as [nid|e]; [|done]. cbn.
  intros [= <-]. cbn [add_node g_nodes]. apply dict_set_NoDup.
Qed.

Lemma add_edge_length (u v : pystr) (G : DiGraph) :
  (length (g_edges (add_edge u v G)) <= S (length (g_edges G)))%nat.
Proof.
  cbn [add_edge g_edges]. case_bool_decide; [lia|]. rewrite length_app. cbn. lia.
Qed.

(** Every row of the edge table comes with at most one new edge. *)
Lemma add_edges_length (resolved : odict Z OAWork) (ids : odict Z pystr)
    (rev_ids : odict pystr Z) (allowed : gset pystr) (G G' : DiGraph)
    (edges_rows : list (Z * Z)) :
  add_edges resolved ids rev_ids allowed G = Ok (G', edges_rows) ->
  (length (g_edges G') <= length (g_edges G) + length edges_rows)%nat.
Proof.
  unfold add_edges. intros H.
  apply (foldM_Ok_keeps _
           (fun st : DiGraph * list (Z * Z) =>
              (length (g_edges st.1) <= length (g_edges G) + length st.2)%nat)) in H;
    [done| |cbn; lia].
  intros st item st'.
  destruct (dict_item item.1 ids) as [src|e]; [|done]. cbn.
  apply (foldM_Ok_keeps _
           (fun st : DiGraph * list (Z * Z) =>
              (length (g_edges st.1) <= length (g_edges G) + length st.2)%nat)).
  intros st1 tgt st1'.
  case_bool_decide; [|by intros [= <-]].
  destruct (dict_item src rev_ids) as [citing|e]; [|done]. cbn.
  destruct (dict_item tgt rev_ids) as [cited|e]; [|done]. cbn.
  intros [= <-]. cbn [fst snd]. rewrite length_app. cbn [length].
  pose proof (add_edge_length src tgt st1.1). lia.
Qed.

Lemma build_graph_Ok (rows : list Row) (resolved : odict Z OAWork)
    (ids : odict Z pystr) (G : DiGraph) (edges_rows : list (Z * Z)) :
  build_graph rows resolved = Ok (ids, G, edges_rows) ->
  exists G0,
    add_nodes rows resolved (node_ids rows resolved) empty_graph = Ok G0
    /\ add_edges resolved (node_ids rows resolved)
                 (reverse_ids (node_ids rows resolved))
                 (list_to_set (reverse_ids (node_ids rows resolved)).*1) G0
       = Ok (G, edges_rows).
Proof.
  unfold build_graph.
  destruct (add_nodes rows resolved (node_ids rows resolved) empty_graph) as [G0|e]; [|done].
  cbn. destruct (add_edges _ _ _ _ G0) as [[G1 er]|e] eqn:E; [|done]. cbn.
  intros [= _ <- <-]. eauto.
Qed.

Section NodeFacts.
Context {U : UnicodeDB} {service : OpenAlex} {host : Host}.
Variables (rows : list Row) (resolved : odict Z OAWork).
Hypothesis rows_distinct : NoDup (ref_no <$> rows).

(** Adding the nodes: the attributes of a node are those of the last row
    that has its identity. *)
Lemma add_nodes_last :
  exists G, add_nodes rows resolved (node_ids rows resolved) empty_graph = Ok G
    /\ forall nid, dict_get nid (g_nodes G)
         = (fun r => Some (node_attrs r (dict_get (ref_no r) resolved)))
             <$> last (rows_of_node resolved nid rows).
Proof.
  unfold add_nodes.
  apply (foldM_invariant
    (fun G r =>
       nid ← dict_item (ref_no r) (node_ids rows resolved);
       Ok (add_node nid (node_attrs r (dict_get (ref_no r) resolved)) G))
    (fun done G =>
       forall nid, dict_get nid (g_nodes G)
         = (fun r => Some (node_attrs r (dict_get (ref_no r) resolved)))
             <$> last (rows_of_node resolved nid done))).
  - done.
  - intros done r G HI Hr. unfold dict_item.
    rewrite (node_ids_get rows resolved rows_distinct r Hr). cbn.
    eexists. split; [done|]. intros nid. cbn [add_node g_nodes].
    rewrite dict_get_set. unfold rows_of_node. rewrite filter_app, filter_cons, filter_nil.
    destruct (decide (nid = node_id_of resolved r)) as [->|Hne].
    + rewrite decide_True by done. by rewrite last_snoc.
    + rewrite decide_False by done. rewrite app_nil_r. apply HI.
Qed.

End NodeFacts.


Lemma last_filter_Some {A : Type} (P : A -> Prop) `{forall x, Decision (P x)}
    (l : list A) (x : A) :
  last (filter P l) = Some x ->
  exists pre post, l = pre ++ x :: post /\ P x /\ Forall (fun y => ~ P y) post.
Proof.
  induction l as [|y l IH] using rev_ind; [done|].
  rewrite filter_app, filter_cons, filter_nil.
  destruct (decide (P y)) as [Hy|Hy].
  - rewrite last_snoc. intros [= ->]. exists l, []. done.
  - rewrite app_nil_r. intros (pre & post & -> & Hx & Hpost)%IH.
    exists pre, (post ++ [y]). split; [by rewrite <- app_assoc|]. split; [done|].
    apply Forall_app. split; [done|]. by constructor.
Qed.

Lemma mapM_Raise {A B : Type} (f : A -> result B) (l : list A) (e : exn) :
  mapM f l = Raise e -> exists x, x ∈ l /\ f x = Raise e.
Proof.
  induction l as [|x l IH]; cbn [mapM]; [done|].
  destruct (f x) as [y|e'] eqn:E; cbn.
  - change (mapM f l) with (mapM f l) in IH.
    destruct (mapM f l) as [k|e']; cbn; [done|].
    intros [= <-]. destruct (IH eq_refl) as (x' & Hin & Hx'). exists x'. split; [by right|done].
  - intros [= <-]. exists x. split; [by left|done].
Qed.

Section RunExtras.
Context {U : UnicodeDB} {service : OpenAlex} {host : Host}.

(** The two stages of the graph of a run. *)
Lemma run_graph (rtf select : pystr) (out : Output) :
  main rtf select = Ok out ->
  let rows := out_rows out in
  let resolved := out_resolved out in
  let G := out_graph out in
  NoDup (g_nodes G).*1
  /\ (length (g_edges G) <= length (out_edges_rows out))%nat
  /\ forall nid, dict_get nid (g_nodes G)
       = (fun r => Some (node_attrs r (dict_get (ref_no r) resolved)))
           <$> last (rows_of_node resolved nid rows).
Proof.
  intros Hmain rows resolved G.
  pose proof (main_stages _ _ _ Hmain) as (_ & _ & _ & _ & _ & _ & _ & Hg & _).
  pose proof (main_facts _ _ _ Hmain) as (Hnd & _ & _ & _ & _ & Hrnd & Hsub & _).
  fold rows resolved G in Hg, Hnd, Hrnd, Hsub.
  apply build_graph_Ok in Hg as (G0 & Hnodes & Hedges).
  destruct (add_nodes_spec rows resolved Hnd) as (G0' & Hnodes' & HE & Hkeys & _).
  rewrite Hnodes in Hnodes'. injection Hnodes' as <-.
  destruct (add_edges_spec rows resolved Hnd Hrnd Hsub G0 HE Hkeys)
    as (G' & er' & Hedges' & Hsame & _).
  rewrite Hedges in Hedges'. injection Hedges' as <- <-.
  destruct (add_nodes_last rows resolved Hnd) as (G0' & Hnodes' & Hlast).
  rewrite Hnodes in Hnodes'. injection Hnodes' as <-.
  split; [|split].
  - rewrite Hsame. by apply (add_nodes_keeps_NoDup _ _ _ _ _ Hnodes), NoDup_nil.
  - pose proof (add_edges_length _ _ _ _ _ _ _ Hedges) as Hlen. rewrite HE in Hlen.
    cbn in Hlen. done.
  - intros nid. rewrite Hsame. apply Hlast.
Qed.

Lemma run_chosen (rtf select : pystr) (out : Output) :
  main rtf select = Ok out ->
  Sorted Z.le (out_chosen out) /\ NoDup (out_chosen out) /\ out_chosen out <> []
  /\ (forall n, n ∈ out_chosen out -> n ∈ (dict_of (out_refs out)).*1).
Proof.
  intros Hmain.
  pose proof (main_stages _ _ _ Hmain) as (_ & _ & _ & Hne & Hsel & _).
  pose proof (parse_selection_sorted _ _ _ Hsel) as (Hs & Hnd & Hin).
  split; [done|]. split; [done|]. split.
  - apply (parse_selection_nonempty _ _ _ Hsel).
    destruct (out_refs out) as [|[n raw0] refs] eqn:E; [done|].
    intros Hempty.
    assert (n ∈ (list_to_set (dict_of ((n, raw0) :: refs)).*1 : gset Z)) as Hn.
    { apply elem_of_list_to_set, dict_of_keys. cbn. left. }
    rewrite Hempty in Hn. by apply elem_of_empty in Hn.
  - intros n Hn%Hin. by apply elem_of_list_to_set in Hn.
Qed.

Lemma run_counts_nodes (rtf select : pystr) (out : Output) :
  main rtf select = Ok out -> (1 <= length (g_nodes (out_graph out)))%nat.
Proof.
  intros Hmain.
  pose proof (main_facts _ _ _ Hmain) as (_ & Hnos & _ & _ & _ & _ & _ & _ & Hkeys & _).
  pose proof (run_chosen _ _ _ Hmain) as (_ & _ & Hcne & _).
  destruct (out_rows out) as [|r rows] eqn:Er.
  { rewrite <- Hnos in Hcne. done. }
  assert (node_id_of (out_resolved out) r ∈ (g_nodes (out_graph out)).*1) as Hin.
  { apply Hkeys. rewrite fmap_cons. left. }
  rewrite <- (length_fmap fst). destruct ((g_nodes (out_graph out)).*1); [|cbn; lia].
  by apply elem_of_nil in Hin.
Qed.

(** X9. The counts that a run reports are consistent: the chosen
    references are at most the blocks found; each of them is either
    resolved or listed unresolved; the graph has at least one node and at
    most one per chosen reference, and at most one edge per row of the
    edge table. *)
Theorem run_counts (rtf select : pystr) (out : Output) :
  main rtf select = Ok out ->
  (n_chosen out <= n_found out)%nat
  /\ (n_resolved out + length (out_unresolved out) = n_chosen out)%nat
  /\ (1 <= n_nodes out <= n_chosen out)%nat
  /\ (n_edges out <= length (out_edges_rows out))%nat.
Proof.
  intros Hmain.
  pose proof (main_stages _ _ _ Hmain)
    as (_ & _ & _ & _ & _ & _ & _ & _ & _ & _ & -> & -> & -> & -> & ->).
  pose proof (main_facts _ _ _ Hmain)
    as (Hnd & Hnos & _ & Hres & Hunres & _ & _ & _ & Hkeys & _).
  pose proof (run_chosen _ _ _ Hmain) as (_ & Hcnd & Hcne & Hcin).
  pose proof (run_graph _ _ _ Hmain) as (Hgnd & Hedges & _).
  assert (length (out_rows out) = length (out_chosen out)) as Hlen
    by by rewrite <- Hnos, length_fmap.
  split; [|split; [|split]].
  - pose proof (NoDup_incl_length _ _ Hcnd Hcin) as H1.
    rewrite length_fmap in H1. pose proof (dict_of_length (out_refs out)). lia.
  - rewrite Hres, Hunres, resolved_unresolved_length. done.
  - split.
    + destruct (out_rows out) as [|r rows] eqn:Er.
      { rewrite <- Hnos in Hcne. done. }
      assert (node_id_of (out_resolved out) r ∈ (g_nodes (out_graph out)).*1) as Hin.
      { apply Hkeys. rewrite fmap_cons. left. }
      rewrite <- (length_fmap fst). destruct ((g_nodes (out_graph out)).*1); [|cbn; lia].
      by apply elem_of_nil in Hin.
    + rewrite <- Hlen, <- (length_fmap fst (g_nodes _)),
        <- (length_fmap (node_id_of (out_resolved out)) (out_rows out)).
      apply NoDup_incl_length; [done|]. intros x. apply Hkeys.
  - done.
Qed.

(** X10. When several chosen references have the same node identity,
    they are one node: it carries the attributes of the one with the
    greatest number, and the graph has fewer nodes than references were
    chosen. *)
Theorem shared_node_last_entry (rtf select : pystr) (out : Output) :
  main rtf select = Ok out ->
  let node_of n nid := dict_get n (out_node_id_by_ref out) = Some nid in
  (forall nid a, (nid, a) ∈ g_nodes (out_graph out) ->
     exists r, r ∈ out_rows out /\ node_of (ref_no r) nid
       /\ a = Some (node_attrs r (dict_get (ref_no r) (out_resolved out)))
       /\ forall m, node_of m nid -> m <= ref_no r)
  /\ (forall m n nid, m <> n -> node_of m nid -> node_of n nid ->
        (n_nodes out < n_chosen out)%nat).
Proof.
  intros Hmain node_of.
  pose proof (main_stages _ _ _ Hmain)
    as (_ & _ & _ & _ & _ & _ & _ & _ & _ & _ & _ & Hnc & _ & Hnn & _).
  pose proof (main_facts _ _ _ Hmain)
    as (Hnd & Hnos & _ & _ & _ & _ & _ & Hnids & Hkeys & _).
  pose proof (run_chosen _ _ _ Hmain) as (Hsorted & _).
  pose proof (run_graph _ _ _ Hmain) as (Hgnd & _ & Hlast).
  set (rows := out_rows out) in *. set (resolved := out_resolved out) in *.
  assert (forall n nid, node_of n nid <->
            exists r, r ∈ rows /\ ref_no r = n /\ node_id_of resolved r = nid) as Hnode.
  { intros n nid. unfold node_of. rewrite Hnids. split.
    - intros H%dict_get_elem_of. by apply node_ids_elem_of in H.
    - intros (r & Hr & <- & <-). by apply node_ids_get. }
  split.
  - intros nid a Hin. apply (dict_elem_of_get _ _ _ Hgnd) in Hin.
    rewrite Hlast in Hin. fold rows resolved in Hin.
    destruct (last (rows_of_node resolved nid rows)) as [r|] eqn:El; [|done].
    injection Hin as <-.
    apply last_filter_Some in El as (pre & post & Hrows & Hid & Hpost).
    assert (r ∈ rows) as Hr by (rewrite Hrows, elem_of_app; right; left).
    exists r. split; [done|]. split; [apply Hnode; eauto|]. split; [done|].
    intros m (r' & Hr' & <- & Hid')%Hnode.
    rewrite Hrows, elem_of_app, elem_of_cons in Hr'.
    destruct Hr' as [Hpre|[->|Hpost']]; [|lia|].
    + rewrite <- Hnos, Hrows, fmap_app, fmap_cons in Hsorted.
      apply (Sorted_StronglySorted _) in Hsorted.
      apply (StronglySorted_app_1_elem_of _ _ _ (ref_no r') (ref_no r)) in Hsorted; [done| |left].
      apply list_elem_of_fmap. eauto.
    + rewrite Forall_forall in Hpost. by destruct (Hpost r' Hpost').
  - intros m n nid Hmn (r1 & Hr1 & <- & Hid1)%Hnode (r2 & Hr2 & <- & Hid2)%Hnode.
    rewrite Hnn, Hnc, <- Hnos, length_fmap.
    rewrite <- (length_fmap fst (g_nodes _)), <- (length_fmap (node_id_of resolved) rows).
    apply NoDup_incl_length_lt; [done|intros x; apply Hkeys|].
    intros Hinj.
    apply list_elem_of_lookup in Hr1 as [i Hi]. apply list_elem_of_lookup in Hr2 as [k Hk].
    assert (i = k) as ->; [|congruence].
    eapply NoDup_lookup; [exact Hinj|..]; rewrite list_lookup_fmap.
    + by rewrite Hi.
    + rewrite Hk. cbn. by rewrite Hid2, Hid1.
Qed.

(** *** How a run can fail *)

Lemma parse_selection_Raise (selection : pystr) (A : gset Z) (e : exn) :
  parse_selection selection A = Raise e ->
  e = SelectionEmpty \/ exists lit, e = InvalidLiteral lit.
Proof.
  destruct (decide (lower (strip selection) = py "all")) as [Hall|Hall].
  { unfold parse_selection. by rewrite bool_decide_eq_true_2. }
  pose proof (parse_selection_pieces selection A Hall) as H.
  destruct (mapM piece_bounds (selection_pieces selection)) as [bounds|e'] eqn:Em.
  - destruct H as (chosen & _ & ->). case_bool_decide; [|done].
    intros [= <-]. by left.
  - rewrite H. intros [= <-]. right.
    apply mapM_Raise in Em as (p & _ & Hp). by eapply piece_bounds_Raise.
Qed.

(** X11. A run never fails with a [KeyError]: each lookup in [ref_map],
    [node_id_by_ref] and [ref_by_node_id] finds its key, and the node
    table has the column it is sorted by. *)
Theorem main_never_KeyError (rtf select : pystr) :
  main rtf select <> Raise KeyError.
Proof.
  intros [Htxt|[(txt & _ & Hrefs)|[?|[(txt & refs & _ & _ & _ & Hsel)|[[? _]|?]]]]]%main_Raise;
    try done.
  - by apply rtf_to_text_Raise in Htxt as (code & ? & _).
  - destruct (split_numbered_refs_total txt) as [refs Hrefs']. congruence.
  - by apply parse_selection_Raise in Hsel as [?|[lit ?]].
Qed.

(** X12. A file without a backslash and without an opening bracket has
    no numbered reference: the run stops with the no-references exit,
    whatever the selection and the service. *)
Theorem main_no_references (rtf select : pystr) :
  92 ∉ rtf -> 91 ∉ rtf -> main rtf select = Raise NoReferences.
Proof.
  intros Hb Hk. destruct (unescaped_no_backslash rtf Hb) as (s0 & Hs0 & Hs).
  assert (exists txt, rtf_to_text rtf = Ok txt /\ 91 ∉ txt) as (txt & Htxt & Hno).
  { eexists. split.
    - apply rtf_to_text_Ok. exists rtf. split; [by exists s0|done].
    - intros Hx. apply (unescaped_braces rtf rtf _ 91 eq_refl) in Hx.
      destruct Hx as [?|[?|(? & _)]]; done. }
  unfold main. rewrite Htxt. cbn. by rewrite split_numbered_refs_no_bracket.
Qed.

(** X13. When the lookup by DOI answers, the answer decides: the
    reference resolves to that work if the work has an identity, and is
    listed unresolved, under its placeholder, if it has none; the search
    by title is not consulted. *)
Theorem doi_answer_decides (rtf select : pystr) (out : Output)
    (r : Row) (d : pystr) (j : WorkJson) :
  main rtf select = Ok out -> r ∈ out_rows out ->
  doi r = Some d -> d <> [] -> oa_work_by_doi d = Some j ->
  match j_id j with
  | Some (c :: i) =>
    dict_get (ref_no r) (out_resolved out) = Some (normalize_oa j)
    /\ dict_get (ref_no r) (out_node_id_by_ref out) = Some (c :: i)
  | _ =>
    ref_no r ∈ out_unresolved out
    /\ dict_get (ref_no r) (out_node_id_by_ref out) = Some (unresolved_id (ref_no r))
  end.
Proof.
  intros Hmain Hr Hdoi Hd Hj.
  pose proof (main_facts _ _ _ Hmain) as (Hnd & _ & _ & Hres & Hunres & _ & _ & Hnids & _).
  assert (resolve_row r
          = if truthy_str (w_id (normalize_oa j)) then Some (normalize_oa j) else None) as Hrow.
  { unfold resolve_row. rewrite Hdoi. destruct d as [|c d]; [done|]. cbn [truthy_str].
    by rewrite Hj. }
  pose proof (resolved_of_get _ r Hnd Hr) as Hget. rewrite <- Hres in Hget.
  rewrite Hnids, (node_ids_get _ _ Hnd r Hr). unfold node_id_of. rewrite Hget.
  assert (w_id (normalize_oa j) = default [] (j_id j)) as Hid by done.
  rewrite Hid in Hrow.
  destruct (j_id j) as [[|c i]|] eqn:Ej; cbn in Hrow; rewrite Hrow.
  - split; [|done]. rewrite Hunres. apply unresolved_of_elem_of. eauto.
  - split; [done|]. by rewrite Hid.
  - split; [|done]. rewrite Hunres. apply unresolved_of_elem_of. eauto.
Qed.

End RunExtras.

Lemma run_counts_witness :
  exists out, twin_run = Ok out
    /\ n_found out = 3%nat /\ n_chosen out = 3%nat /\ n_resolved out = 3%nat
    /\ n_nodes out = 2%nat /\ n_edges out = 2%nat
    /\ out_edges_rows out = [(4, 2); (4, 2); (2, 4); (4, 2); (4, 2)]
    /\ (n_edges out <= length (out_edges_rows out))%nat.
Proof.
  eexists. split; [vm_compute; reflexivity|]. repeat split.
  apply (@run_counts ascii_db twin_service sample_host twin_rtf (py "all")).
  vm_compute. reflexivity.
Defined.

Lemma shared_node_last_entry_witness :
  exists out, twin_run = Ok out
    /\ out_node_id_by_ref out = [(1, py "W1"); (2, py "W2"); (4, py "W1")]
    /\ (exists a, dict_get (py "W1") (g_nodes (out_graph out)) = Some (Some a)
                   /\ n_ref_no a = 4)
    /\ (n_nodes out < n_chosen out)%nat.
Proof.
  eexists. split; [vm_compute; reflexivity|]. split; [reflexivity|].
  split; [eexists; split; reflexivity|].
  refine (proj2 (@shared_node_last_entry ascii_db twin_service sample_host twin_rtf (py "all") _ _)
                1 4 (py "W1") _ _ _).
  - vm_compute. reflexivity.
  - discriminate.
  - vm_compute. reflexivity.
  - vm_compute. reflexivity.
Defined.

(** ** The client *)

Section ClientFacts.
Import Http.
Context {T J : Type}.
Variable net : nat -> pystr -> option (odict pystr param) -> reply J.
Variables (url : pystr) (params : option (odict pystr param)) (sleep_s : T).

Lemma requests_app (l k : list (event T)) : requests (l ++ k) = (requests l + requests k)%nat.
Proof. unfold requests. by rewrite filter_app, length_app. Qed.

Lemma requests_one (e : event T) : requests [e] = if is_get e then 1%nat else 0%nat.
Proof.
  unfold requests. rewrite filter_cons, filter_nil.
  destruct (is_get e); [by rewrite decide_True|by rewrite decide_False].
Qed.

Lemma backoff_total_app (l k : list (event T)) :
  backoff_total (l ++ k) = backoff_total l + backoff_total k.
Proof.
  unfold backoff_total. induction l as [|e l IH]; cbn [app foldr]; [lia|].
  destruct e; lia.
Qed.

Lemma retried_rounds_S (first n : nat) :
  retried_rounds url params sleep_s first (S n)
  = [Sleep sleep_s; Get url params; Backoff (2 ^ Z.of_nat first)]
    ++ retried_rounds url params sleep_s (S first) n.
Proof. done. Qed.

Lemma retried_rounds_requests (first n : nat) :
  requests (retried_rounds url params sleep_s first n) = n.
Proof.
  revert first. induction n as [|n IH]; intros first; [done|].
  rewrite retried_rounds_S. change [Sleep sleep_s; Get url params; Backoff (2 ^ Z.of_nat first)]
    with ([Sleep sleep_s] ++ [Get url params] ++ [@Backoff T (2 ^ Z.of_nat first)]).
  rewrite !requests_app, !requests_one, IH. done.
Qed.

Lemma retried_rounds_backoff (first n : nat) :
  backoff_total (retried_rounds url params sleep_s first n)
  = 2 ^ Z.of_nat first * (2 ^ Z.of_nat n - 1).
Proof.
  revert first. induction n as [|n IH]; intros first.
  - cbn. lia.
  - rewrite retried_rounds_S, backoff_total_app, IH.
    cbn [backoff_total foldr]. rewrite !Nat2Z.inj_succ, !Z.pow_succ_r by lia. lia.
Qed.

(** The first round that is not retried, if there is one among the
    [retries] of the call. *)
Lemma first_decisive (f : nat -> bool) (retries : nat) :
  exists i, (i <= retries)%nat
    /\ (forall k, (k < i)%nat -> f k = true)
    /\ (i = retries \/ ((i < retries)%nat /\ f i = false)).
Proof.
  induction retries as [|n (i & Hi & Hbefore & Hat)].
  - exists 0%nat. split; [lia|]. split; [lia|]. by left.
  - destruct Hat as [->|[Hlt Hf]].
    + destruct (f n) eqn:E.
      * exists (S n). split; [lia|]. split; [|by left].
        intros k Hk. destruct (decide (k = n)) as [->|]; [done|]. apply Hbefore. lia.
      * exists n. split; [lia|]. split; [done|]. right. split; [lia|done].
    + exists i. split; [lia|]. split; [done|]. right. split; [lia|done].
Qed.

(** What a call does, given the round [i] at which it ends: the rounds
    before it are retried, each with its backoff, and round [i], if the
    call has that many, is the request whose reply is the result. *)
Lemma attempts_spec (retries : nat) :
  forall (b : nat) (log : list (event T)) (i : nat),
    (forall k, (k < i)%nat -> retried (net (requests log + k) url params) = true) ->
    i = retries \/ ((i < retries)%nat /\ retried (net (requests log + i) url params) = false) ->
    attempts net url params sleep_s retries (2 ^ Z.of_nat b) log
    = (if (i <? retries)%nat then result_of (net (requests log + i) url params) else None,
       log ++ retried_rounds url params sleep_s b i
           ++ (if (i <? retries)%nat then [Sleep sleep_s; Get url params] else [])).
Proof.
  induction retries as [|n IH]; intros b log i Hbefore Hat.
  - destruct Hat as [->|[Hlt _]]; [|lia]. cbn. by rewrite app_nil_r.
  - cbn [attempts].
    assert (requests (log ++ [Sleep sleep_s]) = (requests log + 0)%nat) as ->
      by (rewrite requests_app, requests_one; cbn; lia).
    destruct i as [|i].
    + destruct Hat as [?|[_ Hnot]]; [lia|].
      assert ((0 <? S n)%nat = true) as -> by done. cbn [retried_rounds seq flat_map app].
      rewrite <- app_assoc. cbn [app].
      destruct (net (requests log + 0) url params) as [c j|]; [|done].
      cbn in Hnot |- *. destruct (c =? 200); [done|]. cbn in Hnot. by rewrite Hnot.
    + pose proof (Hbefore 0%nat ltac:(lia)) as H0.
      assert (forall log' : list (event T),
                log' = (log ++ [Sleep sleep_s]) ++ [Get url params] ->
                attempts net url params sleep_s n (2 ^ Z.of_nat b * 2)
                         (log' ++ [Backoff (2 ^ Z.of_nat b)])
                = (if (S i <? S n)%nat
                   then result_of (net (requests log + S i) url params) else None,
                   log ++ retried_rounds url params sleep_s b (S i)
                       ++ (if (S i <? S n)%nat then [Sleep sleep_s; Get url params] else [])))
        as Hnext.
      { intros log' ->.
        replace (2 ^ Z.of_nat b * 2) with (2 ^ Z.of_nat (S b))
          by (rewrite Nat2Z.inj_succ, Z.pow_succ_r by lia; lia).
        assert (requests (((log ++ [Sleep sleep_s]) ++ [Get url params])
                            ++ [Backoff (2 ^ Z.of_nat b)]) = S (requests log)) as Hreq.
        { rewrite !requests_app, !requests_one. cbn. lia. }
        rewrite (IH (S b) _ i).
        - rewrite Hreq. replace (S (requests log) + i)%nat with (requests log + S i)%nat by lia.
          change (S i <? S n)%nat with (i <? n)%nat. f_equal.
          rewrite retried_rounds_S, <- !app_assoc. done.
        - intros k Hk. rewrite Hreq.
          replace (S (requests log) + k)%nat with (requests log + S k)%nat by lia.
          apply Hbefore. lia.
        - rewrite Hreq.
          replace (S (requests log) + i)%nat with (requests log + S i)%nat by lia.
          destruct Hat as [Heq|[Hlt Hnot]]; [left; lia|right; split; [lia|done]]. }
      destruct (net (requests log + 0) url params) as [c j|]; [|by apply Hnext].
      cbn in H0. apply andb_true_iff in H0 as [Hc Hr]. apply negb_true_iff in Hc.
      rewrite Hc, Hr. by apply Hnext.
Qed.

End ClientFacts.

Section ClientTheorems.
Import Http.
Context {T J : Type}.
Variable net : nat -> pystr -> option (odict pystr param) -> reply J.
Variables (url : pystr) (params : option (odict pystr param)) (sleep_s : T).

Lemma oa_get_json_spec (retries : nat) (log : list (event T)) :
  exists i, (i <= retries)%nat
    /\ (forall k, (k < i)%nat -> retried (reply_at net url params log k) = true)
    /\ (i = retries \/ ((i < retries)%nat /\ retried (reply_at net url params log i) = false))
    /\ oa_get_json net url params sleep_s retries log
       = (if (i <? retries)%nat then result_of (reply_at net url params log i) else None,
          log ++ retried_rounds url params sleep_s 0 i
              ++ (if (i <? retries)%nat then [Sleep sleep_s; Get url params] else [])).
Proof.
  destruct (first_decisive (fun k => retried (reply_at net url params log k)) retries)
    as (i & Hi & Hbefore & Hat).
  exists i. split; [done|]. split; [done|]. split; [done|].
  unfold oa_get_json. by apply (attempts_spec net url params sleep_s retries 0 log i).
Qed.

Variable time_sleep : T -> bool.

(** For a wait that [time.sleep] accepts the call is the loop of rounds;
    for one that it refuses the call ends at its first wait, before any
    request. *)
Lemma attempts_exn_accepted (retries : nat) (b : Z) (log : list (event T)) :
  time_sleep sleep_s = true ->
  attempts_exn net time_sleep url params sleep_s retries b log
  = (Ok (attempts net url params sleep_s retries b log).1,
     (attempts net url params sleep_s retries b log).2).
Proof.
  intros Hs. revert b log.
  induction retries as [|n IH]; intros b log; cbn [attempts attempts_exn]; [done|].
  rewrite Hs. destruct (net _ url params) as [c j|]; [|apply IH].
  destruct (c =? 200); [done|]. destruct (retry_status c); [apply IH|done].
Qed.



(** X15. For a wait that [time.sleep] accepts, a call of [oa_get_json]
    makes its requests one at a time, each after the configured wait;
    after each reply that is retried it waits the backoff, 1 second at
    first and twice as long each time, also after the last request of
    the call.  So a call makes at most [retries] requests and waits less
    than [2 ^ retries] seconds of backoff. *)
Theorem oa_get_json_effort (retries : nat) (log : list (event T)) :
  time_sleep sleep_s = true ->
  exists i, (i <= retries)%nat
    /\ (forall k, (k < i)%nat -> retried (reply_at net url params log k) = true)
    /\ (i = retries \/ ((i < retries)%nat /\ retried (reply_at net url params log i) = false))
    /\ (oa_get_json_exn net time_sleep url params sleep_s retries log).2
       = log ++ retried_rounds url params sleep_s 0 i
             ++ (if (i <? retries)%nat then [Sleep sleep_s; Get url params] else [])
    /\ (requests (oa_get_json_exn net time_sleep url params sleep_s retries log).2
        <= requests log + retries)%nat
    /\ backoff_total (oa_get_json_exn net time_sleep url params sleep_s retries log).2
       = backoff_total log + (2 ^ Z.of_nat i - 1)
    /\ 2 ^ Z.of_nat i - 1 < 2 ^ Z.of_nat retries.
Proof.
  intros Hs. unfold oa_get_json_exn. rewrite attempts_exn_accepted by done. cbn [snd].
  fold (oa_get_json net url params sleep_s retries log).
  destruct (oa_get_json_spec retries log) as (i & Hi & Hbefore & Hat & ->). cbn [snd].
  exists i. split; [done|]. split; [done|]. split; [done|]. split; [done|].
  rewrite !requests_app, !backoff_total_app, retried_rounds_requests, retried_rounds_backoff.
  assert (2 ^ Z.of_nat i <= 2 ^ Z.of_nat retries) by (apply Z.pow_le_mono_r; lia).
  split; [|split; [|lia]].
  - destruct (Nat.ltb_spec i retries).
    + change [Sleep sleep_s; Get url params] with ([@Sleep T sleep_s] ++ [Get url params]).
      rewrite requests_app, !requests_one. cbn. lia.
    + cbn. lia.
  - destruct (i <? retries)%nat; cbn; lia.
Qed.


(** When the network is stationary, the result of a call does not
    depend on what was done before. *)
Lemma attempts_stationary (retries : nat) (b b' : Z) (log log' : list (event T)) :
  stationary net ->
  (attempts net url params sleep_s retries b log).1
  = (attempts net url params sleep_s retries b' log').1.
Proof.
  intros Hnet. revert b b' log log'.
  induction retries as [|n IH]; intros b b' log log'; cbn [attempts]; [done|].
  rewrite (Hnet (requests (log ++ [Sleep sleep_s])) (requests (log' ++ [Sleep sleep_s]))).
  destruct (net _ url params) as [c j|]; [|apply IH].
  destruct (c =? 200); [done|]. destruct (retry_status c); [apply IH|done].
Qed.

End ClientTheorems.


Lemma oa_get_json_effort_witness :
  (Http.requests
     (@Http.oa_get_json_exn unit Z flaky_net (fun _ => true) (py "u") None tt 4 []).2
   <= 0 + 4)%nat.
Proof.
  destruct (@oa_get_json_effort unit Z flaky_net (py "u") None tt (fun _ => true) 4 []
              eq_refl) as (i & _ & _ & _ & _ & H & _).
  exact H.
Defined.

(** ** The resolution loop over the network *)

Section ResolveFacts.
Context {U : UnicodeDB} {T : Type}.
Variable net : nat -> pystr -> option (odict pystr Http.param) -> Http.reply Http.Json.
Variable sleep_s : T.





Hypothesis net_stationary : stationary net.

Lemma oa_work_by_doi_stationary (d : pystr) (log : list (Http.event T)) :
  (Http.oa_work_by_doi net d sleep_s log).1 = (Http.oa_work_by_doi net d sleep_s []).1.
Proof. by apply attempts_stationary. Qed.

Lemma oa_search_stationary (title : pystr) (year : option Z) (log : list (Http.event T)) :
  (Http.oa_search_by_title_year net title year sleep_s log).1
  = (Http.oa_search_by_title_year net title year sleep_s []).1.
Proof. by apply attempts_stationary. Qed.

Lemma resolve_stationary (r : Row) (log : list (Http.event T)) :
  (Http.resolve net r sleep_s log).1 = @resolve_row U (service_of net sleep_s) r.
Proof.
  unfold Http.resolve, resolve_row.
  cbn [service_of oa_work_by_doi oa_search_by_title_year].
  assert (forall log1,
            (let '(sr, log2) :=
               Http.oa_search_by_title_year net (title r) (pub_year_guess r) sleep_s log1 in
             (match sr with
              | Some (Some o) =>
                match Http.o_results o with
                | Some (first :: _) => Some (normalize_oa first)
                | _ => None
                end
              | _ => None
              end, log2)).1
            = match
                match (Http.oa_search_by_title_year net (title r) (pub_year_guess r)
                         sleep_s []).1 with
                | Some (Some o) => Http.o_results o
                | _ => None
                end
              with
              | Some (first :: _) => Some (normalize_oa first)
              | _ => None
              end) as Hsearch.
  { intros log1. rewrite <- (oa_search_stationary _ _ log1).
    destruct (Http.oa_search_by_title_year net _ _ sleep_s log1) as [[[o|]|] log2]; cbn [fst];
      try done. }
  assert (forall (w : option OAWork) (log1 : list (Http.event T)),
            (let '(w0, log2) :=
               match w with
               | Some w0 => (Some w0, log1)
               | None =>
                 let '(sr, log2) :=
                   Http.oa_search_by_title_year net (title r) (pub_year_guess r)
                     sleep_s log1 in
                 (match sr with
                  | Some (Some o) =>
                    match Http.o_results o with
                    | Some (first :: _) => Some (normalize_oa first)
                    | _ => None
                    end
                  | _ => None
                  end, log2)
               end in
             (match w0 with
              | Some w1 => if truthy_str (w_id w1) then Some w1 else None
              | None => None
              end, log2)).1
            = match
                match w with
                | Some w => Some w
                | None =>
                  match
                    match (Http.oa_search_by_title_year net (title r) (pub_year_guess r)
                             sleep_s []).1 with
                    | Some (Some o) => Http.o_results o
                    | _ => None
                    end
                  with
                  | Some (first :: _) => Some (normalize_oa first)
                  | _ => None
                  end
                end
              with
              | Some w => if truthy_str (w_id w) then Some w else None
              | None => None
              end) as Hrest.
  { intros [w|] log1; [done|]. rewrite <- Hsearch with (log1 := log1).
    destruct (Http.oa_search_by_title_year net _ _ sleep_s log1) as [sr log2]. done. }
  destruct (doi r) as [d|]; [|exact (Hrest None log)].
  destruct (truthy_str d); [|exact (Hrest None log)].
  rewrite <- (oa_work_by_doi_stationary d log).
  destruct (Http.oa_work_by_doi net d sleep_s log) as [data log1]. cbn [fst].
  destruct data as [[o|]|].
  - exact (Hrest (Some (normalize_oa (Http.o_work o))) log1).
  - exact (Hrest None log1).
  - exact (Hrest None log1).
Qed.

(** X17. When the network answers a request the same way whenever it is
    made, the resolved works and the unresolved numbers of the loop over
    the network are those of the run over the service that the network
    stands for: the waits and the retries do not show in the result. *)
Theorem resolve_rows_service (rows : list Row) (log : list (Http.event T)) :
  (Http.resolve_rows net rows sleep_s log).1 = @resolve_all U (service_of net sleep_s) rows.
Proof.
  unfold Http.resolve_rows, resolve_all.
  assert (forall (resolved : odict Z OAWork) (unresolved : list Z) (log0 : list (Http.event T)),
            (fold_left
               (fun st r =>
                  let '(resolved, unresolved, log) := st in
                  let '(w, log) := Http.resolve net r sleep_s log in
                  match w with
                  | Some w => (dict_set (ref_no r) w resolved, unresolved, log)
                  | None => (resolved, unresolved ++ [ref_no r], log)
                  end) rows (resolved, unresolved, log0)).1
            = fold_left
                (fun st r =>
                   match @resolve_row U (service_of net sleep_s) r with
                   | Some w => (dict_set (ref_no r) w st.1, st.2)
                   | None => (st.1, st.2 ++ [ref_no r])
                   end) rows (resolved, unresolved)) as Hgen.
  { induction rows as [|r rows IH]; intros resolved unresolved log0; [done|].
    cbn [fold_left]. rewrite <- (resolve_stationary r log0).
    destruct (Http.resolve net r sleep_s log0) as [[w|] log1]; cbn [fst snd]; apply IH. }
  apply Hgen.
Qed.

End ResolveFacts.

Lemma key_le_total (a b : Z * option Z) : key_le a b = true \/ key_le b a = true.
Proof.
  unfold key_le. destruct a as [a1 [a2|]], b as [b1 [b2|]]; cbn;
    destruct (Z.ltb_spec a1 b1), (Z.ltb_spec b1 a1), (Z.eqb_spec a1 b1), (Z.eqb_spec b1 a1);
    cbn; try lia; auto;
    destruct (Z.leb_spec a2 b2), (Z.leb_spec b2 a2); auto; lia.
Qed.

Lemma key_le_trans (a b c : Z * option Z) :
  key_le a b = true -> key_le b c = true -> key_le a c = true.
Proof.
  unfold key_le. destruct a as [a1 [a2|]], b as [b1 [b2|]], c as [c1 [c2|]]; cbn;
    destruct (Z.ltb_spec a1 b1), (Z.ltb_spec b1 c1), (Z.ltb_spec a1 c1),
             (Z.eqb_spec a1 b1), (Z.eqb_spec b1 c1), (Z.eqb_spec a1 c1);
    cbn; try lia; try done;
    rewrite ?Z.leb_le; try lia.
Qed.

Lemma insert_row_Permutation (x : node_row) (l : list node_row) : insert_row x l ≡ₚ x :: l.
Proof.
  induction l as [|y l IH]; [done|]. cbn [insert_row].
  destruct (key_le (sort_key y) (sort_key x)); [|done].
  rewrite IH. apply Permutation_swap.
Qed.

Lemma sort_rows_Permutation (l : list node_row) : sort_rows l ≡ₚ l.
Proof.
  unfold sort_rows.
  assert (forall acc, fold_left (fun acc x => insert_row x acc) l acc ≡ₚ acc ++ l) as Hgen.
  { induction l as [|x l IH]; intros acc; cbn [fold_left]; [by rewrite app_nil_r|].
    rewrite IH, insert_row_Permutation. cbn [app]. apply Permutation_middle. }
  apply (Hgen []).
Qed.

Lemma insert_row_sorted (x : node_row) (l : list node_row) :
  StronglySorted rows_le l -> StronglySorted rows_le (insert_row x l).
Proof.
  induction 1 as [|y l Hl IH Hy]; [repeat constructor|]. cbn [insert_row].
  destruct (key_le (sort_key y) (sort_key x)) eqn:E.
  - constructor; [done|]. rewrite insert_row_Permutation. by constructor.
  - assert (rows_le x y) as Hxy by (destruct (key_le_total (sort_key x) (sort_key y)); congruence).
    constructor; [by constructor|]. constructor; [done|].
    eapply Forall_impl; [exact Hy|]. intros z Hz. by eapply key_le_trans.
Qed.

Lemma sort_rows_sorted (l : list node_row) : StronglySorted rows_le (sort_rows l).
Proof.
  unfold sort_rows.
  assert (forall acc, StronglySorted rows_le acc ->
            StronglySorted rows_le (fold_left (fun acc x => insert_row x acc) l acc)) as Hgen.
  { induction l as [|x l IH]; intros acc Hacc; cbn [fold_left]; [done|].
    by apply IH, insert_row_sorted. }
  apply Hgen. constructor.
Qed.

Lemma StronglySorted_lookup {A : Type} (R : relation A) (l : list A) (i j : nat) (a b : A) :
  StronglySorted R l -> (i < j)%nat -> l !! i = Some a -> l !! j = Some b -> R a b.
Proof.
  intros Hs. revert i j. induction Hs as [|x l Hl IH Hx]; intros i j Hij Hi Hj; [done|].
  destruct j as [|j]; [lia|]. cbn in Hj. destruct i as [|i].
  - injection Hi as ->. rewrite Forall_forall in Hx. apply Hx.
    by eapply list_elem_of_lookup_2.
  - cbn in Hi. apply (IH i j); [lia|done|done].
Qed.

Lemma NoDup_fmap_eq {A B : Type} (f : A -> B) (l : list A) (x y : A) :
  NoDup (f <$> l) -> x ∈ l -> y ∈ l -> f x = f y -> x = y.
Proof.
  intros Hnd [i Hi]%list_elem_of_lookup [k Hk]%list_elem_of_lookup Hxy.
  assert (i = k) as ->; [|congruence].
  eapply NoDup_lookup; [exact Hnd|..]; rewrite list_lookup_fmap.
  - by rewrite Hi.
  - rewrite Hk. cbn. by rewrite Hxy.
Qed.

Section TableFacts.
Context {U : UnicodeDB} {service : OpenAlex} {host : Host}.

(** X18. The file of nodes of a run has one row for each node of the
    graph, in the order of the year, a node without a year counting as
    999999, and of the reference number within a year; no two rows have
    the same place in that order, and sorting never fails. *)
Theorem nodes_csv_order (rtf select : pystr) (out : Output) :
  main rtf select = Ok out ->
  exists table, nodes_csv (out_graph out) = Ok table
    /\ table ≡ₚ g_nodes (out_graph out)
    /\ forall i j a b, (i < j)%nat -> table !! i = Some a -> table !! j = Some b ->
         exists na nb, row_number a = Some na /\ row_number b = Some nb
           /\ (row_year a < row_year b \/ (row_year a = row_year b /\ na < nb)).
Proof.
  intros Hmain.
  pose proof (main_facts _ _ _ Hmain)
    as (Hnd & _ & Hrows & _ & _ & _ & _ & _ & Hkeys & Hattrs & _).
  rewrite Forall_forall in Hrows.
  pose proof (run_graph _ _ _ Hmain) as (Hgnd & _).
  pose proof (run_counts_nodes _ _ _ Hmain) as Hne.
  set (G := out_graph out) in *.
  exists (sort_rows (g_nodes G)). split; [|split].
  - unfold nodes_csv. destruct (g_nodes G); [cbn in Hne; lia|done].
  - apply sort_rows_Permutation.
  - intros i j [nida a] [nidb b] Hij Hi Hj.
    pose proof (sort_rows_Permutation (g_nodes G)) as Hperm.
    assert ((nida, a) ∈ g_nodes G) as Ha by (rewrite <- Hperm; by eapply list_elem_of_lookup_2).
    assert ((nidb, b) ∈ g_nodes G) as Hb by (rewrite <- Hperm; by eapply list_elem_of_lookup_2).
    pose proof (StronglySorted_lookup _ _ _ _ _ _ (sort_rows_sorted (g_nodes G)) Hij Hi Hj)
      as Hle.
    assert (nida <> nidb) as Hne_id.
    { intros ->.
      assert (NoDup (sort_rows (g_nodes G)).*1) as Hnd' by by rewrite Hperm.
      assert (i = j); [|lia].
      eapply NoDup_lookup; [exact Hnd'|..]; rewrite list_lookup_fmap.
      - by rewrite Hi.
      - by rewrite Hj. }
    apply Hattrs in Ha as (ra & Hra & -> & ->). apply Hattrs in Hb as (rb & Hrb & -> & ->).
    exists (ref_no ra), (ref_no rb). split; [done|]. split; [done|].
    assert (ref_no ra <> ref_no rb) as Hne_no.
    { intros Heq. apply Hne_id. f_equal. by eapply (NoDup_fmap_eq ref_no). }
    unfold rows_le, key_le, sort_key in Hle. unfold row_year. cbn [fst snd] in *.
    cbn [fmap option_fmap option_map node_attrs n_rtf_order] in Hle.
    apply orb_true_iff in Hle as [Hlt|Heq]; [left; lia|].
    apply andb_true_iff in Heq as [Hy Hr]. apply Z.eqb_eq in Hy. apply Z.leb_le in Hr.
    destruct (Hrows ra Hra) as (_ & Hoa & _). destruct (Hrows rb Hrb) as (_ & Hob & _).
    right. split; [done|]. lia.
Qed.

End TableFacts.

Lemma rtf_to_text_whitespace_witness :
  exists txt, @rtf_to_text ascii_db messy_rtf = Ok txt
    /\ txt = py "[1] A. Smith," ++ [NL] ++ py "2009."
    /\ single_spaced txt = true
    /\ trimmed txt = true
    /\ forall i, txt !! i = Some 10 -> exists c, txt !! S i = Some c /\ isspace c = false.
Proof.
  eexists. split; [vm_compute; reflexivity|]. split; [reflexivity|].
  apply (@rtf_to_text_whitespace ascii_db messy_rtf). vm_compute. reflexivity.
Defined.

Lemma rtf_to_text_plain_witness :
  @rtf_to_text ascii_db (py "[1] A. Smith, 2009." ++ [NL] ++ py "[2] B. Jones")
  = Ok (py "[1] A. Smith, 2009." ++ [NL] ++ py "[2] B. Jones").
Proof.
  apply (@rtf_to_text_plain ascii_db (py "[1] A. Smith, 2009." ++ [NL] ++ py "[2] B. Jones")).
  reflexivity.
Defined.

Lemma split_numbered_refs_pairs_witness :
  @split_numbered_refs ascii_db mid_line_text
  = Ok [(5, py "for details"); (1, py "A"); (2, py "B")]
  /\ Forall (fun nr : Z * pystr => 0 <= nr.1 /\ trimmed nr.2 = true)
            [(5, py "for details"); (1, py "A"); (2, py "B")].
Proof.
  split; [vm_compute; reflexivity|].
  apply (@split_numbered_refs_pairs ascii_db mid_line_text). vm_compute. reflexivity.
Defined.

Lemma main_no_references_witness :
  @main ascii_db sample_service sample_host (py "Bibliography: none.") (py "all") = Raise NoReferences.
Proof.
  apply (@main_no_references ascii_db sample_service sample_host (py "Bibliography: none.") (py "all")).
  - apply (bool_decide_unpack _). vm_compute. reflexivity.
  - apply (bool_decide_unpack _). vm_compute. reflexivity.
Defined.

Lemma doi_answer_decides_witness :
  exists out r, anonymous_run = Ok out /\ head (out_rows out) = Some r
    /\ ref_no r = 1
    /\ ref_no r ∈ out_unresolved out
    /\ dict_get (ref_no r) (out_node_id_by_ref out) = Some (unresolved_id (ref_no r)).
Proof.
  eexists _, _. split; [vm_compute; reflexivity|]. split; [vm_compute; reflexivity|].
  split; [reflexivity|].
  refine (@doi_answer_decides ascii_db anonymous_service sample_host sample_rtf (py "1,3") _ _
            (py "10.1000/a")
            {| j_id := None; j_display_name := Some (py "A"); j_publication_year := Some 2010;
               j_doi := None; j_referenced_works := None |} _ _ _ _ _).
  - vm_compute. reflexivity.
  - apply list_elem_of_lookup. exists 0%nat. vm_compute. reflexivity.
  - vm_compute. reflexivity.
  - discriminate.
  - reflexivity.
Defined.

Lemma resolve_rows_service_witness :
  (@Http.resolve_rows ascii_db unit constant_net [sample_row] tt []).1
  = @resolve_all ascii_db (service_of constant_net tt) [sample_row].
Proof.
  apply (@resolve_rows_service ascii_db unit constant_net tt).
  intros n m url params. reflexivity.
Defined.

Lemma nodes_csv_order_witness :
  exists out, twin_run = Ok out
    /\ exists table, nodes_csv (out_graph out) = Ok table
         /\ table ≡ₚ g_nodes (out_graph out)
         /\ forall i j a b, (i < j)%nat -> table !! i = Some a -> table !! j = Some b ->
              exists na nb, row_number a = Some na /\ row_number b = Some nb
                /\ (row_year a < row_year b \/ (row_year a = row_year b /\ na < nb)).
Proof.
  eexists. split; [vm_compute; reflexivity|].
  apply (@nodes_csv_order ascii_db twin_service sample_host twin_rtf (py "all")).
  vm_compute. reflexivity.
Defined.

(** ** One match in a text *)

Lemma free_of_app (f : pystr -> bool) (l1 l2 rest : pystr) :
  free_of f (l1 ++ l2) rest = free_of f l1 (l2 ++ rest) && free_of f l2 rest.
Proof.
  induction l1 as [|c l1 IH]; [done|]. cbn [app free_of].
  rewrite IH, <- !app_assoc. cbn [app]. by rewrite andb_assoc.
Qed.

Section OneMatch.
Context {M : Type} (pat : option Z -> pystr -> option (M * nat)).
Hypothesis pat_prev : forall p p' t, pat p t = pat p' t.

Lemma hits_None (prev : option Z) (t : pystr) : hits pat t = false -> pat prev t = None.
Proof. unfold hits. rewrite (pat_prev prev None). by destruct (pat None t). Qed.

Lemma sub_from_prev (repl : M -> result pystr) (s : pystr) (skip : nat) (prev prev' : option Z) :
  sub_from pat repl skip prev s = sub_from pat repl skip prev' s.
Proof.
  destruct s as [|c s]; [done|]. cbn [sub_from].
  destruct skip; [|done]. by rewrite (pat_prev prev prev').
Qed.

Lemma sub_from_skip (repl : M -> result pystr) (s : pystr) :
  forall skip prev,
    sub_from pat repl skip prev s = sub_from pat repl 0 None (drop skip s).
Proof.
  induction s as [|c s IH]; intros skip prev.
  - by destruct skip.
  - destruct skip as [|k]; [apply sub_from_prev|]. cbn [sub_from drop]. apply IH.
Qed.

(** Before the first match the text is kept. *)
Lemma sub_from_prefix (repl : M -> result pystr) (pre rest : pystr) (prev : option Z) :
  free_of (hits pat) pre rest = true ->
  sub_from pat repl 0 prev (pre ++ rest)
  = out ← sub_from pat repl 0 None rest; Ok (pre ++ out).
Proof.
  revert prev. induction pre as [|c pre IH]; intros prev Hfree.
  - cbn [app]. rewrite (sub_from_prev repl rest 0 prev None).
    by destruct (sub_from pat repl 0 None rest).
  - cbn [free_of] in Hfree. apply andb_true_iff in Hfree as [Hc Hfree].
    apply negb_true_iff in Hc.
    change ((c :: pre) ++ rest) with (c :: (pre ++ rest)) in *.
    cbn [sub_from]. rewrite (hits_None prev _ Hc), IH by done.
    by destruct (sub_from pat repl 0 None rest).
Qed.

(** At a match the replacement is put, and the text behind the match
    follows. *)
Lemma sub_from_match (repl : M -> result pystr) (m post : pystr) (x : M) (prev : option Z) :
  m <> [] -> pat None (m ++ post) = Some (x, length m) ->
  sub_from pat repl 0 prev (m ++ post)
  = r ← repl x; out ← sub_from pat repl 0 None post; Ok (r ++ out).
Proof.
  intros Hm Hpat. destruct m as [|c m]; [done|].
  change ((c :: m) ++ post) with (c :: (m ++ post)) in *.
  cbn [sub_from]. rewrite (pat_prev prev None), Hpat. cbn [length Nat.pred].
  by rewrite sub_from_skip, drop_app_length.
Qed.

Lemma sub_const_from_prefix (r pre rest : pystr) (prev : option Z) :
  free_of (hits pat) pre rest = true ->
  sub_const_from pat r 0 prev (pre ++ rest) = pre ++ sub_const_from pat r 0 None rest.
Proof.
  revert prev. induction pre as [|c pre IH]; intros prev Hfree.
  - cbn [app]. by apply sub_const_from_prev.
  - cbn [free_of] in Hfree. apply andb_true_iff in Hfree as [Hc Hfree].
    apply negb_true_iff in Hc.
    change ((c :: pre) ++ rest) with (c :: (pre ++ rest)) in *.
    cbn [sub_const_from]. rewrite (hits_None prev _ Hc), IH by done. done.
Qed.

Lemma sub_const_from_match (r m post : pystr) (x : M) (prev : option Z) :
  m <> [] -> pat None (m ++ post) = Some (x, length m) ->
  sub_const_from pat r 0 prev (m ++ post) = r ++ sub_const_from pat r 0 None post.
Proof.
  intros Hm Hpat. destruct m as [|c m]; [done|].
  change ((c :: m) ++ post) with (c :: (m ++ post)) in *.
  cbn [sub_const_from]. rewrite (pat_prev prev None), Hpat. cbn [length Nat.pred].
  rewrite sub_const_from_skip, drop_app_length. f_equal. by apply sub_const_from_prev.
Qed.

(** A text with one match: the match is replaced, the rest is kept. *)
Lemma sub_const_from_one (r pre m post : pystr) (x : M) :
  free_of (hits pat) pre (m ++ post) = true ->
  m <> [] -> pat None (m ++ post) = Some (x, length m) ->
  free_of (hits pat) post [] = true ->
  re_sub_const pat r (pre ++ m ++ post) = pre ++ r ++ post.
Proof.
  intros Hpre Hm Hpat Hpost. unfold re_sub_const.
  rewrite sub_const_from_prefix, (sub_const_from_match r m post x) by done.
  do 2 f_equal. apply (sub_const_from_id pat r (hits pat)); [|done].
  intros prev t. apply hits_None.
Qed.

Lemma sub_from_one (repl : M -> result pystr) (r pre m post : pystr) (x : M) :
  free_of (hits pat) pre (m ++ post) = true ->
  m <> [] -> pat None (m ++ post) = Some (x, length m) -> repl x = Ok r ->
  free_of (hits pat) post [] = true ->
  re_sub pat repl (pre ++ m ++ post) = Ok (pre ++ r ++ post).
Proof.
  intros Hpre Hm Hpat Hr Hpost. unfold re_sub.
  rewrite sub_from_prefix, (sub_from_match repl m post x) by done.
  rewrite Hr. cbn.
  rewrite (sub_from_id pat repl (hits pat) post); [done| |done].
  intros prev t. apply hits_None.
Qed.

(** A text that the pattern matches nowhere is kept. *)
Lemma re_sub_const_free (r s : pystr) :
  free_of (hits pat) s [] = true -> re_sub_const pat r s = s.
Proof.
  intros H. apply (sub_const_from_id pat r (hits pat)); [|done].
  intros prev t. apply hits_None.
Qed.

Lemma re_sub_free (repl : M -> result pystr) (s : pystr) :
  free_of (hits pat) s [] = true -> re_sub pat repl s = Ok s.
Proof.
  intros H. apply (sub_from_id pat repl (hits pat)); [|done].
  intros prev t. apply hits_None.
Qed.

End OneMatch.

Section EscapeFacts.
Context {U : UnicodeDB}.

Lemma head_not_backslash (t : pystr) : head t <> Some 92 -> startswith [92] t = false.
Proof.
  destruct t as [|c t]; [done|]. cbn [head startswith]. intros H. rewrite andb_true_r.
  apply Z.eqb_neq. congruence.
Qed.

Lemma hits_uni_head (t : pystr) : head t <> Some 92 -> hits pat_uni t = false.
Proof. intros H%head_not_backslash. unfold hits. by rewrite pat_uni_backslash. Qed.

Lemma hits_hex_head (t : pystr) : head t <> Some 92 -> hits pat_hex t = false.
Proof. intros H%head_not_backslash. unfold hits. by rewrite pat_hex_backslash. Qed.

Lemma hits_ctrl_head (t : pystr) : head t <> Some 92 -> hits pat_ctrl t = false.
Proof. intros H%head_not_backslash. unfold hits. by rewrite pat_ctrl_backslash. Qed.

(** In a text with a single backslash, a pattern that starts with a
    backslash can only match there. *)
Lemma free_of_one_backslash (f : pystr -> bool) (pre body post : pystr) :
  (forall t, head t <> Some 92 -> f t = false) ->
  92 ∉ pre -> 92 ∉ body -> 92 ∉ post ->
  f ([92] ++ body ++ post) = false ->
  free_of f (pre ++ [92] ++ body ++ post) [] = true.
Proof.
  intros Hf Hpre Hbody Hpost Hat.
  rewrite !free_of_app, app_nil_r. cbn [free_of].
  rewrite (free_of_heads f 92 pre) by done.
  rewrite (free_of_heads f 92 body) by done.
  rewrite (free_of_heads f 92 post) by done.
  rewrite app_nil_r, Hat. done.
Qed.

Lemma no_backslash_app (pre post : pystr) : 92 ∉ pre -> 92 ∉ post -> 92 ∉ pre ++ post.
Proof. intros H1 H2. rewrite elem_of_app. tauto. Qed.

(** The rest of [rtf_to_text], behind the three escape substitutions. *)
Lemma rtf_to_text_unescaped (rtf rtf' s : pystr) :
  unescaped rtf s -> unescaped rtf' s -> rtf_to_text rtf = rtf_to_text rtf'.
Proof.
  intros (s0 & H0 & ->) (s0' & H0' & Heq). unfold rtf_to_text, re_sub in *.
  rewrite H0, H0'. cbn. by rewrite Heq.
Qed.

(** *** A numeric escape *)

Lemma pat_uni_escape_mark (prev : option Z) (code : Z) (post : pystr) :
  pat_uni prev ((py "\u" ++ py (pretty code) ++ [63]) ++ post)
  = Some (py (pretty code), length (py "\u" ++ py (pretty code) ++ [63])).
Proof.
  destruct (pretty_Z_digits code) as (ds & Heq & Hne & Hds & _).
  apply ascii_digits_decimal in Hds.
  unfold pat_uni. change (py "\u") with [92; 117].
  rewrite <- !app_assoc, strip_prefix_app, Heq.
  assert (stops isdecimal ([63] ++ post)) as Hstop by done.
  destruct (code <? 0).
  - rewrite <- !app_assoc, (strip_prefix_app [45]), takewhile_app by done.
    destruct ds as [|d ds]; [done|]. simpl length. simpl drop.
    change (d :: ds ++ 63 :: post) with ((d :: ds) ++ [63] ++ post).
    rewrite takewhile_app, dropwhile_app by done.
    cbn [app startswith]. assert ((63 =? 63) = true) as -> by done. cbn [andb].
    do 2 f_equal. rewrite length_app. cbn [length]. lia.
  - rewrite app_nil_l. destruct ds as [|d ds]; [done|].
    assert (d <> 45) as Hd.
    { intros ->. inversion Hds as [|?? Hc _]. by rewrite isdecimal_ascii_other in Hc. }
    assert (strip_prefix [45] ((d :: ds) ++ [63] ++ post) = None) as ->
      by by apply strip_prefix_cons_ne.
    cbn [length]. rewrite drop_0, takewhile_app, dropwhile_app by done.
    cbn [app startswith]. assert ((63 =? 63) = true) as -> by done. cbn [andb].
    do 2 f_equal. cbn [length]. rewrite !length_app. cbn [length]. lia.
Qed.

Lemma pat_uni_ignores (p p' : option Z) (t : pystr) : pat_uni p t = pat_uni p' t.
Proof. done. Qed.

(** X4. [rtf_to_text] can fail at a numeric escape only: a text in which
    the pattern of the escape, a backslash, [u], an optional minus and
    digits, matches nowhere is always converted, and its conversion is
    what the other steps make of the text itself. *)
Theorem rtf_to_text_without_escape (rtf : pystr) :
  free_of (hits pat_uni) rtf [] = true ->
  rtf_to_text rtf
  = Ok (strip (re_sub_const pat_nl_space [10]
          (re_sub_const pat_blanks [32]
             (remove_char 125 (remove_char 123
                (re_sub_const pat_ctrl [] (re_sub_const pat_hex [] rtf))))))).
Proof.
  intros H. unfold rtf_to_text, re_sub.
  rewrite (sub_from_id pat_uni uni_repl (hits pat_uni) rtf); [done| |done].
  intros prev t. apply (hits_None pat_uni pat_uni_ignores).
Qed.

Lemma pat_hex_ignores (p p' : option Z) (t : pystr) : pat_hex p t = pat_hex p' t.
Proof. done. Qed.

Lemma pat_ctrl_ignores (p p' : option Z) (t : pystr) : pat_ctrl p t = pat_ctrl p' t.
Proof. done. Qed.

(** X19. A numeric escape with its replacement character, in text
    without another backslash, reads as the one character it names, a
    negative code counting from 65536: when that character is not a
    backslash, the conversion gives what it gives for the text with the
    character in place of the escape. *)
Theorem rtf_to_text_escape_decoded (code : Z) (pre post : pystr) :
  let c := if code <? 0 then 65536 + code else code in
  0 <= c < 1114112 -> c <> 92 -> 92 ∉ pre -> 92 ∉ post ->
  rtf_to_text (pre ++ py "\u" ++ py (pretty code) ++ py "?" ++ post)
  = rtf_to_text (pre ++ [c] ++ post).
Proof.
  intros c Hc Hne Hpre Hpost.
  assert (92 ∉ pre ++ [c] ++ post) as Hplain.
  { rewrite !elem_of_app, list_elem_of_singleton. intros [?|[?|?]]; done. }
  apply rtf_to_text_unescaped
    with (s := re_sub_const pat_ctrl [] (re_sub_const pat_hex [] (pre ++ [c] ++ post))).
  - exists (pre ++ [c] ++ post). split; [|done].
    replace (pre ++ py "\u" ++ py (pretty code) ++ py "?" ++ post)
      with (pre ++ (py "\u" ++ py (pretty code) ++ [63]) ++ post)
      by (by rewrite <- !app_assoc).
    apply (sub_from_one pat_uni pat_uni_ignores uni_repl [c] pre _ post (py (pretty code))).
    + apply (free_of_heads _ 92); [apply hits_uni_head|done].
    + done.
    + apply pat_uni_escape_mark.
    + rewrite uni_repl_pretty. fold c. unfold py_chr.
      destruct (Z.leb_spec 0 c), (Z.ltb_spec c 1114112); cbn; (done || lia).
    + apply (free_of_heads _ 92); [apply hits_uni_head|done].
  - exists (pre ++ [c] ++ post). split; [|done].
    apply (re_sub_free pat_uni pat_uni_ignores).
    apply (free_of_heads _ 92); [apply hits_uni_head|done].
Qed.

Lemma ascii_hex_not_backslash (a : Z) : ascii_hex a = true -> a <> 92 /\ a <> 117.
Proof.
  unfold ascii_hex, ascii_digit. intros H.
  destruct (Z.eqb_spec a 92) as [->|]; [done|]. destruct (Z.eqb_spec a 117) as [->|]; done.
Qed.

(** X20. A hex escape is dropped, and nothing is put in its place: in
    text without another backslash, the conversion gives what it gives
    for the text without the escape, so the character that the escape
    stood for is lost. *)
Theorem rtf_to_text_hex_dropped (a b : Z) (pre post : pystr) :
  ascii_hex a = true -> ascii_hex b = true -> 92 ∉ pre -> 92 ∉ post ->
  rtf_to_text (pre ++ py "\'" ++ [a; b] ++ post) = rtf_to_text (pre ++ post).
Proof.
  intros Ha Hb Hpre Hpost.
  destruct (ascii_hex_not_backslash a Ha) as [Ha92 _].
  destruct (ascii_hex_not_backslash b Hb) as [Hb92 _].
  assert (92 ∉ pre ++ post) as Hplain by by apply no_backslash_app.
  apply rtf_to_text_unescaped with (s := pre ++ post); [|by apply unescaped_no_backslash].
  change (py "\'" ++ [a; b] ++ post) with ([92] ++ [39; a; b] ++ post).
  exists (pre ++ [92] ++ [39; a; b] ++ post). split.
  - apply (re_sub_free pat_uni pat_uni_ignores).
    apply free_of_one_backslash; [apply hits_uni_head|done| |done|done].
    rewrite !not_elem_of_cons. repeat split; try done. apply not_elem_of_nil.
  - change (pre ++ [92] ++ [39; a; b] ++ post) with (pre ++ [92; 39; a; b] ++ post).
    rewrite (sub_const_from_one pat_hex pat_hex_ignores [] pre [92; 39; a; b] post tt).
    + cbn [app]. symmetry. apply (re_sub_const_free pat_ctrl pat_ctrl_ignores).
      apply (free_of_heads _ 92); [apply hits_ctrl_head|done].
    + apply (free_of_heads _ 92); [apply hits_hex_head|done].
    + done.
    + unfold pat_hex. cbn [app strip_prefix]. cbn. by rewrite Ha, Hb.
    + apply (free_of_heads _ 92); [apply hits_hex_head|done].
Qed.

Lemma ascii_letter_facts (c : Z) :
  ascii_letter c = true -> c <> 92 /\ c <> 39 /\ c <> 45 /\ isdecimal c = false.
Proof.
  intros H.
  assert (c < 128 /\ ascii_digit c = false /\ c <> 92 /\ c <> 39 /\ c <> 45) as (? & ? & ? & ? & ?).
  { unfold ascii_letter, ascii_upper, ascii_lower, ascii_digit in *.
    apply orb_true_iff in H as [H|H]; apply andb_true_iff in H as [H1 H2];
      apply Z.leb_le in H1, H2; repeat split; try lia;
      apply andb_false_iff; rewrite !Z.leb_gt; lia. }
  repeat split; try done. by apply isdecimal_ascii_other.
Qed.

Lemma isdecimal_facts (c : Z) :
  isdecimal c = true -> c <> 92 /\ ascii_letter c = false.
Proof.
  intros H. split.
  - intros ->. done.
  - destruct (ascii_letter c) eqn:E; [|done].
    apply ascii_letter_facts in E as (_ & _ & _ & E). congruence.
Qed.

(** X21. A control word that ends with a space is dropped together with
    that space: in text without another backslash, the conversion gives
    what it gives for the text without the word.  (The word [u] followed
    by digits is a numeric escape, not a control word.) *)
Theorem rtf_to_text_control_word_dropped (letters digits pre post : pystr) :
  letters <> [] ->
  Forall (fun c => ascii_letter c = true) letters ->
  Forall (fun c => isdecimal c = true) digits ->
  (letters = py "u" -> digits = []) ->
  92 ∉ pre -> 92 ∉ post ->
  rtf_to_text (pre ++ [92] ++ letters ++ digits ++ [32] ++ post) = rtf_to_text (pre ++ post).
Proof.
  intros Hne Hletters Hdigits Hu Hpre Hpost.
  assert (92 ∉ pre ++ post) as Hplain by by apply no_backslash_app.
  assert (92 ∉ letters ++ digits ++ [32]) as Hbody.
  { rewrite !elem_of_app, list_elem_of_singleton. intros [H|[H|H]]; [| |done].
    - rewrite Forall_forall in Hletters. by apply Hletters, ascii_letter_facts in H as (? & _).
    - rewrite Forall_forall in Hdigits. by apply Hdigits, isdecimal_facts in H as (? & _). }
  assert (stops ascii_letter (digits ++ [32] ++ post)) as Hstop1.
  { destruct digits as [|d digits]; [done|]. cbn. inversion Hdigits; subst.
    by apply isdecimal_facts. }
  assert (stops isdecimal ([32] ++ post)) as Hstop2 by done.
  apply rtf_to_text_unescaped with (s := pre ++ post); [|by apply unescaped_no_backslash].
  replace (pre ++ [92] ++ letters ++ digits ++ [32] ++ post)
    with (pre ++ [92] ++ (letters ++ digits ++ [32]) ++ post)
    by (by rewrite <- !app_assoc).
  exists (pre ++ [92] ++ (letters ++ digits ++ [32]) ++ post).
  destruct letters as [|l0 ls]; [done|].
  apply Forall_cons in Hletters as [Hl0 Hls].
  destruct (ascii_letter_facts l0 Hl0) as (Hl92 & Hl39 & Hl45 & Hldec).
  split.
  - apply (re_sub_free pat_uni pat_uni_ignores).
    apply free_of_one_backslash; [apply hits_uni_head|done|done|done|].
    unfold hits, pat_uni. cbn [app strip_prefix].
    assert ((92 =? 92) = true) as -> by done.
    destruct (Z.eqb_spec 117 l0) as [<-|]; [|done].
    destruct ls as [|l1 ls].
    + rewrite (Hu eq_refl). cbn [app strip_prefix]. done.
    + apply Forall_cons in Hls as [Hl1 _].
      destruct (ascii_letter_facts l1 Hl1) as (_ & _ & Hl145 & Hl1dec).
      cbn [app strip_prefix]. rewrite (proj2 (Z.eqb_neq 45 l1)) by done.
      cbn [length drop takewhile]. by rewrite Hl1dec.
  - rewrite (re_sub_const_free pat_hex pat_hex_ignores).
    2:{ apply free_of_one_backslash; [apply hits_hex_head|done|done|done|].
        unfold hits, pat_hex. cbn [app strip_prefix].
        assert ((92 =? 92) = true) as -> by done.
        by rewrite (proj2 (Z.eqb_neq 39 l0)). }
    replace (pre ++ [92] ++ ((l0 :: ls) ++ digits ++ [32]) ++ post)
      with (pre ++ ([92] ++ (l0 :: ls) ++ digits ++ [32]) ++ post)
      by (by rewrite <- !app_assoc).
    rewrite (sub_const_from_one pat_ctrl pat_ctrl_ignores [] pre _ post tt); [done|..].
    + apply (free_of_heads _ 92); [apply hits_ctrl_head|done].
    + done.
    + unfold pat_ctrl.
      replace (([92] ++ (l0 :: ls) ++ digits ++ [32]) ++ post)
        with ([92] ++ (l0 :: ls) ++ digits ++ [32] ++ post)
        by (by rewrite <- !app_assoc).
      rewrite strip_prefix_app.
      rewrite takewhile_app, dropwhile_app by (done || by constructor).
      rewrite takewhile_app, dropwhile_app by done.
      cbn [app startswith]. assert ((32 =? 32) = true) as -> by done. cbn [andb].
      do 2 f_equal. cbn [length]. rewrite !length_app. cbn [length]. lia.
    + apply (free_of_heads _ 92); [apply hits_ctrl_head|done].
Qed.

End EscapeFacts.

Lemma rtf_to_text_without_escape_witness :
  @rtf_to_text ascii_db (py "{\rtf1\uc1 [1] A.}") = Ok (py "[1] A.").
Proof.
  apply (@rtf_to_text_without_escape ascii_db (py "{\rtf1\uc1 [1] A.}")). reflexivity.
Defined.

Lemma rtf_to_text_escape_decoded_witness :
  @rtf_to_text ascii_db (py "[1] M" ++ py "\u" ++ py (pretty 252) ++ py "?" ++ py "ller")
  = @rtf_to_text ascii_db (py "[1] M" ++ [252] ++ py "ller")
  /\ @rtf_to_text ascii_db (py "[1] " ++ py "\u" ++ py (pretty (-3)) ++ py "?" ++ py " x")
     = @rtf_to_text ascii_db (py "[1] " ++ [65533] ++ py " x").
Proof.
  split.
  - apply (@rtf_to_text_escape_decoded ascii_db 252 (py "[1] M") (py "ller"));
      [simpl; lia|simpl; lia|apply (bool_decide_unpack _); vm_compute; reflexivity
      |apply (bool_decide_unpack _); vm_compute; reflexivity].
  - apply (@rtf_to_text_escape_decoded ascii_db (-3) (py "[1] ") (py " x"));
      [simpl; lia|simpl; lia
      |apply (bool_decide_unpack _); vm_compute; reflexivity
      |apply (bool_decide_unpack _); vm_compute; reflexivity].
Defined.

Lemma rtf_to_text_hex_dropped_witness :
  @rtf_to_text ascii_db (py "[1] M" ++ py "\'" ++ [102; 99] ++ py "ller")
  = @rtf_to_text ascii_db (py "[1] M" ++ py "ller").
Proof.
  apply (@rtf_to_text_hex_dropped ascii_db 102 99 (py "[1] M") (py "ller"));
    [reflexivity|reflexivity
    |apply (bool_decide_unpack _); vm_compute; reflexivity
    |apply (bool_decide_unpack _); vm_compute; reflexivity].
Defined.

Lemma rtf_to_text_control_word_dropped_witness :
  @rtf_to_text ascii_db (py "[1] A." ++ [92] ++ py "fs" ++ py "24" ++ [32] ++ py "Smith")
  = @rtf_to_text ascii_db (py "[1] A." ++ py "Smith").
Proof.
  apply (@rtf_to_text_control_word_dropped ascii_db (py "fs") (py "24")
           (py "[1] A.") (py "Smith")).
  - discriminate.
  - repeat constructor.
  - repeat constructor.
  - discriminate.
  - apply (bool_decide_unpack _). vm_compute. reflexivity.
  - apply (bool_decide_unpack _). vm_compute. reflexivity.
Defined.
